(** * Subzero: the PNaCl bitcode reader and the ARM32 instruction model

    A shallow embedding of the parts of [PNaClTranslator.cpp] and
    [IceInstARM32.cpp] that the properties below are about, followed by
    the properties themselves.

    Conventions of the embedding:
    - a C++ unsigned or signed integer is a [Z]; every narrowing
      conversion and every wrap-around is written with [to_uint32],
      [to_int32] or [to_uint64];
    - a [std::vector] is a [list], read with stdpp's lookup [!!] and
      written with [<[i:=x]>];
    - a pointer that may be null is an [option];
    - a pointer to a [CfgNode] is the index of the node in the node list
      of its [Cfg];
    - [assert] statements are not part of the model: they have no effect
      in a build with [NDEBUG]. *)

From Stdlib Require Import ZArith Lia List Bool.
From stdpp Require Import base list strings pretty.

Local Open Scope Z_scope.

(** ** Machine integers *)

Definition to_uint32 (z : Z) : Z := z mod 2^32.

Definition to_uint64 (z : Z) : Z := z mod 2^64.

(** Conversion to [int32_t]: the two's complement reading of the low 32
    bits. *)
Definition to_int32 (z : Z) : Z := (z + 2^31) mod 2^32 - 2^31.

(** [a << n] and [a >> n] on [int]: the left shift keeps the low 32 bits,
    read in two's complement, and the right shift is arithmetic.  A shift
    count of 32 or more is undefined in C++; the functions are then not
    used to state anything. *)
Definition int32_shl (a n : Z) : Z := to_int32 (Z.shiftl a n).

Definition int32_shr (a n : Z) : Z := Z.shiftr a n.

(** ** Utils (IceUtils.h) *)

Module Utils.

(** Modelled from the spec: [Utils::rotateLeft32] is declared in
    IceUtils.h, which is not among the sources; the spec calls it
    "rotating left" a 32-bit immediate.  The shift count is in [0, 31]. *)
Definition rotateLeft32 (value shift : Z) : Z :=
  if shift =? 0 then value
  else Z.lor (to_uint32 (Z.shiftl value shift)) (Z.shiftr value (32 - shift)).

(** Modelled from the spec: [Utils::rotateRight32], from the same header;
    the spec calls it "rotating right". *)
Definition rotateRight32 (value shift : Z) : Z :=
  if shift =? 0 then value
  else Z.lor (Z.shiftr value shift) (to_uint32 (Z.shiftl value (32 - shift))).

End Utils.

(** ** ARM32 operands and branches (IceInstARM32.cpp) *)

Module ARM32.

(** [OperandARM32FlexImm::canHoldImm].  The two out-parameters are written
    only on the paths that return [true]: [Some (RotateAmt, Immed_8)] is
    [true] with these outputs, [None] is [false].  The [for] loop runs
    over the rotation counts that are left. *)
Fixpoint canHoldImm_loop (Rots : list Z) (Immediate : Z) : option (Z * Z) :=
  match Rots with
  | [] => None
  | Rot :: Rots' =>
      let Imm8 := Utils.rotateLeft32 Immediate (2 * Rot) in
      if Imm8 <=? 255 then Some (Rot, Imm8)
      else canHoldImm_loop Rots' Immediate
  end.

Definition canHoldImm (Immediate : Z) : option (Z * Z) :=
  if Immediate <=? 255 then Some (0, Immediate)
  else canHoldImm_loop (seqZ 1 15) Immediate.

Section Branch.

(** [CondARM32::Cond] and the table [InstARM32CondAttributes] are
    generated from ICEINSTARM32COND_TABLE (IceInstARM32.def), which is
    not among the sources: the type of condition codes, the code [AL]
    and the column [Opposite] of the table are parameters. *)
Context {Cond : Type} `{EqDecision Cond}.
Variable AL : Cond.
Variable Opposite : Cond -> Cond.

Definition getOppositeCondition (C : Cond) : Cond := Opposite C.

(** The fields of [InstARM32Br] that [optimizeBranch] reads or writes;
    [Deleted] is the flag of the base class [Inst] set by
    [setDeleted]. *)
Record InstARM32Br := mkBr {
  TargetTrue : option nat;
  TargetFalse : option nat;
  Label : option nat;
  Predicate : Cond;
  Deleted : bool
}.

(** Modelled from the spec: [isUnconditionalBranch] is defined in
    IceInstARM32.h, which is not among the sources; the spec says that
    [AL] denotes "always", and [dump] prints the unconditional form
    exactly when the predicate is [AL]. *)
Definition isUnconditionalBranch (Br : InstARM32Br) : bool :=
  bool_decide (Predicate Br = AL).

Definition setDeleted (Br : InstARM32Br) : InstARM32Br :=
  mkBr (TargetTrue Br) (TargetFalse Br) (Label Br) (Predicate Br) true.

(** [InstARM32Br::optimizeBranch]: the returned flag and the instruction
    after the call. *)
Definition optimizeBranch (Br : InstARM32Br) (NextNode : option nat)
  : bool * InstARM32Br :=
  match NextNode with
  | None => (false, Br)
  | Some _ =>
    match Label Br with
    | Some _ => (false, Br)
    | None =>
      match TargetFalse Br with
      | None => (false, Br)
      | Some _ =>
        if isUnconditionalBranch Br
           && bool_decide (TargetFalse Br = NextNode)
        then (true, setDeleted Br)
        else if bool_decide (TargetFalse Br = NextNode)
        then (true, mkBr (TargetTrue Br) None (Label Br) (Predicate Br)
                         (Deleted Br))
        else if bool_decide (TargetTrue Br = NextNode)
        then (true, mkBr (TargetFalse Br) None (Label Br)
                         (getOppositeCondition (Predicate Br))
                         (Deleted Br))
        else (false, Br)
      end
    end
  end.

(** [InstARM32Br::repointEdges]: the returned flag and the instruction
    after the call.  The nodes are compared as pointers. *)
Definition repointEdges (Br : InstARM32Br) (OldNode NewNode : option nat)
  : bool * InstARM32Br :=
  let Found := false in
  let '(TargetFalse', Found) :=
    if bool_decide (TargetFalse Br = OldNode) then (NewNode, true)
    else (TargetFalse Br, Found) in
  let '(TargetTrue', Found) :=
    if bool_decide (TargetTrue Br = OldNode) then (NewNode, true)
    else (TargetTrue Br, Found) in
  (Found, mkBr TargetTrue' TargetFalse' (Label Br) (Predicate Br)
               (Deleted Br)).

End Branch.

(** The ARM condition codes, with the opposite of each: the instance of
    the table used in the examples below. *)
Inductive CondARM32 :=
  EQ | NE | CS | CC | MI | PL | VS | VC | HI | LS | GE | LT | GT | LE
  | AL | kNone.

#[global] Instance CondARM32_eq_dec : EqDecision CondARM32.
Proof. solve_decision. Defined.

Definition CondARM32_Opposite (C : CondARM32) : CondARM32 :=
  match C with
  | EQ => NE | NE => EQ | CS => CC | CC => CS | MI => PL | PL => MI
  | VS => VC | VC => VS | HI => LS | LS => HI | GE => LT | LT => GE
  | GT => LE | LE => GT | AL => kNone | kNone => kNone
  end.

End ARM32.

(** ** The ICE intermediate representation *)

Module Ice.

(** [Ice::Type]. *)
Inductive IceType :=
  | IceType_void | IceType_i1 | IceType_i8 | IceType_i16 | IceType_i32
  | IceType_i64 | IceType_f32 | IceType_f64
  | IceType_v4i1 | IceType_v8i1 | IceType_v16i1 | IceType_v16i8
  | IceType_v8i16 | IceType_v4i32 | IceType_v4f32.

#[global] Instance IceType_eq_dec : EqDecision IceType.
Proof. solve_decision. Defined.

(** Modelled from the spec: the properties of the types come from
    ICETYPE_TABLE (IceTypes.def), which is not among the sources.  The
    spec names the primitive set; a vector type [vNxx] has [N] elements
    of type [xx]. *)
Definition isVectorType (Ty : IceType) : bool :=
  match Ty with
  | IceType_v4i1 | IceType_v8i1 | IceType_v16i1 | IceType_v16i8
  | IceType_v8i16 | IceType_v4i32 | IceType_v4f32 => true
  | _ => false
  end.

(** Modelled from the spec: see [isVectorType]. *)
Definition typeNumElements (Ty : IceType) : Z :=
  match Ty with
  | IceType_v4i1 | IceType_v4i32 | IceType_v4f32 => 4
  | IceType_v8i1 | IceType_v8i16 => 8
  | IceType_v16i1 | IceType_v16i8 => 16
  | _ => 1
  end.

(** Modelled from the spec: see [isVectorType]. *)
Definition typeElementType (Ty : IceType) : IceType :=
  match Ty with
  | IceType_v4i1 | IceType_v8i1 | IceType_v16i1 => IceType_i1
  | IceType_v16i8 => IceType_i8
  | IceType_v8i16 => IceType_i16
  | IceType_v4i32 => IceType_i32
  | IceType_v4f32 => IceType_f32
  | _ => Ty
  end.

(** Modelled from the spec: the integer family, scalars and vectors. *)
Definition isIntegerType (Ty : IceType) : bool :=
  match Ty with
  | IceType_i1 | IceType_i8 | IceType_i16 | IceType_i32 | IceType_i64
  | IceType_v4i1 | IceType_v8i1 | IceType_v16i1 | IceType_v16i8
  | IceType_v8i16 | IceType_v4i32 => true
  | _ => false
  end.

(** Modelled from the spec: the scalar integer types. *)
Definition isScalarIntegerType (Ty : IceType) : bool :=
  isIntegerType Ty && negb (isVectorType Ty).

(** Modelled from the spec: the floating family, scalars and vectors. *)
Definition isFloatingType (Ty : IceType) : bool :=
  match Ty with
  | IceType_f32 | IceType_f64 | IceType_v4f32 => true
  | _ => false
  end.

(** Modelled from the spec: the size in bytes of a value of the type; a
    vector fills a 128-bit register. *)
Definition typeWidthInBytes (Ty : IceType) : Z :=
  match Ty with
  | IceType_void => 0
  | IceType_i1 | IceType_i8 => 1
  | IceType_i16 => 2
  | IceType_i32 | IceType_f32 => 4
  | IceType_i64 | IceType_f64 => 8
  | _ => 16
  end.

(** Modelled from the spec: "[i1] counts as 1 bit and other scalars as
    size-in-bytes × 8". *)
Definition getScalarIntBitWidth (Ty : IceType) : Z :=
  if decide (Ty = IceType_i1) then 1 else typeWidthInBytes Ty * 8.

(** Modelled from the spec: "result type is [i1] for scalars or a boolean
    vector of the same element count"; [void] has no comparison. *)
Definition getCompareResultType (Ty : IceType) : IceType :=
  match Ty with
  | IceType_void => IceType_void
  | IceType_v4i1 | IceType_v4i32 | IceType_v4f32 => IceType_v4i1
  | IceType_v8i1 | IceType_v8i16 => IceType_v8i1
  | IceType_v16i1 | IceType_v16i8 => IceType_v16i1
  | _ => IceType_i1
  end.

(** Modelled from the spec: "the target pointer type"; PNaCl pointers
    are 32 bits wide. *)
Definition getPointerType : IceType := IceType_i32.

(** Modelled from the spec: the printable names of the types, as the
    spec writes them. *)
Definition typeString (Ty : IceType) : string :=
  match Ty with
  | IceType_void => "void" | IceType_i1 => "i1" | IceType_i8 => "i8"
  | IceType_i16 => "i16" | IceType_i32 => "i32" | IceType_i64 => "i64"
  | IceType_f32 => "f32" | IceType_f64 => "f64"
  | IceType_v4i1 => "v4i1" | IceType_v8i1 => "v8i1"
  | IceType_v16i1 => "v16i1" | IceType_v16i8 => "v16i8"
  | IceType_v8i16 => "v8i16" | IceType_v4i32 => "v4i32"
  | IceType_v4f32 => "v4f32"
  end.

(** [Ice::FuncSigType]: a return type and the argument types. *)
Record FuncSigType := mkFuncSigType {
  SigReturnType : IceType;
  SigArgList : list IceType
}.

(** [Ice::InstArithmetic::OpKind]. *)
Module InstArithmetic.
Inductive OpKind :=
  | Add | Fadd | Sub | Fsub | Mul | Fmul | Udiv | Sdiv | Fdiv
  | Urem | Srem | Frem | Shl | Lshr | Ashr | And | Or | Xor.
End InstArithmetic.

(** [Ice::InstCast::OpKind]. *)
Module InstCast.
Inductive OpKind :=
  | Trunc | Zext | Sext | Fptoui | Fptosi | Uitofp | Sitofp
  | Fptrunc | Fpext | Bitcast.
End InstCast.

(** Modelled from the spec: [InstCast::getCastName] reads the names from
    ICEINSTCAST_TABLE (IceInst.def), which is not among the sources; the
    spec lists them. *)
Definition getCastName (Kind : InstCast.OpKind) : string :=
  match Kind with
  | InstCast.Trunc => "trunc" | InstCast.Zext => "zext"
  | InstCast.Sext => "sext" | InstCast.Fptoui => "fptoui"
  | InstCast.Fptosi => "fptosi" | InstCast.Uitofp => "uitofp"
  | InstCast.Sitofp => "sitofp" | InstCast.Fptrunc => "fptrunc"
  | InstCast.Fpext => "fpext" | InstCast.Bitcast => "bitcast"
  end.

(** [Ice::InstIcmp::ICond] and [Ice::InstFcmp::FCond]. *)
Module InstIcmp.
Inductive ICond :=
  | Eq | Ne | Ugt | Uge | Ult | Ule | Sgt | Sge | Slt | Sle.
End InstIcmp.

Module InstFcmp.
Inductive FCond :=
  | False | Oeq | Ogt | Oge | Olt | Ole | One | Ord
  | Ueq | Ugt | Uge | Ult | Ule | Une | Uno | True.
End InstFcmp.

(** Operands.  A variable ([Ice::Variable]) is identified by the number that
    [Cfg::makeVariable] gave it; constants are pooled by the global
    context, so that equal constants are the same object. *)
Inductive Operand :=
  | IceVariable (Number : nat) (Ty : IceType)
  | ConstantRelocatable (Offset : Z) (Name : string) (SuppressMangling : bool)
  | ConstantInteger32 (Ty : IceType) (Value : Z)
  | ConstantInteger64 (Value : Z)
  | ConstantFloat (Bits : Z)
  | ConstantDouble (Bits : Z)
  | ConstantUndef (Ty : IceType).

#[global] Instance Operand_eq_dec : EqDecision Operand.
Proof. solve_decision. Defined.

Definition getType (Op : Operand) : IceType :=
  match Op with
  | IceVariable _ Ty => Ty
  | ConstantRelocatable _ _ _ => getPointerType
  | ConstantInteger32 Ty _ => Ty
  | ConstantInteger64 _ => IceType_i64
  | ConstantFloat _ => IceType_f32
  | ConstantDouble _ => IceType_f64
  | ConstantUndef Ty => Ty
  end.

(** The high-level instructions that the function parser creates. *)
Inductive Inst :=
  | InstArithmetic (Op : InstArithmetic.OpKind) (Dest Source1 Source2 : Operand)
  | InstCast (Kind : InstCast.OpKind) (Dest Source : Operand)
  | InstSelect (Dest Condition SourceTrue SourceFalse : Operand)
  | InstExtractElement (Dest Source1 Source2 : Operand)
  | InstInsertElement (Dest Source1 Source2 Source3 : Operand)
  | InstIcmp (Condition : InstIcmp.ICond) (Dest Source1 Source2 : Operand)
  | InstFcmp (Condition : InstFcmp.FCond) (Dest Source1 Source2 : Operand)
  | InstRet (RetValue : option Operand)
  | InstBr (Target : nat)
  | InstBrCond (Source : Operand) (TargetTrue TargetFalse : nat)
  | InstSwitch (NumCases : Z) (Source : Operand) (LabelDefault : nat)
               (Cases : list (Z * nat))
  | InstUnreachable
  | InstPhi (MaxSrcs : Z) (Dest : Operand) (Args : list (Operand * nat))
  | InstAlloca (ByteCount : Operand) (AlignInBytes : Z) (Dest : Operand)
  | InstLoad (Dest SourceAddr : Operand) (Align : Z)
  | InstStore (Data Addr : Operand) (Align : Z)
  | InstCall (NumArgs : Z) (Dest : option Operand) (CallTarget : Operand)
             (HasTailCall : bool) (Args : list Operand)
  | InstIntrinsicCall (NumArgs : Z) (Dest : option Operand)
                      (CallTarget : Operand) (Info : Z) (Args : list Operand)
  | InstAssign (Dest Source : Operand).

(** The terminators, as the spec lists them: branches, switch, return and
    unreachable. *)
Definition isTerminator (Instr : Inst) : bool :=
  match Instr with
  | InstRet _ | InstBr _ | InstBrCond _ _ _ | InstSwitch _ _ _ _
  | InstUnreachable => true
  | _ => false
  end.

(** The targets of the edges that leave an instruction. *)
Definition getTerminatorEdges (Instr : Inst) : list nat :=
  match Instr with
  | InstBr Target => [Target]
  | InstBrCond _ TargetTrue TargetFalse => [TargetTrue; TargetFalse]
  | InstSwitch _ _ LabelDefault Cases => LabelDefault :: map snd Cases
  | _ => []
  end.

(** [Ice::CfgNode]: the instructions of the block and the predecessors
    that [computePredecessors] found. *)
Record CfgNode := mkCfgNode {
  Insts : list Inst;
  InEdges : list nat
}.

Definition appendInst (Instr : Inst) (Node : CfgNode) : CfgNode :=
  mkCfgNode (Insts Node ++ [Instr]) (InEdges Node).

(** [Ice::Cfg]: the fields that the function parser sets. *)
Record Cfg := mkCfg {
  FunctionName : string;
  ReturnType : IceType;
  IsInternal : bool;
  EntryNode : option nat;
  Args : list Operand;
  Variables : list Operand;
  Nodes : list CfgNode;
  Translated : bool
}.

Definition emptyCfg : Cfg :=
  mkCfg "" IceType_void false None [] [] [] false.

(** Modelled from the spec: [Cfg::makeVariable] is defined in IceCfg.cpp,
    which is not among the sources; it creates the variable with the next
    number and registers it. *)
Definition makeVariable (Ty : IceType) (Func : Cfg) : Operand * Cfg :=
  let Var := IceVariable (length (Variables Func)) Ty in
  (Var, mkCfg (FunctionName Func) (ReturnType Func) (IsInternal Func)
              (EntryNode Func) (Args Func) (Variables Func ++ [Var])
              (Nodes Func) (Translated Func)).

(** Modelled from the spec: [Cfg::makeNode], from the same file, appends
    an empty node to the list of nodes and returns it. *)
Definition makeNode (Func : Cfg) : nat * Cfg :=
  (length (Nodes Func),
   mkCfg (FunctionName Func) (ReturnType Func) (IsInternal Func)
         (EntryNode Func) (Args Func) (Variables Func)
         (Nodes Func ++ [mkCfgNode [] []]) (Translated Func)).

Definition setNodes (Ns : list CfgNode) (Func : Cfg) : Cfg :=
  mkCfg (FunctionName Func) (ReturnType Func) (IsInternal Func)
        (EntryNode Func) (Args Func) (Variables Func) Ns (Translated Func).

Definition addArg (Arg : Operand) (Func : Cfg) : Cfg :=
  mkCfg (FunctionName Func) (ReturnType Func) (IsInternal Func)
        (EntryNode Func) (Args Func ++ [Arg]) (Variables Func) (Nodes Func)
        (Translated Func).

(** The successors of a node are the edges of its last instruction. *)
Definition successors (Node : CfgNode) : list nat :=
  match last (Insts Node) with
  | Some Instr => getTerminatorEdges Instr
  | None => []
  end.

(** Modelled from the spec: [Cfg::computePredecessors] is defined in
    IceCfg.cpp; "predecessors are computed deterministically from
    successor edges": node [P] is a predecessor of node [N] once for every
    edge from [P] to [N], in the order of the nodes. *)
Definition predecessorsOf (Ns : list CfgNode) (N : nat) : list nat :=
  flat_map (fun '(P, Node) =>
              if bool_decide (N ∈ successors Node) then [P] else [])
           (imap (fun P Node => (P, Node)) Ns).

Definition computePredecessors (Func : Cfg) : Cfg :=
  setNodes (imap (fun N Node => mkCfgNode (Insts Node)
                                          (predecessorsOf (Nodes Func) N))
                 (Nodes Func)) Func.

End Ice.

(** ** The assembly text of the ARM32 stack instructions *)

Module ARM32Emit.

Import Ice.

(** What an [emit] routine writes to the assembly stream: a literal, or
    the text of [Op->emit(Func)] for an operand, which is the business of
    the operand. *)
Inductive EmitItem :=
  | Text (s : string)
  | EmitOperand (Op : Operand).

(** The characters [\t] and [\n]. *)
Definition tab : string := String (Ascii.ascii_of_nat 9) EmptyString.

Definition newline : string := String (Ascii.ascii_of_nat 10) EmptyString.

(** The loop that writes the scalar integer operands between the braces:
    [PrintComma] says whether one has been written. *)
Fixpoint emitIntegerOperands (PrintComma : bool) (Ops : list Operand)
  : list EmitItem :=
  match Ops with
  | [] => []
  | Op :: Ops' =>
      if isScalarIntegerType (getType Op)
      then (if PrintComma then [Text ", "] else [])
           ++ [EmitOperand Op] ++ emitIntegerOperands true Ops'
      else emitIntegerOperands PrintComma Ops'
  end.

(** The loop that writes one line for every operand that is not a scalar
    integer. *)
Fixpoint emitOtherOperands (Opcode : string) (Ops : list Operand)
  : list EmitItem :=
  match Ops with
  | [] => []
  | Op :: Ops' =>
      if isScalarIntegerType (getType Op)
      then emitOtherOperands Opcode Ops'
      else [Text tab; Text Opcode; Text (tab +:+ "{"); EmitOperand Op;
            Text ("}" +:+ newline)]
           ++ emitOtherOperands Opcode Ops'
  end.

Definition IntegerCount (Ops : list Operand) : nat :=
  length (filter (fun Op => isScalarIntegerType (getType Op) = true) Ops).

(** [InstARM32Pop::emit], in a build where [BuildDefs::dump()] is [Dump]. *)
Definition InstARM32Pop_emit (Dump : bool) (Dests : list Operand)
  : list EmitItem :=
  if negb Dump then []
  else
    (if negb (IntegerCount Dests =? 0)%nat
     then [Text tab; Text "pop"; Text (tab +:+ "{")]
          ++ emitIntegerOperands false Dests ++ [Text ("}" +:+ newline)]
     else [])
    ++ emitOtherOperands "vpop" Dests.

(** [InstARM32Push::emit]: the sources are the operands of the
    instruction, in the order of the constructor; the first loop runs from
    the last source to the first. *)
Definition InstARM32Push_emit (Dump : bool) (Srcs : list Operand)
  : list EmitItem :=
  if negb Dump then []
  else
    emitOtherOperands "vpush" (rev Srcs)
    ++ (if negb (IntegerCount Srcs =? 0)%nat
        then [Text tab; Text "push"; Text (tab +:+ "{")]
             ++ emitIntegerOperands false Srcs ++ [Text ("}" +:+ newline)]
        else []).

Section BranchEmit.

Context {Cond : Type} `{EqDecision Cond}.
Variable AL : Cond.

(** What [InstARM32Br::emit] writes: a literal, the predicate, whose text
    comes from the table of the condition codes, the name of the label
    ([Label->getName]) or the name of a node ([getAsmName]). *)
Inductive BrEmitItem :=
  | BrText (s : string)
  | BrPredicate (C : Cond)
  | BrLabelName (L : nat)
  | BrAsmName (Node : nat).

(** [InstARM32Br::emit], in a build where [BuildDefs::dump()] is [Dump];
    there is no result where the routine takes the name of a target that
    is a null pointer. *)
Definition InstARM32Br_emit (Dump : bool) (Br : ARM32.InstARM32Br)
  : option (list BrEmitItem) :=
  if negb Dump then Some []
  else
    let Head := [BrText tab; BrText "b"; BrPredicate (ARM32.Predicate Br);
                 BrText tab] in
    match ARM32.Label Br with
    | Some L => Some (Head ++ [BrLabelName L])
    | None =>
        if ARM32.isUnconditionalBranch AL Br
        then F ← ARM32.TargetFalse Br ; Some (Head ++ [BrAsmName F])
        else
          T ← ARM32.TargetTrue Br ;
          Some (Head ++ [BrAsmName T]
                ++ match ARM32.TargetFalse Br with
                   | Some F => [BrText (newline +:+ tab); BrText "b";
                                BrText tab; BrAsmName F]
                   | None => []
                   end)
    end.

End BranchEmit.

End ARM32Emit.

(** ** The bitcode reader (PNaClTranslator.cpp) *)

Module PNaCl.

Import Ice.

(** *** Diagnostics *)

(** [ExtendedType::TypeKind]. *)
Inductive TypeKind := Undefined | Simple | FuncSig.

#[global] Instance TypeKind_eq_dec : EqDecision TypeKind.
Proof. solve_decision. Defined.

(** [ExtendedType]: the kind, and the signature, whose return type holds
    the type of a simple entry. *)
Record ExtendedType := mkExtendedType {
  Kind : TypeKind;
  Signature : FuncSigType
}.

(** A diagnostic is the sequence of the values streamed into the message
    buffer; the printers of operands, extended types and records are not
    among the sources, so that these stay symbolic. *)
Inductive MessagePart :=
  | Str (s : string)
  | Num (n : Z)
  | Ty (T : IceType)
  | DumpOp (X : Operand)
  | OpPointer (X : Operand)
  | CastName (K : InstCast.OpKind)
  | ArithName (K : InstArithmetic.OpKind)
  | KindName (K : TypeKind)
  | ExtTy (T : ExtendedType)
  | RecordDump (Code : Z) (Values : list Z).

Definition Message := list MessagePart.

(** The text of a diagnostic made of literals, numbers, types and cast
    names only. *)
Fixpoint messageText (M : Message) : option string :=
  match M with
  | [] => Some ""
  | P :: M' =>
      match (match P with
             | Str s => Some s
             | Num n => Some (pretty n)
             | Ty T => Some (typeString T)
             | CastName K => Some (getCastName K)
             | _ => None
             end), messageText M' with
      | Some s, Some s' => Some (s +:+ s')
      | _, _ => None
      end
  end.

(** *** The top-level parser *)

(** The two settings that the reader consults: the command line option
    [AllowErrorRecovery], and [isIRGenerationDisabled()], that is the flag
    [DisableIRGeneration] in a build with ALLOW_DISABLE_IR_GEN. *)
Record ClFlags := mkClFlags {
  AllowErrorRecovery : bool;
  DisableIRGeneration : bool
}.

(** [Ice::FunctionDeclaration], as far as the reader looks into it. *)
Record FunctionDeclaration := mkFunctionDeclaration {
  FuncName : string;
  FuncSuppressMangling : bool;
  FuncSignature : FuncSigType;
  FuncIsInternal : bool
}.

(** A reference to a global declaration: a function or a variable, by
    position in its list. *)
Inductive GlobalDeclarationRef :=
  | FunctionRef (Index : nat)
  | VariableRef (Index : nat).

(** [Ice::VariableDeclaration::Initializer]. *)
Inductive Initializer :=
  | ZeroInitializer (Size : Z)
  | DataInitializer (Values : list Z)
  | RelocInitializer (Declaration : GlobalDeclarationRef) (Offset : Z).

(** [Ice::VariableDeclaration]. *)
Record VariableDeclaration := mkVariableDeclaration {
  VarName : string;
  VarSuppressMangling : bool;
  Alignment : Z;
  IsConstant : bool;
  Initializers : list Initializer
}.

(** [VariableDeclaration::create]: no name, alignment 0, not constant, no
    initializer. *)
Definition newVariableDeclaration : VariableDeclaration :=
  mkVariableDeclaration "" false 0 false [].

(** [TopLevelParser].  [ErrStream] is the stream that
    [NaClBitcodeParser::Error] writes the diagnostics to. *)
Record TopLevelParser := mkTopLevelParser {
  Flags : ClFlags;
  ErrorStatus : bool;
  NumErrors : Z;
  ErrStream : list Message;
  TypeIDValues : list ExtendedType;
  FunctionDeclarationList : list FunctionDeclaration;
  VariableDeclarations : list VariableDeclaration;
  ValueIDConstants : list (option Operand);
  NumFunctionIds : Z;
  NumFunctionBlocks : Z;
  DefiningFunctionDeclarationsList : list Z
}.

Definition newTopLevelParser (F : ClFlags) : TopLevelParser :=
  mkTopLevelParser F false 0 [] [] [] [] [] 0 0 [].

Definition recordError (Msg : Message) (C : TopLevelParser) : TopLevelParser :=
  mkTopLevelParser (Flags C) true (to_uint32 (NumErrors C + 1))
    (ErrStream C ++ [Msg]) (TypeIDValues C) (FunctionDeclarationList C)
    (VariableDeclarations C) (ValueIDConstants C) (NumFunctionIds C)
    (NumFunctionBlocks C) (DefiningFunctionDeclarationsList C).

Definition setTypeIDValues (T : list ExtendedType) (C : TopLevelParser)
  : TopLevelParser :=
  mkTopLevelParser (Flags C) (ErrorStatus C) (NumErrors C) (ErrStream C) T
    (FunctionDeclarationList C) (VariableDeclarations C) (ValueIDConstants C)
    (NumFunctionIds C) (NumFunctionBlocks C)
    (DefiningFunctionDeclarationsList C).

Definition setVariableDeclarations (V : list VariableDeclaration)
    (C : TopLevelParser) : TopLevelParser :=
  mkTopLevelParser (Flags C) (ErrorStatus C) (NumErrors C) (ErrStream C)
    (TypeIDValues C) (FunctionDeclarationList C) V (ValueIDConstants C)
    (NumFunctionIds C) (NumFunctionBlocks C)
    (DefiningFunctionDeclarationsList C).

Definition setValueIDConstants (V : list (option Operand))
    (C : TopLevelParser) : TopLevelParser :=
  mkTopLevelParser (Flags C) (ErrorStatus C) (NumErrors C) (ErrStream C)
    (TypeIDValues C) (FunctionDeclarationList C) (VariableDeclarations C) V
    (NumFunctionIds C) (NumFunctionBlocks C)
    (DefiningFunctionDeclarationsList C).

Definition setNumFunctionBlocks (N : Z) (C : TopLevelParser)
  : TopLevelParser :=
  mkTopLevelParser (Flags C) (ErrorStatus C) (NumErrors C) (ErrStream C)
    (TypeIDValues C) (FunctionDeclarationList C) (VariableDeclarations C)
    (ValueIDConstants C) (NumFunctionIds C) N
    (DefiningFunctionDeclarationsList C).

(** [TopLevelParser::setNextFunctionID] and
    [setNextValueIDAsImplementedFunction], in the order in which the module
    parser calls them for a function address record. *)
Definition declareFunction (Fcn : FunctionDeclaration) (IsProto : bool)
    (C : TopLevelParser) : TopLevelParser :=
  mkTopLevelParser (Flags C) (ErrorStatus C) (NumErrors C) (ErrStream C)
    (TypeIDValues C) (FunctionDeclarationList C ++ [Fcn])
    (VariableDeclarations C) (ValueIDConstants C)
    (to_uint32 (NumFunctionIds C + 1)) (NumFunctionBlocks C)
    (if IsProto then DefiningFunctionDeclarationsList C
     else DefiningFunctionDeclarationsList C
            ++ [Z.of_nat (length (FunctionDeclarationList C))]).

(** *** The monad of the record handlers

    A handler runs on the state of its block parser.  It returns, or it
    ends the process through [report_fatal_error]; in both cases the
    state reached is kept, for the diagnostics that it holds. *)
Inductive Outcome (S A : Type) :=
  | Returns (a : A) (s : S)
  | Aborts (s : S).

Arguments Returns {S A} a s.
Arguments Aborts {S A} s.

Definition M (S A : Type) : Type := S -> Outcome S A.

Definition ret {S A} (a : A) : M S A := fun s => Returns a s.

Definition bind {S A B} (m : M S A) (k : A -> M S B) : M S B :=
  fun s => match m s with
           | Returns a s' => k a s'
           | Aborts s' => Aborts s'
           end.

Declare Scope parser_scope.
Delimit Scope parser_scope with parser.
Notation "x ← y ; z" := (bind y (fun x => z))
  (at level 20, y at level 100, z at level 200, only parsing) : parser_scope.
Notation "' x ← y ; z" := (bind y (fun x => z))
  (at level 20, x pattern, y at level 100, z at level 200, only parsing)
  : parser_scope.
Notation "x ;; z" := (bind x (fun _ => z))
  (at level 100, z at level 200, only parsing, right associativity)
  : parser_scope.
Local Open Scope parser_scope.

Definition get {S} : M S S := fun s => Returns s s.
Definition put {S} (s : S) : M S unit := fun _ => Returns tt s.
Definition modify {S} (f : S -> S) : M S unit := fun s => Returns tt (f s).
Definition report_fatal_error {S A} : M S A := fun s => Aborts s.

Definition when {S} (b : bool) (m : M S unit) : M S unit :=
  if b then m else ret tt.

(** The state after a run, however it ended. *)
Definition finalState {S A} (o : Outcome S A) : S :=
  match o with Returns _ s => s | Aborts s => s end.

(** [BlockParserBaseClass]: every block parser reaches the top-level
    parser through its [Context]. *)
Class BlockParser (S : Type) := {
  getContext : S -> TopLevelParser;
  setContext : TopLevelParser -> S -> S;
  getBlockName : string
}.

(** [toupper] on the first character of a name. *)
Definition capitalize (s : string) : string :=
  match s with
  | EmptyString => EmptyString
  | String c s' =>
      let n := Ascii.nat_of_ascii c in
      String (if (97 <=? n)%nat && (n <=? 122)%nat
              then Ascii.ascii_of_nat (n - 32) else c) s'
  end.

Section BlockParserBaseClass.

Context {S : Type} {BP : BlockParser S}.

Definition context : M S TopLevelParser := fun s => Returns (getContext s) s.

Definition isIRGenerationDisabled : M S bool :=
  C ← context ; ret (DisableIRGeneration (Flags C)).

(** [BlockParserBaseClass::Error], [TopLevelParser::BlockError] and
    [TopLevelParser::Error]: the error status is set, the count goes up,
    the message is written, and without error recovery the process ends.
    The prefix with the bit position that the block parser puts before
    the message is left out, and the message is the one of a build with
    ALLOW_DUMP. *)
Definition Error (Msg : Message) : M S unit :=
  modify (fun s => setContext (recordError Msg (getContext s)) s) ;;
  C ← context ;
  if AllowErrorRecovery (Flags C) then ret tt else report_fatal_error.

(** [Values[i]]; the source does not read beyond the end of a record
    whose size it has checked, and where it has not, the model reads 0. *)
Definition at_ (Values : list Z) (i : nat) : Z := Values !!! i.

(** [ReportRecordSizeError]. *)
Definition ReportRecordSizeError (ExpectedSize : Z)
    (RecordName : string) (ContextMessage : option string)
    (Values : list Z) : M S unit :=
  Error ([Str (capitalize getBlockName); Str " "; Str RecordName;
          Str " record expects"]
         ++ match ContextMessage with
            | Some c => [Str " "; Str c]
            | None => []
            end
         ++ [Str " "; Num ExpectedSize; Str " argument"]
         ++ (if 1 <? ExpectedSize then [Str "s"] else [])
         ++ [Str ". Found: "; Num (Z.of_nat (length Values))]).

Definition isValidRecordSize (Size : Z)
    (RecordName : string) (Values : list Z) : M S bool :=
  if Z.of_nat (length Values) =? Size then ret true
  else ReportRecordSizeError Size RecordName None Values ;;
       ret false.

Definition isValidRecordSizeAtLeast (LowerLimit : Z)
    (RecordName : string) (Values : list Z) : M S bool :=
  if LowerLimit <=? Z.of_nat (length Values) then ret true
  else ReportRecordSizeError LowerLimit RecordName
         (Some "at least") Values ;;
       ret false.

Definition isValidRecordSizeAtMost (UpperLimit : Z)
    (RecordName : string) (Values : list Z) : M S bool :=
  if Z.of_nat (length Values) <=? UpperLimit then ret true
  else ReportRecordSizeError UpperLimit RecordName
         (Some "no more than") Values ;;
       ret false.

Definition isValidRecordSizeInRange (LowerLimit UpperLimit : Z) (RecordName : string) (Values : list Z)
  : M S bool :=
  b ← isValidRecordSizeAtLeast LowerLimit RecordName Values ;
  if b then ret true
  else isValidRecordSizeAtMost UpperLimit RecordName Values.

(** [BlockParserBaseClass::ProcessRecord]: the record is not understood. *)
Definition ProcessRecord_default (Code : Z) (Values : list Z) : M S unit :=
  Error [Str "Don't know how to process "; Str getBlockName; Str " record:";
         RecordDump Code Values].

(** [std::vector::resize]. *)
Definition resize {A} (n : nat) (x : A) (l : list A) : list A :=
  take n l ++ replicate (n - length l) x.

Definition reportBadTypeIDAs (ID : Z) (Ty : option ExtendedType)
    (WantedType : TypeKind) : M S unit :=
  match Ty with
  | None => Error [Str "Can't find extended type for type id: "; Num ID]
  | Some T => Error [Str "Type id "; Num ID; Str " not "; KindName WantedType;
                     Str ". Found: "; ExtTy T]
  end.

(** [getTypeByIDAsKind]: the entry is returned by its position ; the
    table. *)
Definition getTypeByIDAsKind (ID : Z) (WantedKind : TypeKind)
  : M S (option nat) :=
  C ← context ;
  let Ty := if ID <? Z.of_nat (length (TypeIDValues C))
            then TypeIDValues C !! Z.to_nat ID else None in
  match Ty with
  | Some T =>
      if decide (Kind T = WantedKind) then ret (Some (Z.to_nat ID))
      else reportBadTypeIDAs ID Ty WantedKind ;; ret None
  | None => reportBadTypeIDAs ID Ty WantedKind ;; ret None
  end.

Definition modifyContext (f : TopLevelParser -> TopLevelParser) : M S unit :=
  modify (fun s => setContext (f (getContext s)) s).

(** [getTypeByIDForDefining]. *)
Definition getTypeByIDForDefining (ID : Z) : M S nat :=
  Ty ← getTypeByIDAsKind ID Undefined ;
  match Ty with
  | Some T => ret T
  | None =>
      C ← context ;
      when (Z.of_nat (length (TypeIDValues C)) <=? ID)
        (modifyContext (fun C =>
           setTypeIDValues
             (resize (Z.to_nat (to_uint32 (ID + 1)))
                     (mkExtendedType Undefined (mkFuncSigType IceType_void []))
                     (TypeIDValues C)) C)) ;;
      ret (Z.to_nat ID)
  end.

(** [getSimpleTypeByID]. *)
Definition getSimpleTypeByID (ID : Z) : M S IceType :=
  Ty ← getTypeByIDAsKind ID Simple ;
  C ← context ;
  match Ty with
  | None => ret IceType_void
  | Some T =>
      ret (match TypeIDValues C !! T with
           | Some E => SigReturnType (Signature E)
           | None => IceType_void
           end)
  end.

(** [getFuncSigTypeByID]; the recovery value is the empty signature
    [UndefinedFuncSigType]. *)
Definition getFuncSigTypeByID (ID : Z) : M S FuncSigType :=
  Ty ← getTypeByIDAsKind ID FuncSig ;
  C ← context ;
  match Ty with
  | None => ret (mkFuncSigType IceType_void [])
  | Some T =>
      ret (match TypeIDValues C !! T with
           | Some E => Signature E
           | None => mkFuncSigType IceType_void []
           end)
  end.

(** An update of the entry of the type table at a position. *)
Definition updateType (T : nat) (f : ExtendedType -> ExtendedType)
  : M S unit :=
  modifyContext (fun C => setTypeIDValues (alter f T (TypeIDValues C)) C).

Definition setAsSimpleType (Ty : IceType) (E : ExtendedType) : ExtendedType :=
  mkExtendedType Simple (mkFuncSigType Ty (SigArgList (Signature E))).

Definition setAsFunctionType (E : ExtendedType) : ExtendedType :=
  mkExtendedType FuncSig (Signature E).

Definition setReturnType (Ty : IceType) (E : ExtendedType) : ExtendedType :=
  mkExtendedType (Kind E) (mkFuncSigType Ty (SigArgList (Signature E))).

Definition appendArgType (Ty : IceType) (E : ExtendedType) : ExtendedType :=
  mkExtendedType (Kind E)
    (mkFuncSigType (SigReturnType (Signature E))
                   (SigArgList (Signature E) ++ [Ty])).

End BlockParserBaseClass.

(** *** The types block *)

(** The codes of the records of a types block.  The numbers belong to the
    bitcode format, which the handlers only compare with these names: a
    code is one of the names, or some other number. *)
Inductive TypeCode :=
  | TYPE_CODE_NUMENTRY | TYPE_CODE_VOID | TYPE_CODE_FLOAT | TYPE_CODE_DOUBLE
  | TYPE_CODE_INTEGER | TYPE_CODE_VECTOR | TYPE_CODE_FUNCTION
  | TYPE_CODE_other (Code : Z).

Record TypesParser := mkTypesParser {
  TypesContext : TopLevelParser;
  NextTypeId : Z
}.

#[global] Instance TypesParser_BlockParser : BlockParser TypesParser := {|
  getContext := TypesContext;
  setContext C s := mkTypesParser C (NextTypeId s);
  getBlockName := "type"
|}.

Definition newTypesParser (C : TopLevelParser) : TypesParser :=
  mkTypesParser C 0.

Definition setNextTypeIDAsSimpleType (Ty : IceType) : M TypesParser unit :=
  s ← get ;
  put (mkTypesParser (TypesContext s) (to_uint32 (NextTypeId s + 1))) ;;
  T ← getTypeByIDForDefining (NextTypeId s) ;
  updateType T (setAsSimpleType Ty).

(** The loop over the parameter types of a FUNCTION record, from index
    [i] on.  The message about a [void] parameter is built, and that is
    all: the source does not pass it to [Error]. *)
Fixpoint TypesParser_appendArgTypes (T : nat) (i : Z) (Rest : list Z)
  : M TypesParser unit :=
  match Rest with
  | [] => ret tt
  | V :: Rest' =>
      ArgTy ← getSimpleTypeByID (to_uint32 V) ;
      let StrBuf := [Str "Type for parameter "; Num (i - 1);
                     Str " not valid. Found: "; Ty ArgTy] in
      let ArgTy := if decide (ArgTy = IceType_void) then IceType_i32
                   else ArgTy in
      updateType T (appendArgType ArgTy) ;;
      TypesParser_appendArgTypes T (i + 1) Rest'
  end.

(** [TypesParser::ProcessRecord]. *)
Definition TypesParser_ProcessRecord (Code : TypeCode) (Values : list Z)
  : M TypesParser unit :=
  match Code with
  | TYPE_CODE_NUMENTRY =>
      ok ← isValidRecordSize 1 "count" Values ;
      if negb ok then ret tt else
      modifyContext (fun C =>
        setTypeIDValues
          (resize (Z.to_nat (to_uint32 (at_ Values 0)))
                  (mkExtendedType Undefined (mkFuncSigType IceType_void []))
                  (TypeIDValues C)) C)
  | TYPE_CODE_VOID =>
      ok ← isValidRecordSize 0 "void" Values ;
      if negb ok then ret tt else setNextTypeIDAsSimpleType IceType_void
  | TYPE_CODE_FLOAT =>
      ok ← isValidRecordSize 0 "float" Values ;
      if negb ok then ret tt else setNextTypeIDAsSimpleType IceType_f32
  | TYPE_CODE_DOUBLE =>
      ok ← isValidRecordSize 0 "double" Values ;
      if negb ok then ret tt else setNextTypeIDAsSimpleType IceType_f64
  | TYPE_CODE_INTEGER =>
      ok ← isValidRecordSize 1 "integer" Values ;
      if negb ok then ret tt else
      match at_ Values 0 with
      | 1 => setNextTypeIDAsSimpleType IceType_i1
      | 8 => setNextTypeIDAsSimpleType IceType_i8
      | 16 => setNextTypeIDAsSimpleType IceType_i16
      | 32 => setNextTypeIDAsSimpleType IceType_i32
      | 64 => setNextTypeIDAsSimpleType IceType_i64
      | _ => Error [Str "Type integer record with invalid bitsize: ";
                    Num (at_ Values 0)]
      end
  | TYPE_CODE_VECTOR =>
      ok ← isValidRecordSize 2 "vector" Values ;
      if negb ok then ret tt else
      BaseTy ← getSimpleTypeByID (to_uint32 (at_ Values 1)) ;
      let Size := to_uint32 (at_ Values 0) in
      match BaseTy, Size with
      | IceType_i1, 4 => setNextTypeIDAsSimpleType IceType_v4i1
      | IceType_i1, 8 => setNextTypeIDAsSimpleType IceType_v8i1
      | IceType_i1, 16 => setNextTypeIDAsSimpleType IceType_v16i1
      | IceType_i8, 16 => setNextTypeIDAsSimpleType IceType_v16i8
      | IceType_i16, 8 => setNextTypeIDAsSimpleType IceType_v8i16
      | IceType_i32, 4 => setNextTypeIDAsSimpleType IceType_v4i32
      | IceType_f32, 4 => setNextTypeIDAsSimpleType IceType_v4f32
      | _, _ => Error [Str "Invalid type vector record: <";
                       Num (at_ Values 0); Str " x "; Ty BaseTy; Str ">"]
      end
  | TYPE_CODE_FUNCTION =>
      ok ← isValidRecordSizeAtLeast 2 "signature" Values ;
      if negb ok then ret tt else
      when (negb (at_ Values 0 =? 0))
           (Error [Str "Function type can't define varargs"]) ;;
      s ← get ;
      put (mkTypesParser (TypesContext s) (to_uint32 (NextTypeId s + 1))) ;;
      T ← getTypeByIDForDefining (NextTypeId s) ;
      updateType T setAsFunctionType ;;
      RetTy ← getSimpleTypeByID (to_uint32 (at_ Values 1)) ;
      updateType T (setReturnType RetTy) ;;
      TypesParser_appendArgTypes T 2 (drop 2 Values)
  | TYPE_CODE_other Code =>
      ProcessRecord_default Code Values
  end.

(** A block is a sequence of records; a handler that ends the process
    ends the block. *)
Fixpoint ProcessRecords {S R} (ProcessRecord : R -> M S unit)
    (Records : list R) : M S unit :=
  match Records with
  | [] => ret tt
  | Rec :: Records' =>
      ProcessRecord Rec ;; ProcessRecords ProcessRecord Records'
  end.

(** *** Declarations of the top-level parser *)

Section TopLevelDeclarations.

Context {S : Type} {BP : BlockParser S}.

Definition getNumGlobalIDs (C : TopLevelParser) : Z :=
  to_uint32 (Z.of_nat (length (FunctionDeclarationList C))
             + Z.of_nat (length (VariableDeclarations C))).

(** [CreateGlobalVariables]. *)
Definition CreateGlobalVariables (Count : Z) : M S unit :=
  modifyContext (fun C =>
    setVariableDeclarations
      (VariableDeclarations C
       ++ replicate (Z.to_nat Count) newVariableDeclaration) C).

(** [reportGetFunctionByIDError] and [getFunctionByID]: the declaration
    is returned by its position. *)
Definition reportGetFunctionByIDError (ID : Z) : M S nat :=
  C ← context ;
  Error [Str "Function index "; Num ID;
         Str " not allowed. Out of range. Must be less than ";
         Num (Z.of_nat (length (FunctionDeclarationList C)))] ;;
  if bool_decide (FunctionDeclarationList C = []) then report_fatal_error
  else ret 0%nat.

Definition getFunctionByID (ID : Z) : M S nat :=
  C ← context ;
  if ID <? Z.of_nat (length (FunctionDeclarationList C))
  then ret (Z.to_nat ID)
  else reportGetFunctionByIDError ID.

(** [reportGetGlobalVariableByIDError] and [getGlobalVariableByID]. *)
Definition reportGetGlobalVariableByIDError (Index : Z) : M S nat :=
  C ← context ;
  Error [Str "Global index "; Num Index;
         Str " not allowed. Out of range. Must be less than ";
         Num (Z.of_nat (length (VariableDeclarations C)))] ;;
  if bool_decide (VariableDeclarations C = []) then report_fatal_error
  else ret 0%nat.

Definition getGlobalVariableByID (Index : Z) : M S nat :=
  C ← context ;
  if Index <? Z.of_nat (length (VariableDeclarations C))
  then ret (Z.to_nat Index)
  else reportGetGlobalVariableByIDError Index.

(** [getGlobalDeclarationByID]. *)
Definition getGlobalDeclarationByID (Index : Z) : M S GlobalDeclarationRef :=
  C ← context ;
  if Index <? NumFunctionIds C
  then F ← getFunctionByID (to_uint32 Index) ; ret (FunctionRef F)
  else V ← getGlobalVariableByID (to_uint32 (Index - NumFunctionIds C)) ;
       ret (VariableRef V).

(** [getOrCreateGlobalConstantByID].  The store of the constant for an
    [ID] beyond the declarations falls outside the vector in the source;
    the model leaves the vector as it is there. *)
Definition getOrCreateGlobalConstantByID (ID : Z) : M S (option Operand) :=
  C0 ← context ;
  Cst ← (if Z.of_nat (length (ValueIDConstants C0)) <=? ID
         then
           let ExpectedSize := getNumGlobalIDs C0 in
           let ExpectedSize := if ExpectedSize <=? ID then ID
                               else ExpectedSize in
           modifyContext (fun C =>
             setValueIDConstants
               (resize (Z.to_nat ExpectedSize) None (ValueIDConstants C)) C) ;;
           ret None
         else ret (mjoin (ValueIDConstants C0 !! Z.to_nat ID))) ;
  match Cst with
  | Some Cst => ret (Some Cst)
  | None =>
      Disabled ← isIRGenerationDisabled ;
      if Disabled then
        modifyContext (fun C =>
          setValueIDConstants (<[Z.to_nat ID := None]> (ValueIDConstants C))
                              C) ;;
        ret None
      else
        C ← context ;
        let FcnIDSize := Z.of_nat (length (FunctionDeclarationList C)) in
        let Decl :=
          if ID <? FcnIDSize
          then (fun D => (FuncName D, FuncSuppressMangling D))
                 <$> FunctionDeclarationList C !! Z.to_nat ID
          else if to_uint32 (ID - FcnIDSize)
                  <? Z.of_nat (length (VariableDeclarations C))
          then (fun D => (VarName D, VarSuppressMangling D))
                 <$> VariableDeclarations C
                       !! Z.to_nat (to_uint32 (ID - FcnIDSize))
          else None in
        '(Name, SuppressMangling) ←
          match Decl with
          | Some D => ret D
          | None =>
              Error [Str "Reference to global not defined: "; Num ID] ;;
              ret ("??", false)
          end ;
        let Cst := ConstantRelocatable 0 Name SuppressMangling in
        modifyContext (fun C =>
          setValueIDConstants
            (<[Z.to_nat ID := Some Cst]> (ValueIDConstants C)) C) ;;
        ret (Some Cst)
  end.

(** [getNextFunctionBlockValueID]. *)
Definition getNextFunctionBlockValueID : M S Z :=
  C ← context ;
  if Z.of_nat (length (DefiningFunctionDeclarationsList C))
       <=? NumFunctionBlocks C
  then report_fatal_error
  else
    modifyContext (setNumFunctionBlocks (to_uint32 (NumFunctionBlocks C + 1))) ;;
    ret (DefiningFunctionDeclarationsList C
           !!! Z.to_nat (NumFunctionBlocks C)).

End TopLevelDeclarations.

(** *** The globals block *)

Inductive GlobalVarCode :=
  | GLOBALVAR_COUNT | GLOBALVAR_VAR | GLOBALVAR_COMPOUND
  | GLOBALVAR_ZEROFILL | GLOBALVAR_DATA | GLOBALVAR_RELOC
  | GLOBALVAR_other (Code : Z).

(** [GlobalsParser].  [CurGlobalVar] points to the dummy declaration
    ([None]) or to a declaration of the top-level parser, given by its
    position. *)
Record GlobalsParser := mkGlobalsParser {
  GlobalsContext : TopLevelParser;
  InitializersNeeded : Z;
  NextGlobalID : Z;
  DummyGlobalVar : VariableDeclaration;
  CurGlobalVar : option nat
}.

#[global] Instance GlobalsParser_BlockParser : BlockParser GlobalsParser := {|
  getContext := GlobalsContext;
  setContext C s :=
    mkGlobalsParser C (InitializersNeeded s) (NextGlobalID s)
                    (DummyGlobalVar s) (CurGlobalVar s);
  getBlockName := "globals"
|}.

Definition newGlobalsParser (C : TopLevelParser) : GlobalsParser :=
  mkGlobalsParser C 0 0 newVariableDeclaration None.

Definition setInitializersNeeded (N : Z) (s : GlobalsParser) : GlobalsParser :=
  mkGlobalsParser (GlobalsContext s) N (NextGlobalID s) (DummyGlobalVar s)
                  (CurGlobalVar s).

Definition setNextGlobalID (N : Z) (s : GlobalsParser) : GlobalsParser :=
  mkGlobalsParser (GlobalsContext s) (InitializersNeeded s) N
                  (DummyGlobalVar s) (CurGlobalVar s).

Definition setCurGlobalVar (V : option nat) (s : GlobalsParser)
  : GlobalsParser :=
  mkGlobalsParser (GlobalsContext s) (InitializersNeeded s) (NextGlobalID s)
                  (DummyGlobalVar s) V.

(** The declaration that [CurGlobalVar] points to. *)
Definition curGlobalVar (s : GlobalsParser) : VariableDeclaration :=
  match CurGlobalVar s with
  | None => DummyGlobalVar s
  | Some V => default newVariableDeclaration
                      (VariableDeclarations (GlobalsContext s) !! V)
  end.

(** An update of the declaration that [CurGlobalVar] points to. *)
Definition updateCurGlobalVar (f : VariableDeclaration -> VariableDeclaration)
  : M GlobalsParser unit :=
  modify (fun s =>
    match CurGlobalVar s with
    | None =>
        mkGlobalsParser (GlobalsContext s) (InitializersNeeded s)
                        (NextGlobalID s) (f (DummyGlobalVar s)) None
    | Some V =>
        setContext
          (setVariableDeclarations
             (alter f V (VariableDeclarations (GlobalsContext s)))
             (GlobalsContext s)) s
    end).

Definition setAlignment (A : Z) (D : VariableDeclaration)
  : VariableDeclaration :=
  mkVariableDeclaration (VarName D) (VarSuppressMangling D) A (IsConstant D)
                        (Initializers D).

Definition setIsConstant (b : bool) (D : VariableDeclaration)
  : VariableDeclaration :=
  mkVariableDeclaration (VarName D) (VarSuppressMangling D) (Alignment D) b
                        (Initializers D).

Definition addInitializer (Init : Initializer) (D : VariableDeclaration)
  : VariableDeclaration :=
  mkVariableDeclaration (VarName D) (VarSuppressMangling D) (Alignment D)
                        (IsConstant D) (Initializers D ++ [Init]).

(** [verifyNoMissingInitializers]. *)
Definition verifyNoMissingInitializers : M GlobalsParser unit :=
  s ← get ;
  let NumInits := Z.of_nat (length (Initializers (curGlobalVar s))) in
  if InitializersNeeded s =? NumInits then ret tt
  else
    Error ([Str "Global variable @g"; Num (NextGlobalID s); Str " expected ";
            Num (InitializersNeeded s); Str " initializer"]
           ++ (if 1 <? InitializersNeeded s then [Str "s"] else [])
           ++ [Str ". Found: "; Num NumInits]) ;;
    modify (setInitializersNeeded (to_uint32 NumInits)).

(** [GlobalsParser::ProcessRecord]. *)
Definition GlobalsParser_ProcessRecord (Code : GlobalVarCode)
    (Values : list Z) : M GlobalsParser unit :=
  match Code with
  | GLOBALVAR_COUNT =>
      ok ← isValidRecordSize 1 "count" Values ;
      if negb ok then ret tt else
      s ← get ;
      if negb (NextGlobalID s
               =? to_uint32 (Z.of_nat (length (VariableDeclarations
                                                 (GlobalsContext s)))))
      then Error [Str "Globals count record not first in block."]
      else CreateGlobalVariables (at_ Values 0)
  | GLOBALVAR_VAR =>
      ok ← isValidRecordSize 2 "variable" Values ;
      if negb ok then ret tt else
      verifyNoMissingInitializers ;;
      Disabled ← isIRGenerationDisabled ;
      (if Disabled then ret tt else
         modify (setInitializersNeeded 1) ;;
         s ← get ;
         V ← getGlobalVariableByID (NextGlobalID s) ;
         modify (setCurGlobalVar (Some V)) ;;
         updateCurGlobalVar
           (setAlignment
              (to_uint32 (int32_shr (int32_shl 1 (at_ Values 0)) 1))) ;;
         updateCurGlobalVar (setIsConstant (negb (at_ Values 1 =? 0)))) ;;
      modify (fun s => setNextGlobalID (to_uint32 (NextGlobalID s + 1)) s)
  | GLOBALVAR_COMPOUND =>
      ok ← isValidRecordSize 1 "compound" Values ;
      if negb ok then ret tt else
      s ← get ;
      if negb (bool_decide (Initializers (curGlobalVar s) = []))
      then Error [Str "Globals compound record not first initializer"]
      else if at_ Values 0 <? 2
      then Error [Str "globals";
                  Str " compound record size invalid. Found: ";
                  Num (at_ Values 0)]
      else
        Disabled ← isIRGenerationDisabled ;
        if Disabled then ret tt
        else modify (setInitializersNeeded (to_uint32 (at_ Values 0)))
  | GLOBALVAR_ZEROFILL =>
      ok ← isValidRecordSize 1 "zerofill" Values ;
      if negb ok then ret tt else
      Disabled ← isIRGenerationDisabled ;
      if Disabled then ret tt
      else updateCurGlobalVar (addInitializer (ZeroInitializer (at_ Values 0)))
  | GLOBALVAR_DATA =>
      ok ← isValidRecordSizeAtLeast 1 "data" Values ;
      if negb ok then ret tt else
      Disabled ← isIRGenerationDisabled ;
      if Disabled then ret tt
      else updateCurGlobalVar (addInitializer (DataInitializer Values))
  | GLOBALVAR_RELOC =>
      ok ← isValidRecordSizeInRange 1 2 "reloc" Values ;
      if negb ok then ret tt else
      Disabled ← isIRGenerationDisabled ;
      if Disabled then ret tt else
      let Index := to_uint32 (at_ Values 0) in
      let Offset := if Z.of_nat (length Values) =? 2
                    then to_uint32 (at_ Values 1) else 0 in
      D ← getGlobalDeclarationByID Index ;
      updateCurGlobalVar (addInitializer (RelocInitializer D Offset))
  | GLOBALVAR_other Code =>
      ProcessRecord_default Code Values
  end.

(** [GlobalsParser::ExitBlock]. *)
Definition GlobalsParser_ExitBlock : M GlobalsParser unit :=
  verifyNoMissingInitializers ;;
  s ← get ;
  let NumIDs := to_uint32 (Z.of_nat (length (VariableDeclarations
                                               (GlobalsContext s)))) in
  when (NextGlobalID s <? NumIDs)
       (Error [Str "globals"; Str " block expects "; Num NumIDs;
               Str " global variable declarations. Found: ";
               Num (NextGlobalID s)]).

(** *** Enumerations of the bitcode format *)

Module naclbitc.

(** The binary, cast and comparison opcodes that a record carries as a
    value, with the numbers that the bitcode format gives them
    (NaClLLVMBitCodes.h, outside of the repository). *)
Inductive BinaryOpcodes :=
  | BINOP_ADD | BINOP_SUB | BINOP_MUL | BINOP_UDIV | BINOP_SDIV
  | BINOP_UREM | BINOP_SREM | BINOP_SHL | BINOP_LSHR | BINOP_ASHR
  | BINOP_AND | BINOP_OR | BINOP_XOR.

Definition BinaryOpcodes_of (Opcode : Z) : option BinaryOpcodes :=
  match Opcode with
  | 0 => Some BINOP_ADD | 1 => Some BINOP_SUB | 2 => Some BINOP_MUL
  | 3 => Some BINOP_UDIV | 4 => Some BINOP_SDIV | 5 => Some BINOP_UREM
  | 6 => Some BINOP_SREM | 7 => Some BINOP_SHL | 8 => Some BINOP_LSHR
  | 9 => Some BINOP_ASHR | 10 => Some BINOP_AND | 11 => Some BINOP_OR
  | 12 => Some BINOP_XOR | _ => None
  end.

Inductive CastOpcodes :=
  | CAST_TRUNC | CAST_ZEXT | CAST_SEXT | CAST_FPTOUI | CAST_FPTOSI
  | CAST_UITOFP | CAST_SITOFP | CAST_FPTRUNC | CAST_FPEXT | CAST_BITCAST.

Definition CastOpcodes_of (Opcode : Z) : option CastOpcodes :=
  match Opcode with
  | 0 => Some CAST_TRUNC | 1 => Some CAST_ZEXT | 2 => Some CAST_SEXT
  | 3 => Some CAST_FPTOUI | 4 => Some CAST_FPTOSI | 5 => Some CAST_UITOFP
  | 6 => Some CAST_SITOFP | 7 => Some CAST_FPTRUNC | 8 => Some CAST_FPEXT
  | 11 => Some CAST_BITCAST | _ => None
  end.

Definition ICmpOpcode_of (Op : Z) : option InstIcmp.ICond :=
  match Op with
  | 32 => Some InstIcmp.Eq | 33 => Some InstIcmp.Ne
  | 34 => Some InstIcmp.Ugt | 35 => Some InstIcmp.Uge
  | 36 => Some InstIcmp.Ult | 37 => Some InstIcmp.Ule
  | 38 => Some InstIcmp.Sgt | 39 => Some InstIcmp.Sge
  | 40 => Some InstIcmp.Slt | 41 => Some InstIcmp.Sle
  | _ => None
  end.

Definition FCmpOpcode_of (Op : Z) : option InstFcmp.FCond :=
  match Op with
  | 0 => Some InstFcmp.False | 1 => Some InstFcmp.Oeq
  | 2 => Some InstFcmp.Ogt | 3 => Some InstFcmp.Oge
  | 4 => Some InstFcmp.Olt | 5 => Some InstFcmp.Ole
  | 6 => Some InstFcmp.One | 7 => Some InstFcmp.Ord
  | 8 => Some InstFcmp.Uno | 9 => Some InstFcmp.Ueq
  | 10 => Some InstFcmp.Ugt | 11 => Some InstFcmp.Uge
  | 12 => Some InstFcmp.Ult | 13 => Some InstFcmp.Ule
  | 14 => Some InstFcmp.Une | 15 => Some InstFcmp.True
  | _ => None
  end.

(** Modelled from the spec: the sign-rotated decoder of the bitstream
    reader, [decode(v) = (v & 1) ? -(v >> 1) : (v >> 1)], on 64-bit
    unsigned values. *)
Definition NaClDecodeSignRotatedValue (V : Z) : Z :=
  if Z.odd V then to_uint64 (- Z.shiftr V 1) else Z.shiftr V 1.

End naclbitc.

(** *** The function block *)

(** The codes of the records of a function block. *)
Inductive FunctionCode :=
  | FUNC_CODE_DECLAREBLOCKS | FUNC_CODE_INST_BINOP | FUNC_CODE_INST_CAST
  | FUNC_CODE_INST_VSELECT | FUNC_CODE_INST_EXTRACTELT
  | FUNC_CODE_INST_INSERTELT | FUNC_CODE_INST_CMP2 | FUNC_CODE_INST_RET
  | FUNC_CODE_INST_BR | FUNC_CODE_INST_SWITCH | FUNC_CODE_INST_UNREACHABLE
  | FUNC_CODE_INST_PHI | FUNC_CODE_INST_ALLOCA | FUNC_CODE_INST_LOAD
  | FUNC_CODE_INST_STORE | FUNC_CODE_INST_CALL
  | FUNC_CODE_INST_CALL_INDIRECT | FUNC_CODE_INST_FORWARDTYPEREF
  | FUNC_CODE_other (Code : Z).

#[global] Instance FunctionCode_eq_dec : EqDecision FunctionCode.
Proof. solve_decision. Defined.

(** [Ice::Intrinsics::FullIntrinsicInfo]: the identity of the intrinsic
    and its signature, the return type first. *)
Record FullIntrinsicInfo := mkFullIntrinsicInfo {
  Info : Z;
  IntrinsicSignature : list IceType
}.

(** What the function parser takes from files that are not among the
    sources, and that the spec leaves open: three columns of the table of
    types, the decoder of calling conventions of the bitcode reader, and
    the registry of intrinsics. *)
Class Collaborators := {
  typeAlignInBytes : IceType -> Z;
  isLoadStoreType : IceType -> bool;
  isIntegerArithmeticType : IceType -> bool;
  DecodeCallingConv : Z -> option Z;
  findIntrinsic : string -> option FullIntrinsicInfo
}.

(** [FunctionParser].  [OperandLookups] is a history variable: the
    arguments of the calls of [getOperand], in order; nothing reads it. *)
Record FunctionParser := mkFunctionParser {
  Context : TopLevelParser;
  Func : Cfg;
  CurrentBbIndex : Z;
  CurrentNode : nat;
  FcnId : Z;
  FuncDecl : FunctionDeclaration;
  CachedNumGlobalValueIDs : Z;
  LocalOperands : list (option Operand);
  NextLocalInstIndex : Z;
  InstIsTerminating : bool;
  OperandLookups : list Z
}.

Definition setFunctionContext (C : TopLevelParser) (s : FunctionParser)
  : FunctionParser :=
  mkFunctionParser C (Func s) (CurrentBbIndex s) (CurrentNode s) (FcnId s)
    (FuncDecl s) (CachedNumGlobalValueIDs s) (LocalOperands s)
    (NextLocalInstIndex s) (InstIsTerminating s) (OperandLookups s).

#[global] Instance FunctionParser_BlockParser : BlockParser FunctionParser := {|
  getContext := Context;
  setContext := setFunctionContext;
  getBlockName := "function"
|}.

Definition setFunc (F : Cfg) (s : FunctionParser) : FunctionParser :=
  mkFunctionParser (Context s) F (CurrentBbIndex s) (CurrentNode s) (FcnId s)
    (FuncDecl s) (CachedNumGlobalValueIDs s) (LocalOperands s)
    (NextLocalInstIndex s) (InstIsTerminating s) (OperandLookups s).

Definition setCurrentBbIndex (I : Z) (s : FunctionParser) : FunctionParser :=
  mkFunctionParser (Context s) (Func s) I (CurrentNode s) (FcnId s)
    (FuncDecl s) (CachedNumGlobalValueIDs s) (LocalOperands s)
    (NextLocalInstIndex s) (InstIsTerminating s) (OperandLookups s).

Definition setCurrentNode (N : nat) (s : FunctionParser) : FunctionParser :=
  mkFunctionParser (Context s) (Func s) (CurrentBbIndex s) N (FcnId s)
    (FuncDecl s) (CachedNumGlobalValueIDs s) (LocalOperands s)
    (NextLocalInstIndex s) (InstIsTerminating s) (OperandLookups s).

Definition setLocalOperands (L : list (option Operand)) (s : FunctionParser)
  : FunctionParser :=
  mkFunctionParser (Context s) (Func s) (CurrentBbIndex s) (CurrentNode s)
    (FcnId s) (FuncDecl s) (CachedNumGlobalValueIDs s) L
    (NextLocalInstIndex s) (InstIsTerminating s) (OperandLookups s).

Definition setNextLocalInstIndexField (I : Z) (s : FunctionParser)
  : FunctionParser :=
  mkFunctionParser (Context s) (Func s) (CurrentBbIndex s) (CurrentNode s)
    (FcnId s) (FuncDecl s) (CachedNumGlobalValueIDs s) (LocalOperands s)
    I (InstIsTerminating s) (OperandLookups s).

Definition setInstIsTerminating (b : bool) (s : FunctionParser)
  : FunctionParser :=
  mkFunctionParser (Context s) (Func s) (CurrentBbIndex s) (CurrentNode s)
    (FcnId s) (FuncDecl s) (CachedNumGlobalValueIDs s) (LocalOperands s)
    (NextLocalInstIndex s) b (OperandLookups s).

Definition logOperandLookup (Index : Z) (s : FunctionParser)
  : FunctionParser :=
  mkFunctionParser (Context s) (Func s) (CurrentBbIndex s) (CurrentNode s)
    (FcnId s) (FuncDecl s) (CachedNumGlobalValueIDs s) (LocalOperands s)
    (NextLocalInstIndex s) (InstIsTerminating s) (OperandLookups s ++ [Index]).

Section FunctionParser.

Context {Collab : Collaborators}.

Local Abbreviation FP := (M FunctionParser).

(** The dereference of a pointer: a null pointer ends the process. *)
Definition deref {A} (p : option A) : FP A :=
  match p with
  | Some a => ret a
  | None => report_fatal_error
  end.

(** [Func] and [CurrentNode] are null pointers exactly when IR generation
    is disabled: a use of one of them then ends the process. *)
Definition useFunc : FP unit :=
  Disabled ← isIRGenerationDisabled ;
  if Disabled then report_fatal_error else ret tt.

(** [CurrentNode->appendInst]. *)
Definition appendToCurrentNode (Instr : Inst) : FP unit :=
  useFunc ;;
  modify (fun s =>
    setFunc (setNodes (alter (appendInst Instr) (CurrentNode s)
                             (Nodes (Func s))) (Func s)) s).

(** [AlignPowerLimit]. *)
Definition AlignPowerLimit : Z := 29.

(** [extractAlignment]: the alignment that the out-parameter receives. *)
Definition extractAlignment (InstName : string) (AlignPower : Z) : FP Z :=
  if AlignPower <=? AlignPowerLimit
  then ret (to_uint32 (int32_shr (int32_shl 1 AlignPower) 1))
  else
    Error [Str InstName; Str " alignment greater than 2**";
           Num AlignPowerLimit; Str ". Found: 2**"; Num AlignPower] ;;
    ret 1.

(** [setOperand]. *)
Definition setOperand (Index : Z) (Op : option Operand) : FP unit :=
  s ← get ;
  let LocalIndex := to_uint32 (Index - CachedNumGlobalValueIDs s) in
  if LocalIndex =? Z.of_nat (length (LocalOperands s))
  then modify (setLocalOperands (LocalOperands s ++ [Op]))
  else
    let Resized :=
      if Z.of_nat (length (LocalOperands s)) <=? LocalIndex
      then resize (Z.to_nat (to_uint32 (LocalIndex + 1))) None
                  (LocalOperands s)
      else LocalOperands s in
    modify (setLocalOperands Resized) ;;
    match mjoin (Resized !! Z.to_nat LocalIndex) with
    | None =>
        modify (setLocalOperands (<[Z.to_nat LocalIndex := Op]> Resized))
    | Some OldOp =>
        if bool_decide (Some OldOp = Op) then ret tt
        else
          Error [Str "Multiple definitions for index "; Num Index; Str ": ";
                 match Op with Some X => DumpOp X | None => Str "" end;
                 Str " and "; DumpOp OldOp] ;;
          modify (fun s =>
            setLocalOperands (<[Z.to_nat LocalIndex := Op]> (LocalOperands s))
                             s)
    end.

(** [setNextLocalInstIndex] and [setNextConstantID]. *)
Definition setNextLocalInstIndex (Op : option Operand) : FP unit :=
  s ← get ;
  modify (setNextLocalInstIndexField (to_uint32 (NextLocalInstIndex s + 1))) ;;
  setOperand (NextLocalInstIndex s) Op.

Definition setNextConstantID (C : option Operand) : FP unit :=
  setNextLocalInstIndex C.

(** [getOperand]. *)
Definition getOperand (Index : Z) : FP (option Operand) :=
  modify (logOperandLookup Index) ;;
  s ← get ;
  if Index <? CachedNumGlobalValueIDs s
  then getOrCreateGlobalConstantByID Index
  else
    let LocalIndex := to_uint32 (Index - CachedNumGlobalValueIDs s) in
    if Z.of_nat (length (LocalOperands s)) <=? LocalIndex
    then
      Error [Str "Value index "; Num Index; Str " not defined!"] ;;
      report_fatal_error
    else
      match mjoin (LocalOperands s !! Z.to_nat LocalIndex) with
      | Some Op => ret (Some Op)
      | None =>
          Disabled ← isIRGenerationDisabled ;
          if Disabled then ret None
          else
            Error [Str "Value index "; Num Index; Str " not defined!"] ;;
            report_fatal_error
      end.

(** [InstallNextBasicBlock]. *)
Definition InstallNextBasicBlock : FP nat :=
  useFunc ;;
  s ← get ;
  let '(Node, F) := makeNode (Func s) in
  modify (setFunc F) ;;
  ret Node.

(** [getBasicBlock]. *)
Definition getBasicBlock (Index : Z) : FP nat :=
  useFunc ;;
  s ← get ;
  if Z.of_nat (length (Nodes (Func s))) <=? Index
  then
    Error [Str "Reference to basic block "; Num Index;
           Str " not found. Must be less than ";
           Num (Z.of_nat (length (Nodes (Func s))))] ;;
    ret 0%nat
  else ret (Z.to_nat Index).

(** [getBranchBasicBlock]. *)
Definition getBranchBasicBlock (Index : Z) : FP nat :=
  when (Index =? 0) (Error [Str "Branch to entry block not allowed"]) ;;
  getBasicBlock Index.

(** [createInstVar]. *)
Definition createInstVar (Ty : IceType) : FP Operand :=
  Ty ← (if decide (Ty = IceType_void)
        then Error [Str "Can't define instruction value using type void"] ;;
             ret IceType_i32
        else ret Ty) ;
  useFunc ;;
  s ← get ;
  let '(Var, F) := makeVariable Ty (Func s) in
  modify (setFunc F) ;;
  ret Var.

(** [getNextInstVar]. *)
Definition getNextInstVar (Ty : IceType) : FP Operand :=
  s ← get ;
  let LocalIndex :=
    to_uint32 (NextLocalInstIndex s - CachedNumGlobalValueIDs s) in
  let Forward :=
    if LocalIndex <? Z.of_nat (length (LocalOperands s))
    then mjoin (LocalOperands s !! Z.to_nat LocalIndex) else None in
  match Forward with
  | Some Op =>
      match Op with
      | IceVariable _ VarTy =>
          if decide (VarTy = Ty)
          then
            modify (setNextLocalInstIndexField
                      (to_uint32 (NextLocalInstIndex s + 1))) ;;
            ret Op
          else
            Error [Str "Illegal forward referenced instruction (";
                   Num (NextLocalInstIndex s); Str "): "; DumpOp Op] ;;
            modify (setNextLocalInstIndexField
                      (to_uint32 (NextLocalInstIndex s + 1))) ;;
            createInstVar Ty
      | _ =>
          Error [Str "Illegal forward referenced instruction (";
                 Num (NextLocalInstIndex s); Str "): "; DumpOp Op] ;;
          modify (setNextLocalInstIndexField
                    (to_uint32 (NextLocalInstIndex s + 1))) ;;
          createInstVar Ty
      end
  | None =>
      Var ← createInstVar Ty ;
      s ← get ;
      modify (setNextLocalInstIndexField
                (to_uint32 (NextLocalInstIndex s + 1))) ;;
      setOperand (NextLocalInstIndex s) (Some Var) ;;
      ret Var
  end.

(** [convertRelativeToAbsIndex], on two [int32_t] arguments; the result is
    a [uint32_t]. *)
Definition convertRelativeToAbsIndex (Id BaseIndex : Z) : FP Z :=
  if BaseIndex <? Id
  then
    Error [Str "Invalid relative value id: "; Num Id; Str " (must be <= ";
           Num BaseIndex; Str ")"] ;;
    ret 0
  else ret (to_uint32 (BaseIndex - Id)).

(** [getRelativeOperand]. *)
Definition getRelativeOperand (Index BaseIndex : Z) : FP (option Operand) :=
  AbsIndex ← convertRelativeToAbsIndex Index BaseIndex ;
  getOperand AbsIndex.

(** [appendErrorInstruction]. *)
Definition appendErrorInstruction (Ty : IceType) : FP unit :=
  if decide (Ty = IceType_void) then ret tt
  else
    Var ← getNextInstVar Ty ;
    appendToCurrentNode (InstAssign Var Var).

(** [ReportInvalidBinaryOp] and the three checks of binary operators. *)
Definition ReportInvalidBinaryOp (Op : InstArithmetic.OpKind) (OpTy : IceType)
  : FP unit :=
  Error [Str "Invalid operator type for "; ArithName Op; Str ". Found ";
         Ty OpTy].

Definition isValidIntegerLogicalOp (Op : InstArithmetic.OpKind)
    (OpTy : IceType) : FP bool :=
  if isIntegerType OpTy then ret true
  else ReportInvalidBinaryOp Op OpTy ;; ret false.

Definition isValidIntegerArithOp (Op : InstArithmetic.OpKind)
    (OpTy : IceType) : FP bool :=
  if isIntegerArithmeticType OpTy then ret true
  else ReportInvalidBinaryOp Op OpTy ;; ret false.

Definition isValidFloatingArithOp (Op : InstArithmetic.OpKind)
    (OpTy : IceType) : FP bool :=
  if isFloatingType OpTy then ret true
  else ReportInvalidBinaryOp Op OpTy ;; ret false.

(** [isValidPointerType]. *)
Definition isValidPointerType (Op : Operand) (InstructionName : string)
  : FP bool :=
  if decide (getType Op = getPointerType) then ret true
  else
    Error [Str InstructionName; Str " address not "; Ty getPointerType;
           Str ". Found: "; DumpOp Op] ;;
    ret false.

(** [isValidLoadStoreType]. *)
Definition isValidLoadStoreType (T : IceType) (InstructionName : string)
  : FP bool :=
  if isLoadStoreType T then ret true
  else
    Error [Str InstructionName; Str " type not allowed: "; Ty T; Str "*"] ;;
    ret false.

(** [isAllowedAlignment]. *)
Definition isAllowedAlignment (Alignment : Z) (T : IceType) : bool :=
  (Alignment =? typeAlignInBytes T)
  || ((Alignment =? 1) && negb (isVectorType T)).

(** [isValidLoadStoreAlignment]. *)
Definition isValidLoadStoreAlignment (Alignment : Z) (T : IceType)
    (InstructionName : string) : FP bool :=
  ok ← isValidLoadStoreType T InstructionName ;
  if negb ok then ret false
  else if isAllowedAlignment Alignment T then ret true
  else
    Error [Str InstructionName; Str " "; Ty T;
           Str "*: not allowed for alignment "; Num Alignment] ;;
    ret false.

(** [VectorIndexCheckValue], [dumpVectorIndexCheckValue] and
    [validateVectorIndex]. *)
Inductive VectorIndexCheckValue :=
  | VectorIndexNotVector | VectorIndexNotConstant | VectorIndexNotInRange
  | VectorIndexNotI32 | VectorIndexValid.

#[global] Instance VectorIndexCheckValue_eq_dec
  : EqDecision VectorIndexCheckValue.
Proof. solve_decision. Defined.

Definition dumpVectorIndexCheckValue (Value : VectorIndexCheckValue)
  : Message :=
  match Value with
  | VectorIndexNotVector => [Str "Vector index on non vector"]
  | VectorIndexNotConstant => [Str "Vector index not integer constant"]
  | VectorIndexNotInRange => [Str "Vector index not in range of vector"]
  | VectorIndexNotI32 => [Str "Vector index not of type "; Ty IceType_i32]
  | VectorIndexValid => [Str "Valid vector index"]
  end.

Definition validateVectorIndex (Vec Index : Operand) : VectorIndexCheckValue :=
  let VecType := getType Vec in
  if negb (isVectorType VecType) then VectorIndexNotVector
  else match Index with
       | ConstantInteger32 _ Value =>
           if typeNumElements VecType <=? to_uint64 Value
           then VectorIndexNotInRange
           else if decide (getType Index = IceType_i32) then VectorIndexValid
           else VectorIndexNotI32
       | _ => VectorIndexNotConstant
       end.

(** [isStringPrefix]. *)
Definition isStringPrefix (Str_ Prefix : string) : bool :=
  String.prefix Prefix Str_.

(** [convertBinopOpcode]: the flag and the opcode that the out-parameter
    receives. *)
Definition convertBinopOpcode (Opcode : Z) (T : IceType)
  : FP (bool * InstArithmetic.OpKind) :=
  let intOrFloat (IntOp FloatOp : InstArithmetic.OpKind) :=
    if isIntegerType T
    then ok ← isValidIntegerArithOp IntOp T ; ret (ok, IntOp)
    else ok ← isValidFloatingArithOp FloatOp T ; ret (ok, FloatOp) in
  let intArith (Op : InstArithmetic.OpKind) :=
    ok ← isValidIntegerArithOp Op T ; ret (ok, Op) in
  let intLogical (Op : InstArithmetic.OpKind) :=
    ok ← isValidIntegerLogicalOp Op T ; ret (ok, Op) in
  match naclbitc.BinaryOpcodes_of Opcode with
  | None =>
      Error [Str "Binary opcode "; Num Opcode; Str "not understood for type ";
             Ty T] ;;
      ret (false, InstArithmetic.Add)
  | Some naclbitc.BINOP_ADD => intOrFloat InstArithmetic.Add InstArithmetic.Fadd
  | Some naclbitc.BINOP_SUB => intOrFloat InstArithmetic.Sub InstArithmetic.Fsub
  | Some naclbitc.BINOP_MUL => intOrFloat InstArithmetic.Mul InstArithmetic.Fmul
  | Some naclbitc.BINOP_UDIV => intArith InstArithmetic.Udiv
  | Some naclbitc.BINOP_SDIV =>
      intOrFloat InstArithmetic.Sdiv InstArithmetic.Fdiv
  | Some naclbitc.BINOP_UREM => intArith InstArithmetic.Urem
  | Some naclbitc.BINOP_SREM =>
      intOrFloat InstArithmetic.Srem InstArithmetic.Frem
  | Some naclbitc.BINOP_SHL => intArith InstArithmetic.Shl
  | Some naclbitc.BINOP_LSHR => intArith InstArithmetic.Lshr
  | Some naclbitc.BINOP_ASHR => intArith InstArithmetic.Ashr
  | Some naclbitc.BINOP_AND => intLogical InstArithmetic.And
  | Some naclbitc.BINOP_OR => intLogical InstArithmetic.Or
  | Some naclbitc.BINOP_XOR => intLogical InstArithmetic.Xor
  end.

(** [simplifyOutCommonVectorType]: the flag, and the two types after the
    call. *)
Definition simplifyOutCommonVectorType (Type1 Type2 : IceType)
  : bool * IceType * IceType :=
  let IsType1Vector := isVectorType Type1 in
  let IsType2Vector := isVectorType Type2 in
  if negb (eqb IsType1Vector IsType2Vector) then (false, Type1, Type2)
  else if negb IsType1Vector then (true, Type1, Type2)
  else if negb (typeNumElements Type1 =? typeNumElements Type2)
  then (false, Type1, Type2)
  else (true, typeElementType Type1, typeElementType Type2).

Definition isIntTruncCastValid (SourceType TargetType : IceType) : bool :=
  isIntegerType SourceType && isIntegerType TargetType
  && (let '(ok, SourceType, TargetType) :=
        simplifyOutCommonVectorType SourceType TargetType in
      ok && (getScalarIntBitWidth TargetType
             <? getScalarIntBitWidth SourceType)).

Definition isFloatTruncCastValid (SourceType TargetType : IceType) : bool :=
  let '(ok, SourceType, TargetType) :=
    simplifyOutCommonVectorType SourceType TargetType in
  ok && bool_decide (SourceType = IceType_f64)
  && bool_decide (TargetType = IceType_f32).

Definition isIntExtCastValid (SourceType TargetType : IceType) : bool :=
  isIntTruncCastValid TargetType SourceType.

Definition isFloatExtCastValid (SourceType TargetType : IceType) : bool :=
  isFloatTruncCastValid TargetType SourceType.

Definition isFloatToIntCastValid (SourceType TargetType : IceType) : bool :=
  if negb (isFloatingType SourceType && isIntegerType TargetType) then false
  else
    let IsSourceVector := isVectorType SourceType in
    let IsTargetVector := isVectorType TargetType in
    if negb (eqb IsSourceVector IsTargetVector) then false
    else if IsSourceVector
    then typeNumElements SourceType =? typeNumElements TargetType
    else true.

Definition isIntToFloatCastValid (SourceType TargetType : IceType) : bool :=
  isFloatToIntCastValid TargetType SourceType.

(** [bitcastSizeInBits]; the recursive call is on the element type of a
    vector, which is a scalar. *)
Definition bitcastSizeInBits (T : IceType) : Z :=
  let scalar (T : IceType) :=
    if decide (T = IceType_i1) then 1 else typeWidthInBytes T * 8 in
  if isVectorType T
  then to_uint32 (typeNumElements T * scalar (typeElementType T))
  else to_uint32 (scalar T).

Definition isBitcastValid (SourceType TargetType : IceType) : bool :=
  bitcastSizeInBits SourceType =? bitcastSizeInBits TargetType.

(** [convertCastOpToIceOp]: the flag and the cast kind that the
    out-parameter receives. *)
Definition convertCastOpToIceOp (Opcode : Z) (SourceType TargetType : IceType)
  : FP (bool * InstCast.OpKind) :=
  match naclbitc.CastOpcodes_of Opcode with
  | None =>
      Error [Str "Cast opcode "; Num Opcode; Str " not understood.
"] ;;
      ret (false, InstCast.Bitcast)
  | Some Opc =>
      let '(CastKind, Result) :=
        match Opc with
        | naclbitc.CAST_TRUNC =>
            (InstCast.Trunc, isIntTruncCastValid SourceType TargetType)
        | naclbitc.CAST_ZEXT =>
            (InstCast.Zext, isIntExtCastValid SourceType TargetType)
        | naclbitc.CAST_SEXT =>
            (InstCast.Sext, isIntExtCastValid SourceType TargetType)
        | naclbitc.CAST_FPTOUI =>
            (InstCast.Fptoui, isFloatToIntCastValid SourceType TargetType)
        | naclbitc.CAST_FPTOSI =>
            (InstCast.Fptosi, isFloatToIntCastValid SourceType TargetType)
        | naclbitc.CAST_UITOFP =>
            (InstCast.Uitofp, isIntToFloatCastValid SourceType TargetType)
        | naclbitc.CAST_SITOFP =>
            (InstCast.Sitofp, isIntToFloatCastValid SourceType TargetType)
        | naclbitc.CAST_FPTRUNC =>
            (InstCast.Fptrunc, isFloatTruncCastValid SourceType TargetType)
        | naclbitc.CAST_FPEXT =>
            (InstCast.Fpext, isFloatExtCastValid SourceType TargetType)
        | naclbitc.CAST_BITCAST =>
            (InstCast.Bitcast, isBitcastValid SourceType TargetType)
        end in
      when (negb Result)
           (Error [Str "Illegal cast: "; CastName CastKind; Str " ";
                   Ty SourceType; Str " to "; Ty TargetType]) ;;
      ret (Result, CastKind)
  end.

(** [convertNaClBitcICmpOpToIce] and [convertNaClBitcFCompOpToIce]: an
    unknown predicate leaves the first condition of the enumeration. *)
Definition convertNaClBitcICmpOpToIce (Op : Z) : bool * InstIcmp.ICond :=
  match naclbitc.ICmpOpcode_of Op with
  | Some Cond => (true, Cond)
  | None => (false, InstIcmp.Eq)
  end.

Definition convertNaClBitcFCompOpToIce (Op : Z) : bool * InstFcmp.FCond :=
  match naclbitc.FCmpOpcode_of Op with
  | Some Cond => (true, Cond)
  | None => (false, InstFcmp.False)
  end.

(** Modelled from the spec: [FullIntrinsicInfo::validateCall] is defined
    in IceIntrinsics.cpp, which is not among the sources; "intrinsic call
    validation checks (in order): return type, argument count, argument
    types".  The result names the check that failed, with the index of
    the argument for the last one. *)
Inductive ValidateCallValue :=
  | IsValidCall | BadReturnType | WrongNumOfArgs
  | WrongCallArgType (ArgIndex : Z).

Fixpoint validateCallArgs (ArgIndex : Z) (Args : list Operand)
    (Types : list IceType) : ValidateCallValue :=
  match Args, Types with
  | Arg :: Args', T :: Types' =>
      if decide (getType Arg = T)
      then validateCallArgs (ArgIndex + 1) Args' Types'
      else WrongCallArgType ArgIndex
  | _, _ => IsValidCall
  end.

Definition validateCall (II : FullIntrinsicInfo) (Dest : option Operand)
    (Args : list Operand) : ValidateCallValue :=
  let ReturnType := from_option getType IceType_void Dest in
  if negb (bool_decide (Some ReturnType = head (IntrinsicSignature II)))
  then BadReturnType
  else if negb (length Args + 1 =? length (IntrinsicSignature II))%nat
  then WrongNumOfArgs
  else validateCallArgs 0 Args (tail (IntrinsicSignature II)).

(** Modelled from the spec: [Ice::APInt] is defined in IceAPInt.h, which
    is not among the sources; [APInt(BitWidth, V).getSExtValue()] reads
    the low [BitWidth] bits of [V] as a signed number. *)
Definition getSExtValue (BitWidth V : Z) : Z :=
  let Low := V mod 2 ^ BitWidth in
  if Low <? 2 ^ (BitWidth - 1) then Low else Low - 2 ^ BitWidth.

(** A body repeated [n] times. *)
Fixpoint repeatM (n : nat) (m : FP unit) : FP unit :=
  match n with
  | O => ret tt
  | S n' => m ;; repeatM n' m
  end.

(** The loop over the cases of a SWITCH record: [n] cases are left, the
    next one starts at [ValCaseIndex].  The result is the list of the
    cases, or nothing when the loop left the handler. *)
Fixpoint ProcessRecord_switchCases (n : nat) (ValCaseIndex BitWidth : Z)
    (Disabled : bool) (Values : list Z) (Cases : list (Z * nat))
  : FP (option (list (Z * nat))) :=
  match n with
  | O => ret (Some Cases)
  | S n' =>
      if negb (at_ Values (Z.to_nat ValCaseIndex) =? 1)
         || negb (at_ Values (Z.to_nat (ValCaseIndex + 1)) =? 1)
      then
        Error [Str "Sequence [1, 1, value, label] expected for case entry ";
               Str "in switch record. (at index"; Num ValCaseIndex; Str ")"] ;;
        ret None
      else
        let Value :=
          getSExtValue BitWidth
            (naclbitc.NaClDecodeSignRotatedValue
               (at_ Values (Z.to_nat (ValCaseIndex + 2)))) in
        if Disabled
        then ProcessRecord_switchCases n' (to_uint32 (ValCaseIndex + 4))
               BitWidth Disabled Values Cases
        else
          Label ← getBranchBasicBlock
                    (to_uint32 (at_ Values (Z.to_nat (ValCaseIndex + 3)))) ;
          ProcessRecord_switchCases n' (to_uint32 (ValCaseIndex + 4))
            BitWidth Disabled Values (Cases ++ [(Value, Label)])
  end.

(** The loop over the arguments of a PHI record: [Rest] holds the values
    from index [i] on.  The result is the list of the arguments, or
    nothing when the loop left the handler. *)
Fixpoint ProcessRecord_phiArguments (T : IceType) (BaseIndex : Z)
    (Rest : list Z) (Args : list (Operand * nat))
  : FP (option (list (Operand * nat))) :=
  match Rest with
  | [] => ret (Some Args)
  | V :: Rest' =>
      Op ← getRelativeOperand
             (to_int32 (naclbitc.NaClDecodeSignRotatedValue V)) BaseIndex ;
      Op ← deref Op ;
      if negb (bool_decide (getType Op = T))
      then
        Error [Str "Value "; DumpOp Op; Str " not type "; Ty T;
               Str " in phi instruction. Found: "; Ty (getType Op)] ;;
        appendErrorInstruction T ;;
        ret None
      else
        Block ← getBasicBlock (to_uint32 (at_ Rest' 0)) ;
        match Rest' with
        | [] => ret (Some (Args ++ [(Op, Block)]))
        | _ :: Rest'' =>
            ProcessRecord_phiArguments T BaseIndex Rest''
              (Args ++ [(Op, Block)])
        end
  end.

(** The loop that adds the arguments of a call. *)
Fixpoint ProcessRecord_callArguments (BaseIndex : Z) (Params : list Z)
  : FP (list Operand) :=
  match Params with
  | [] => ret []
  | V :: Params' =>
      Arg ← getRelativeOperand (to_int32 V) BaseIndex ;
      Arg ← deref Arg ;
      Args ← ProcessRecord_callArguments BaseIndex Params' ;
      ret (Arg :: Args)
  end.

(** The first statement of [FunctionParser::ProcessRecord]: after a
    terminator, the record opens the next basic block. *)
Definition ProcessRecord_enterBlock : FP unit :=
  Disabled ← isIRGenerationDisabled ;
  s ← get ;
  if InstIsTerminating s
  then
    modify (setInstIsTerminating false) ;;
    if Disabled then ret tt
    else
      modify (setCurrentBbIndex (to_uint32 (CurrentBbIndex s + 1))) ;;
      Node ← getBasicBlock (to_uint32 (CurrentBbIndex s + 1)) ;
      modify (setCurrentNode Node)
  else ret tt.

(** [FunctionParser::ProcessRecord]. *)
Definition ProcessRecord (Code : FunctionCode) (Values : list Z) : FP unit :=
  ProcessRecord_enterBlock ;;
  Disabled ← isIRGenerationDisabled ;
  s ← get ;
  let BaseIndex := to_int32 (NextLocalInstIndex s) in
  match Code with
  | FUNC_CODE_DECLAREBLOCKS =>
      ok ← isValidRecordSize 1 "count" Values ;
      if negb ok then ret tt else
      NumBbs ← (if to_uint32 (at_ Values 0) =? 0
                then
                  Error [Str "Functions must contain at least one basic block."] ;;
                  ret 1
                else ret (to_uint32 (at_ Values 0))) ;
      if Disabled then ret tt else
      s ← get ;
      if negb (length (Nodes (Func s)) =? 1)%nat
      then Error [Str "Duplicate function block count record"]
      else repeatM (Z.to_nat (NumBbs - 1))
                   (Node ← InstallNextBasicBlock ; ret tt)
  | FUNC_CODE_INST_BINOP =>
      ok ← isValidRecordSize 3 "binop" Values ;
      if negb ok then ret tt else
      Op1 ← getRelativeOperand (to_int32 (at_ Values 0)) BaseIndex ;
      Op2 ← getRelativeOperand (to_int32 (at_ Values 1)) BaseIndex ;
      if Disabled then setNextLocalInstIndex None else
      Op1 ← deref Op1 ;
      Op2 ← deref Op2 ;
      let Type1 := getType Op1 in
      let Type2 := getType Op2 in
      if negb (bool_decide (Type1 = Type2))
      then
        Error [Str "Binop argument types differ: "; Ty Type1; Str " and ";
               Ty Type2] ;;
        appendErrorInstruction Type1
      else
        '(ok, Opcode) ← convertBinopOpcode (at_ Values 2) Type1 ;
        if negb ok then appendErrorInstruction Type1
        else
          Dest ← getNextInstVar Type1 ;
          appendToCurrentNode (InstArithmetic Opcode Dest Op1 Op2)
  | FUNC_CODE_INST_CAST =>
      ok ← isValidRecordSize 3 "cast" Values ;
      if negb ok then ret tt else
      Src ← getRelativeOperand (to_int32 (at_ Values 0)) BaseIndex ;
      CastType ← getSimpleTypeByID (to_uint32 (at_ Values 1)) ;
      if Disabled then setNextLocalInstIndex None else
      Src ← deref Src ;
      '(ok, CastKind) ←
        convertCastOpToIceOp (at_ Values 2) (getType Src) CastType ;
      if negb ok then appendErrorInstruction CastType
      else
        Dest ← getNextInstVar CastType ;
        appendToCurrentNode (InstCast CastKind Dest Src)
  | FUNC_CODE_INST_VSELECT =>
      ok ← isValidRecordSize 3 "select" Values ;
      if negb ok then ret tt else
      ThenVal ← getRelativeOperand (to_int32 (at_ Values 0)) BaseIndex ;
      ElseVal ← getRelativeOperand (to_int32 (at_ Values 1)) BaseIndex ;
      CondVal ← getRelativeOperand (to_int32 (at_ Values 2)) BaseIndex ;
      if Disabled then setNextLocalInstIndex None else
      ThenVal ← deref ThenVal ;
      ElseVal ← deref ElseVal ;
      let ThenType := getType ThenVal in
      let ElseType := getType ElseVal in
      if negb (bool_decide (ThenType = ElseType))
      then
        Error [Str "Select operands not same type. Found "; Ty ThenType;
               Str " and "; Ty ElseType] ;;
        appendErrorInstruction ThenType
      else
        CondVal ← deref CondVal ;
        let CondType := getType CondVal in
        if isVectorType CondType
        then
          if negb (isVectorType ThenType)
             || negb (bool_decide (typeElementType CondType = IceType_i1))
             || negb (typeNumElements ThenType =? typeNumElements CondType)
          then
            Error [Str "Select condition type "; Ty CondType;
                   Str " not allowed for values of type "; Ty ThenType] ;;
            appendErrorInstruction ThenType
          else
            Dest ← getNextInstVar ThenType ;
            appendToCurrentNode (InstSelect Dest CondVal ThenVal ElseVal)
        else if negb (bool_decide (getType CondVal = IceType_i1))
        then
          Error [Str "Select condition "; OpPointer CondVal;
                 Str " not type i1. Found: "; Ty (getType CondVal)] ;;
          appendErrorInstruction ThenType
        else
          Dest ← getNextInstVar ThenType ;
          appendToCurrentNode (InstSelect Dest CondVal ThenVal ElseVal)
  | FUNC_CODE_INST_EXTRACTELT =>
      ok ← isValidRecordSize 2 "extract element" Values ;
      if negb ok then ret tt else
      Vec ← getRelativeOperand (to_int32 (at_ Values 0)) BaseIndex ;
      Index ← getRelativeOperand (to_int32 (at_ Values 1)) BaseIndex ;
      if Disabled then setNextLocalInstIndex None else
      Vec ← deref Vec ;
      let VecType := getType Vec in
      Index ← deref Index ;
      let IndexCheckValue := validateVectorIndex Vec Index in
      if negb (bool_decide (IndexCheckValue = VectorIndexValid))
      then
        Error (dumpVectorIndexCheckValue IndexCheckValue
               ++ [Str ": extractelement "; Ty VecType; Str " "; DumpOp Vec;
                   Str ", "; Ty (getType Index); Str " "; DumpOp Index]) ;;
        appendErrorInstruction VecType
      else
        Dest ← getNextInstVar (typeElementType VecType) ;
        appendToCurrentNode (InstExtractElement Dest Vec Index)
  | FUNC_CODE_INST_INSERTELT =>
      ok ← isValidRecordSize 3 "insert element" Values ;
      if negb ok then ret tt else
      Vec ← getRelativeOperand (to_int32 (at_ Values 0)) BaseIndex ;
      Elt ← getRelativeOperand (to_int32 (at_ Values 1)) BaseIndex ;
      Index ← getRelativeOperand (to_int32 (at_ Values 2)) BaseIndex ;
      if Disabled then setNextLocalInstIndex None else
      Vec ← deref Vec ;
      let VecType := getType Vec in
      Index ← deref Index ;
      let IndexCheckValue := validateVectorIndex Vec Index in
      if negb (bool_decide (IndexCheckValue = VectorIndexValid))
      then
        Elt ← deref Elt ;
        Error (dumpVectorIndexCheckValue IndexCheckValue
               ++ [Str ": insertelement "; Ty VecType; Str " "; DumpOp Vec;
                   Str ", "; Ty (getType Elt); Str " "; DumpOp Elt;
                   Str ", "; Ty (getType Index); Str " "; DumpOp Index]) ;;
        appendErrorInstruction (getType Elt)
      else
        Dest ← getNextInstVar VecType ;
        Elt ← deref Elt ;
        appendToCurrentNode (InstInsertElement Dest Vec Elt Index)
  | FUNC_CODE_INST_CMP2 =>
      ok ← isValidRecordSize 3 "compare" Values ;
      if negb ok then ret tt else
      Op1 ← getRelativeOperand (to_int32 (at_ Values 0)) BaseIndex ;
      Op2 ← getRelativeOperand (to_int32 (at_ Values 1)) BaseIndex ;
      if Disabled then setNextLocalInstIndex None else
      Op1 ← deref Op1 ;
      Op2 ← deref Op2 ;
      let Op1Type := getType Op1 in
      let Op2Type := getType Op2 in
      let DestType := getCompareResultType Op1Type in
      Op2 ← (if negb (bool_decide (Op1Type = Op2Type))
             then
               Error [Str "Compare argument types differ: "; Ty Op1Type;
                      Str " and "; Ty Op2Type] ;;
               appendErrorInstruction DestType ;;
               ret Op1
             else ret Op2) ;
      if decide (DestType = IceType_void)
      then Error [Str "Compare not defined for type "; Ty Op1Type]
      else
        Dest ← getNextInstVar DestType ;
        if isIntegerType Op1Type
        then
          let '(ok, Cond) := convertNaClBitcICmpOpToIce (at_ Values 2) in
          when (negb ok)
               (Error [Str "Compare record contains unknown integer predicate index: ";
                       Num (at_ Values 2)] ;;
                appendErrorInstruction DestType) ;;
          appendToCurrentNode (InstIcmp Cond Dest Op1 Op2)
        else if isFloatingType Op1Type
        then
          let '(ok, Cond) := convertNaClBitcFCompOpToIce (at_ Values 2) in
          when (negb ok)
               (Error [Str "Compare record contains unknown float predicate index: ";
                       Num (at_ Values 2)] ;;
                appendErrorInstruction DestType) ;;
          appendToCurrentNode (InstFcmp Cond Dest Op1 Op2)
        else
          Error [Str "Compare on type not understood: "; Ty Op1Type] ;;
          appendErrorInstruction DestType
  | FUNC_CODE_INST_RET =>
      ok ← isValidRecordSizeInRange 0 1 "return" Values ;
      if negb ok then ret tt else
      if bool_decide (Values = [])
      then
        if Disabled then ret tt else
        appendToCurrentNode (InstRet None) ;;
        modify (setInstIsTerminating true)
      else
        RetVal ← getRelativeOperand (to_int32 (at_ Values 0)) BaseIndex ;
        if Disabled then ret tt else
        appendToCurrentNode (InstRet RetVal) ;;
        modify (setInstIsTerminating true)
  | FUNC_CODE_INST_BR =>
      if (length Values =? 1)%nat
      then
        if Disabled then ret tt else
        Block ← getBranchBasicBlock (to_uint32 (at_ Values 0)) ;
        appendToCurrentNode (InstBr Block) ;;
        modify (setInstIsTerminating true)
      else
        ok ← isValidRecordSize 3 "branch" Values ;
        if negb ok then ret tt else
        Cond ← getRelativeOperand (to_int32 (at_ Values 2)) BaseIndex ;
        if Disabled then ret tt else
        Cond ← deref Cond ;
        if negb (bool_decide (getType Cond = IceType_i1))
        then
          Error [Str "Branch condition "; DumpOp Cond; Str " not i1. Found: ";
                 Ty (getType Cond)]
        else
          ThenBlock ← getBranchBasicBlock (to_uint32 (at_ Values 0)) ;
          ElseBlock ← getBranchBasicBlock (to_uint32 (at_ Values 1)) ;
          appendToCurrentNode (InstBrCond Cond ThenBlock ElseBlock) ;;
          modify (setInstIsTerminating true)
  | FUNC_CODE_INST_SWITCH =>
      ok ← isValidRecordSizeAtLeast 4 "switch" Values ;
      if negb ok then ret tt else
      CondTy ← getSimpleTypeByID (to_uint32 (at_ Values 0)) ;
      if negb (isScalarIntegerType CondTy)
      then Error [Str "Case condition must be non-wide integer. Found: ";
                  Ty CondTy]
      else
        let BitWidth := to_uint32 (getScalarIntBitWidth CondTy) in
        Cond ← getRelativeOperand (to_int32 (at_ Values 1)) BaseIndex ;
        CondOk ← (if Disabled then ret true
                  else
                    CondOp ← deref Cond ;
                    if negb (bool_decide (CondTy = getType CondOp))
                    then
                      Error [Str "Case condition expects type "; Ty CondTy;
                             Str ". Found: "; Ty (getType CondOp)] ;;
                      ret false
                    else ret true) ;
        if negb CondOk then ret tt
        else
          DefaultLabel ← (if Disabled then ret 0%nat
                          else getBranchBasicBlock
                                 (to_uint32 (at_ Values 2))) ;
          let NumCases := to_uint32 (at_ Values 3) in
          ok ← isValidRecordSize (to_uint32 (4 + NumCases * 4)) "switch"
                 Values ;
          if negb ok then ret tt else
          Cases ← ProcessRecord_switchCases (Z.to_nat NumCases) 4 BitWidth
                    Disabled Values [] ;
          match Cases with
          | None => ret tt
          | Some Cases =>
              if Disabled then ret tt else
              Cond ← deref Cond ;
              appendToCurrentNode
                (InstSwitch NumCases Cond DefaultLabel Cases) ;;
              modify (setInstIsTerminating true)
          end
  | FUNC_CODE_INST_UNREACHABLE =>
      ok ← isValidRecordSize 0 "unreachable" Values ;
      if negb ok then ret tt else
      if Disabled then ret tt else
      appendToCurrentNode InstUnreachable ;;
      modify (setInstIsTerminating true)
  | FUNC_CODE_INST_PHI =>
      ok ← isValidRecordSizeAtLeast 3 "phi" Values ;
      if negb ok then ret tt else
      T ← getSimpleTypeByID (to_uint32 (at_ Values 0)) ;
      if Z.land (Z.of_nat (length Values)) 1 =? 0
      then
        Error [Str "function block phi record size not valid: ";
               Num (Z.of_nat (length Values))] ;;
        appendErrorInstruction T
      else if decide (T = IceType_void)
      then Error [Str "Phi record using type void not allowed"]
      else if Disabled then setNextLocalInstIndex None
      else
        Dest ← getNextInstVar T ;
        Args ← ProcessRecord_phiArguments T BaseIndex (drop 1 Values) [] ;
        match Args with
        | None => ret tt
        | Some Args =>
            appendToCurrentNode
              (InstPhi (Z.shiftr (Z.of_nat (length Values)) 1) Dest Args)
        end
  | FUNC_CODE_INST_ALLOCA =>
      ok ← isValidRecordSize 2 "alloca" Values ;
      if negb ok then ret tt else
      ByteCount ← getRelativeOperand (to_int32 (at_ Values 0)) BaseIndex ;
      Alignment ← extractAlignment "Alloca" (to_uint32 (at_ Values 1)) ;
      if Disabled then setNextLocalInstIndex None else
      ByteCount ← deref ByteCount ;
      let PtrTy := getPointerType in
      if negb (bool_decide (getType ByteCount = IceType_i32))
      then
        Error [Str "Alloca on non-i32 value. Found: "; DumpOp ByteCount] ;;
        appendErrorInstruction PtrTy
      else
        Dest ← getNextInstVar PtrTy ;
        appendToCurrentNode (InstAlloca ByteCount Alignment Dest)
  | FUNC_CODE_INST_LOAD =>
      ok ← isValidRecordSize 3 "load" Values ;
      if negb ok then ret tt else
      Address ← getRelativeOperand (to_int32 (at_ Values 0)) BaseIndex ;
      T ← getSimpleTypeByID (to_uint32 (at_ Values 2)) ;
      Alignment ← extractAlignment "Load" (to_uint32 (at_ Values 1)) ;
      if Disabled then setNextLocalInstIndex None else
      Address ← deref Address ;
      ok ← isValidPointerType Address "Load" ;
      if negb ok then appendErrorInstruction T else
      ok ← isValidLoadStoreAlignment Alignment T "Load" ;
      if negb ok then appendErrorInstruction T else
      Dest ← getNextInstVar T ;
      appendToCurrentNode (InstLoad Dest Address Alignment)
  | FUNC_CODE_INST_STORE =>
      ok ← isValidRecordSize 3 "store" Values ;
      if negb ok then ret tt else
      Address ← getRelativeOperand (to_int32 (at_ Values 0)) BaseIndex ;
      Value ← getRelativeOperand (to_int32 (at_ Values 1)) BaseIndex ;
      Alignment ← extractAlignment "Store" (to_uint32 (at_ Values 2)) ;
      if Disabled then ret tt else
      Address ← deref Address ;
      ok ← isValidPointerType Address "Store" ;
      if negb ok then ret tt else
      Value ← deref Value ;
      ok ← isValidLoadStoreAlignment Alignment (getType Value) "Store" ;
      if negb ok then ret tt else
      appendToCurrentNode (InstStore Value Address Alignment)
  | FUNC_CODE_INST_CALL | FUNC_CODE_INST_CALL_INDIRECT =>
      let IsDirect := bool_decide (Code = FUNC_CODE_INST_CALL) in
      let ParamsStartIndex := if IsDirect then 2%nat else 3%nat in
      ok ← (if IsDirect then isValidRecordSizeAtLeast 2 "call" Values
            else isValidRecordSizeAtLeast 3 "call indirect" Values) ;
      if negb ok then ret tt else
      CalleeIndex ← convertRelativeToAbsIndex (to_int32 (at_ Values 1))
                      BaseIndex ;
      Callee ← getOperand CalleeIndex ;
      Found ←
        (if IsDirect
         then
           Fcn ← getFunctionByID CalleeIndex ;
           C ← context ;
           let Decl := FunctionDeclarationList C !! Fcn in
           let ReturnType :=
             from_option (fun D => SigReturnType (FuncSignature D))
                         IceType_void Decl in
           let Name := from_option FuncName "" Decl in
           if isStringPrefix Name "llvm."
           then
             match findIntrinsic
                     (String.substring 5 (String.length Name - 5) Name) with
             | Some II => ret (Some (ReturnType, Some II))
             | None =>
                 Error [Str "Invalid PNaCl intrinsic call to "; Str Name] ;;
                 appendErrorInstruction ReturnType ;;
                 ret None
             end
           else ret (Some (ReturnType, None))
         else
           ReturnType ← getSimpleTypeByID (to_uint32 (at_ Values 2)) ;
           ret (Some (ReturnType, None))) ;
      match Found with
      | None => ret tt
      | Some (ReturnType, IntrinsicInfo) =>
          let CCInfo := at_ Values 0 in
          match DecodeCallingConv (Z.shiftr CCInfo 1) with
          | None =>
              Error [Str "Function call calling convention value ";
                     Num (Z.shiftr CCInfo 1); Str " not understood."] ;;
              appendErrorInstruction ReturnType
          | Some CallingConv =>
              let IsTailCall := negb (Z.land CCInfo 1 =? 0) in
              let NumParams :=
                to_uint32 (Z.of_nat (length Values)
                           - Z.of_nat ParamsStartIndex) in
              if Disabled
              then
                if decide (ReturnType = IceType_void) then ret tt
                else setNextLocalInstIndex None
              else
                Dest ← (if decide (ReturnType = IceType_void) then ret None
                        else Var ← getNextInstVar ReturnType ;
                             ret (Some Var)) ;
                Callee ← deref Callee ;
                Args ← ProcessRecord_callArguments BaseIndex
                         (drop ParamsStartIndex Values) ;
                match IntrinsicInfo with
                | Some II =>
                    match validateCall II Dest Args with
                    | IsValidCall => ret tt
                    | BadReturnType =>
                        Error [Str "Intrinsic call expects return type ";
                               Ty (default IceType_void
                                     (head (IntrinsicSignature II)));
                               Str ". Found: ";
                               Ty (from_option getType IceType_void Dest)]
                    | WrongNumOfArgs =>
                        Error [Str "Intrinsic call expects ";
                               Num (Z.of_nat (length (IntrinsicSignature II))
                                    - 1);
                               Str ". Found: "; Num NumParams]
                    | WrongCallArgType ArgIndex =>
                        Error [Str "Intrinsic call argument "; Num ArgIndex;
                               Str " expects type ";
                               Ty (default IceType_void
                                     (tail (IntrinsicSignature II)
                                        !! Z.to_nat ArgIndex));
                               Str ". Found: ";
                               Ty (from_option getType IceType_void
                                     (Args !! Z.to_nat ArgIndex))]
                    end ;;
                    appendToCurrentNode
                      (InstIntrinsicCall NumParams Dest Callee (Info II) Args)
                | None =>
                    appendToCurrentNode
                      (InstCall NumParams Dest Callee IsTailCall Args)
                end
          end
      end
  | FUNC_CODE_INST_FORWARDTYPEREF =>
      ok ← isValidRecordSize 2 "forward type ref" Values ;
      if negb ok then ret tt else
      OpType ← getSimpleTypeByID (to_uint32 (at_ Values 1)) ;
      Op ← (if Disabled then ret None
            else Var ← createInstVar OpType ; ret (Some Var)) ;
      setOperand (to_uint32 (at_ Values 0)) Op
  | FUNC_CODE_other Code =>
      ProcessRecord_default Code Values
  end.

(** The loop of [ExitBlock] over the nodes, by index. *)
Fixpoint ExitBlock_patchNodes (Indices : list nat) : FP unit :=
  match Indices with
  | [] => ret tt
  | Index :: Indices' =>
      s ← get ;
      match Insts <$> Nodes (Func s) !! Index with
      | Some [] =>
          Error [Str "Basic block "; Num (Z.of_nat Index);
                 Str " contains no instructions"] ;;
          modify (fun s =>
            setFunc (setNodes (alter (appendInst InstUnreachable) Index
                                     (Nodes (Func s))) (Func s)) s)
      | _ => ret tt
      end ;;
      ExitBlock_patchNodes Indices'
  end.

Definition setTranslated (F : Cfg) : Cfg :=
  mkCfg (FunctionName F) (ReturnType F) (IsInternal F) (EntryNode F)
        (Args F) (Variables F) (Nodes F) true.

(** [FunctionParser::ExitBlock]; [translateFcn] marks the function as
    handed to the translator. *)
Definition ExitBlock : FP unit :=
  Disabled ← isIRGenerationDisabled ;
  if Disabled then ret tt else
  s ← get ;
  ExitBlock_patchNodes (seq 0 (length (Nodes (Func s)))) ;;
  modify (fun s => setFunc (computePredecessors (Func s)) s) ;;
  C ← context ;
  when (NumErrors C =? 0)
       (modify (fun s => setFunc (setTranslated (Func s)) s)).

(** The constructor of [FunctionParser], on the state of the top-level
    parser when the function block is entered. *)
Definition FunctionParser_new_body : FP unit :=
  FcnId ← getNextFunctionBlockValueID ;
  Fcn ← getFunctionByID (to_uint32 FcnId) ;
  s ← get ;
  let Decl := default (FuncDecl s)
                      (FunctionDeclarationList (Context s) !! Fcn) in
  put (mkFunctionParser (Context s) (Func s) 0 (CurrentNode s) FcnId Decl
         (getNumGlobalIDs (Context s)) [] (getNumGlobalIDs (Context s))
         false (OperandLookups s)) ;;
  let Signature := FuncSignature Decl in
  Disabled ← isIRGenerationDisabled ;
  if Disabled
  then
    (fix args (ArgList : list IceType) : FP unit :=
       match ArgList with
       | [] => ret tt
       | _ :: ArgList' => setNextLocalInstIndex None ;; args ArgList'
       end) (SigArgList Signature)
  else
    modify (fun s =>
      setFunc (mkCfg (FuncName Decl) (SigReturnType Signature)
                     (FuncIsInternal Decl) (EntryNode (Func s))
                     (Args (Func s)) (Variables (Func s)) (Nodes (Func s))
                     (Translated (Func s))) s) ;;
    Node ← InstallNextBasicBlock ;
    modify (setCurrentNode Node) ;;
    modify (fun s =>
      setFunc (mkCfg (FunctionName (Func s)) (ReturnType (Func s))
                     (IsInternal (Func s)) (Some Node)
                     (Args (Func s)) (Variables (Func s)) (Nodes (Func s))
                     (Translated (Func s))) s) ;;
    (fix args (ArgList : list IceType) : FP unit :=
       match ArgList with
       | [] => ret tt
       | ArgType :: ArgList' =>
           Arg ← getNextInstVar ArgType ;
           modify (fun s => setFunc (addArg Arg (Func s)) s) ;;
           args ArgList'
       end) (SigArgList Signature).

Definition FunctionParser_new (C : TopLevelParser)
  : Outcome FunctionParser unit :=
  FunctionParser_new_body
    (mkFunctionParser C emptyCfg 0 0%nat 0
       (mkFunctionDeclaration "" false (mkFuncSigType IceType_void []) false)
       0 [] 0 false []).

(** A function block: the constructor, the records, and the exit. *)
Definition parseFunctionBlock (C : TopLevelParser)
    (Records : list (FunctionCode * list Z)) : Outcome FunctionParser unit :=
  match FunctionParser_new C with
  | Aborts s => Aborts s
  | Returns _ s =>
      (ProcessRecords (fun '(Code, Values) => ProcessRecord Code Values)
                      Records ;;
       ExitBlock) s
  end.

End FunctionParser.

(** *** The constants block of a function *)

(** The codes of the records of the constants block. *)
Inductive ConstantsCode :=
  | CST_CODE_SETTYPE | CST_CODE_UNDEF | CST_CODE_INTEGER | CST_CODE_FLOAT
  | CST_CODE_other (Code : Z).

(** What the constants parser takes from [Ice::GlobalContext], which is
    defined outside of the sources: the pooled integer constant of a type
    and a value, or a null pointer. *)
Class GlobalContext := {
  getConstantInt : IceType -> Z -> option Operand
}.

(** [ConstantsParser].  [FuncParser] points to the parser of the function
    block, which the records change; the top-level parser is the one of
    that parser. *)
Record ConstantsParser := mkConstantsParser {
  FuncParser : FunctionParser;
  NextConstantType : IceType
}.

#[global] Instance ConstantsParser_BlockParser : BlockParser ConstantsParser := {|
  getContext s := Context (FuncParser s);
  setContext C s :=
    mkConstantsParser (setFunctionContext C (FuncParser s))
                      (NextConstantType s);
  getBlockName := "constants"
|}.

(** The constructor of [ConstantsParser]. *)
Definition newConstantsParser (F : FunctionParser) : ConstantsParser :=
  mkConstantsParser F IceType_void.

Definition setNextConstantType (T : IceType) (s : ConstantsParser)
  : ConstantsParser :=
  mkConstantsParser (FuncParser s) T.

(** A call of a member function of the function parser through
    [FuncParser]. *)
Definition onFuncParser {A} (m : M FunctionParser A) : M ConstantsParser A :=
  fun s =>
    match m (FuncParser s) with
    | Returns a F => Returns a (mkConstantsParser F (NextConstantType s))
    | Aborts F => Aborts (mkConstantsParser F (NextConstantType s))
    end.

(** [isValidNextConstantType]. *)
Definition isValidNextConstantType : M ConstantsParser bool :=
  s ← get ;
  if decide (NextConstantType s = IceType_void)
  then Error [Str "Constant record not preceded by set type record"] ;;
       ret false
  else ret true.

Section ConstantsParser.

Context {Globals : GlobalContext}.

(** [ConstantsParser::ProcessRecord].  The constants of a floating type
    are written by their bits: [convertAPIntToFp] takes the bits of the
    value as they are. *)
Definition ConstantsParser_ProcessRecord (Code : ConstantsCode)
    (Values : list Z) : M ConstantsParser unit :=
  match Code with
  | CST_CODE_SETTYPE =>
      ok ← isValidRecordSize 1 "set type" Values ;
      if negb ok then ret tt else
      T ← getSimpleTypeByID (to_uint32 (at_ Values 0)) ;
      modify (setNextConstantType T) ;;
      when (bool_decide (T = IceType_void))
           (Error [Str "constants block set type not allowed for void type"])
  | CST_CODE_UNDEF =>
      ok ← isValidRecordSize 0 "undef" Values ;
      if negb ok then ret tt else
      ok ← isValidNextConstantType ;
      if negb ok then ret tt else
      Disabled ← isIRGenerationDisabled ;
      if Disabled then onFuncParser (setNextConstantID None) else
      s ← get ;
      onFuncParser
        (setNextConstantID (Some (ConstantUndef (NextConstantType s))))
  | CST_CODE_INTEGER =>
      ok ← isValidRecordSize 1 "integer" Values ;
      if negb ok then ret tt else
      ok ← isValidNextConstantType ;
      if negb ok then ret tt else
      Disabled ← isIRGenerationDisabled ;
      if Disabled then onFuncParser (setNextConstantID None) else
      s ← get ;
      let T := NextConstantType s in
      let Report :=
        Error [Str "constant block integer record for non-integer type ";
               Ty T] in
      if isScalarIntegerType T
      then
        match getConstantInt T
                (getSExtValue (getScalarIntBitWidth T)
                   (naclbitc.NaClDecodeSignRotatedValue (at_ Values 0))) with
        | Some C => onFuncParser (setNextConstantID (Some C))
        | None => Report
        end
      else Report
  | CST_CODE_FLOAT =>
      ok ← isValidRecordSize 1 "float" Values ;
      if negb ok then ret tt else
      ok ← isValidNextConstantType ;
      if negb ok then ret tt else
      Disabled ← isIRGenerationDisabled ;
      if Disabled then onFuncParser (setNextConstantID None) else
      s ← get ;
      match NextConstantType s with
      | IceType_f32 =>
          onFuncParser
            (setNextConstantID
               (Some (ConstantFloat (to_uint32 (at_ Values 0)))))
      | IceType_f64 =>
          onFuncParser
            (setNextConstantID
               (Some (ConstantDouble (to_uint64 (at_ Values 0)))))
      | T =>
          Error [Str "constant block float record for non-floating type ";
                 Ty T]
      end
  | CST_CODE_other Code => ProcessRecord_default Code Values
  end.

End ConstantsParser.


(** An instance of the collaborators, for the examples: the alignments
    and the load and store types of the PNaCl ABI, the C calling
    convention, and a registry that knows no intrinsic. *)
Definition exampleCollaborators : Collaborators := {|
  typeAlignInBytes T :=
    match T with
    | IceType_void => 0
    | IceType_f32 | IceType_v4i32 | IceType_v4f32 => 4
    | IceType_f64 => 8
    | IceType_v8i16 => 2
    | _ => 1
    end;
  isLoadStoreType T :=
    match T with
    | IceType_void | IceType_i1 | IceType_v4i1 | IceType_v8i1
    | IceType_v16i1 => false
    | _ => true
    end;
  isIntegerArithmeticType T :=
    match T with
    | IceType_i8 | IceType_i16 | IceType_i32 | IceType_i64
    | IceType_v16i8 | IceType_v8i16 | IceType_v4i32 => true
    | _ => false
    end;
  DecodeCallingConv V := if V =? 0 then Some 0 else None;
  findIntrinsic _ := None
|}.

End PNaCl.

(** ** Names used in the statements, and the states of the examples *)

Module Spec.

Import Ice PNaCl.

(** The message of [convertRelativeToAbsIndex]. *)
Definition invalidRelativeValueId (Id BaseIndex : Z) : Message :=
  [Str "Invalid relative value id: "; Num Id; Str " (must be <= ";
   Num BaseIndex; Str ")"].

(** The message of [extractAlignment]. *)
Definition alignmentTooLarge (InstName : string) (AlignPower : Z) : Message :=
  [Str InstName; Str " alignment greater than 2**"; Num AlignPowerLimit;
   Str ". Found: 2**"; Num AlignPower].

(** The message of [convertCastOpToIceOp] for a cast that is not valid. *)
Definition illegalCast (Kind : InstCast.OpKind) (SourceType TargetType : IceType)
  : Message :=
  [Str "Illegal cast: "; CastName Kind; Str " "; Ty SourceType; Str " to ";
   Ty TargetType].

(** The message of [getNextInstVar] for a forward reference that does not
    fit. *)
Definition illegalForwardReference (Index : Z) (Op : Operand) : Message :=
  [Str "Illegal forward referenced instruction ("; Num Index; Str "): ";
   DumpOp Op].

(** The messages of the DECLAREBLOCKS record. *)
Definition noBasicBlock : Message :=
  [Str "Functions must contain at least one basic block."].

Definition duplicateBlockCount : Message :=
  [Str "Duplicate function block count record"].

(** The message of [ExitBlock] for an empty block. *)
Definition emptyBasicBlock (Index : nat) : Message :=
  [Str "Basic block "; Num (Z.of_nat Index); Str " contains no instructions"].

(** What [ExitBlock] does to a node: an empty node receives
    [unreachable]. *)
Definition patchEmpty (Node : CfgNode) : CfgNode :=
  match Insts Node with
  | [] => appendInst InstUnreachable Node
  | _ => Node
  end.

(** The diagnostics of [ExitBlock] for the nodes with the indices given. *)
Definition emptyBlockErrors (Ns : list CfgNode) (Indices : list nat)
  : list Message :=
  flat_map (fun Index => match Insts <$> Ns !! Index with
                         | Some [] => [emptyBasicBlock Index]
                         | _ => []
                         end) Indices.

(** The last instruction of a node is a terminator. *)
Definition endsWithTerminator (Node : CfgNode) : Prop :=
  exists Instr, last (Insts Node) = Some Instr /\ isTerminator Instr = true.

(** The message of the FUNCTION record of a types block for a vararg
    flag that is not zero. *)
Definition varargsError : Message :=
  [Str "Function type can't define varargs"].

(** The recovery of the FUNCTION record for a parameter type. *)
Definition recoverVoid (Ty : IceType) : IceType :=
  if decide (Ty = IceType_void) then IceType_i32 else Ty.

(** The type ID [V] of a record names a simple type in the table. *)
Definition isSimpleTypeID (Tbl : list ExtendedType) (V : Z) : Prop :=
  exists E, Tbl !! Z.to_nat (to_uint32 V) = Some E /\ Kind E = Simple.

(** The simple type with the type ID [V]. *)
Definition simpleTypeOf (Tbl : list ExtendedType) (V : Z) : IceType :=
  match Tbl !! Z.to_nat (to_uint32 V) with
  | Some E => SigReturnType (Signature E)
  | None => IceType_void
  end.

(** The state of a block parser with a diagnostic more. *)
Definition withError {S} {BP : BlockParser S} (Msg : Message) (s : S) : S :=
  setContext (recordError Msg (getContext s)) s.

(** A handler keeps a relation between the states before and after it,
    however it ends. *)
Definition keeps {S A} (R : S -> S -> Prop) (m : M S A) : Prop :=
  forall s, R s (finalState (m s)).

(** Two states of the function parser have the same settings, the same
    function and the same local values. *)
Definition sameValues (s s' : FunctionParser) : Prop :=
  Flags (Context s') = Flags (Context s) /\ Func s' = Func s /\
  CachedNumGlobalValueIDs s' = CachedNumGlobalValueIDs s /\
  LocalOperands s' = LocalOperands s /\
  NextLocalInstIndex s' = NextLocalInstIndex s.

(** The value that a forward type reference has reserved for the next
    instruction, if any: what [getNextInstVar] finds. *)
Definition reservedValue (s : FunctionParser) : option Operand :=
  let LocalIndex :=
    to_uint32 (NextLocalInstIndex s - CachedNumGlobalValueIDs s) in
  if LocalIndex <? Z.of_nat (length (LocalOperands s))
  then mjoin (LocalOperands s !! Z.to_nat LocalIndex) else None.

(** The variable that [getNextInstVar] returns for a type other than
    [void]: the reserved variable when it has the type, and else the
    variable with the next number. *)
Definition nextInstVar (T : IceType) (s : FunctionParser) : Operand :=
  match reservedValue s with
  | Some (IceVariable Number VarTy) =>
      if decide (VarTy = T) then IceVariable Number VarTy
      else IceVariable (length (Variables (Func s))) T
  | _ => IceVariable (length (Variables (Func s))) T
  end.

(** The diagnostic of [getNextInstVar], if any. *)
Definition nextInstVarErrors (T : IceType) (s : FunctionParser)
  : list Message :=
  match reservedValue s with
  | Some (IceVariable Number VarTy) =>
      if decide (VarTy = T) then []
      else [illegalForwardReference (NextLocalInstIndex s)
                                    (IceVariable Number VarTy)]
  | Some Op => [illegalForwardReference (NextLocalInstIndex s) Op]
  | None => []
  end.

(** Two states of the function parser differ at most in the diagnostics,
    in the cache of the constants of the global declarations and in the
    history of the operand lookups. *)
Definition sameFunction (s s' : FunctionParser) : Prop :=
  Func s' = Func s /\ CurrentBbIndex s' = CurrentBbIndex s /\
  CurrentNode s' = CurrentNode s /\
  CachedNumGlobalValueIDs s' = CachedNumGlobalValueIDs s /\
  LocalOperands s' = LocalOperands s /\
  NextLocalInstIndex s' = NextLocalInstIndex s /\
  InstIsTerminating s' = InstIsTerminating s /\
  Flags (Context s') = Flags (Context s) /\
  TypeIDValues (Context s') = TypeIDValues (Context s) /\
  FunctionDeclarationList (Context s') = FunctionDeclarationList (Context s) /\
  VariableDeclarations (Context s') = VariableDeclarations (Context s).

(** The absolute index that [convertRelativeToAbsIndex] returns for the
    reference [Id], whenever it returns. *)
Definition absIndex (Id BaseIndex : Z) : Z :=
  if BaseIndex <? Id then 0 else to_uint32 (BaseIndex - Id).

(** From [s] to [s'] the operands looked up, in the order of the calls of
    [getOperand], all have an index with the property [P]. *)
Definition newLookups (P : Z -> Prop) (s s' : FunctionParser) : Prop :=
  exists l, OperandLookups s' = OperandLookups s ++ l /\ Forall P l.

(** [Index] is what a value of the record denotes when it is taken as it
    is for a relative reference. *)
Definition plainReference (Values : list Z) (BaseIndex Index : Z) : Prop :=
  exists i v, Values !! i = Some v /\
              Index = absIndex (to_int32 v) BaseIndex.

(** [Index] is what a value of the record at an odd position denotes when
    it is decoded as a sign-rotated number first. *)
Definition signRotatedReference (Values : list Z) (BaseIndex Index : Z)
  : Prop :=
  exists i v, Values !! i = Some v /\ Nat.odd i = true /\
              Index = absIndex
                        (to_int32 (naclbitc.NaClDecodeSignRotatedValue v))
                        BaseIndex.

(** The values of a PHI record that stand for operands: every second one
    of [Rest], the values after the type. *)
Fixpoint phiValueOperands (Rest : list Z) : list Z :=
  match Rest with
  | [] => []
  | V :: Rest' =>
      V :: match Rest' with
           | [] => []
           | _ :: Rest'' => phiValueOperands Rest''
           end
  end.

(** The stack instructions of the assembly text, and the one that undoes
    each. *)
Inductive StackOp := OpPush | OpVPush | OpPop | OpVPop.

Definition mnemonic (o : StackOp) : string :=
  match o with
  | OpPush => "push" | OpVPush => "vpush"
  | OpPop => "pop" | OpVPop => "vpop"
  end.

Definition mirror (o : StackOp) : StackOp :=
  match o with
  | OpPush => OpPop | OpVPush => OpVPop
  | OpPop => OpPush | OpVPop => OpVPush
  end.

(** The operands of a register list, with [", "] between them. *)
Fixpoint commaSeparated (Ops : list Operand) : list ARM32Emit.EmitItem :=
  match Ops with
  | [] => []
  | Op :: Ops' =>
      ARM32Emit.EmitOperand Op
      :: match Ops' with
         | [] => []
         | _ :: _ => ARM32Emit.Text ", " :: commaSeparated Ops'
         end
  end.

(** One line of assembly text: a stack instruction with its register
    list. *)
Definition stackLine (l : StackOp * list Operand)
  : list ARM32Emit.EmitItem :=
  [ARM32Emit.Text ARM32Emit.tab; ARM32Emit.Text (mnemonic l.1);
   ARM32Emit.Text (ARM32Emit.tab +:+ "{")]
  ++ commaSeparated l.2
  ++ [ARM32Emit.Text ("}" +:+ ARM32Emit.newline)].

(** The records of the types block that define a scalar type, with the
    type. *)
Definition scalarTypeRecords : list (TypeCode * list Z * IceType) :=
  [(TYPE_CODE_VOID, [], IceType_void); (TYPE_CODE_FLOAT, [], IceType_f32);
   (TYPE_CODE_DOUBLE, [], IceType_f64);
   (TYPE_CODE_INTEGER, [1], IceType_i1); (TYPE_CODE_INTEGER, [8], IceType_i8);
   (TYPE_CODE_INTEGER, [16], IceType_i16);
   (TYPE_CODE_INTEGER, [32], IceType_i32);
   (TYPE_CODE_INTEGER, [64], IceType_i64)].

(** The message of the INTEGER record of the types block. *)
Definition invalidBitsize (N : Z) : Message :=
  [Str "Type integer record with invalid bitsize: "; Num N].

(** The message of the VECTOR record of the types block. *)
Definition invalidVector (Size : Z) (BaseTy : IceType) : Message :=
  [Str "Invalid type vector record: <"; Num Size; Str " x "; Ty BaseTy;
   Str ">"].

Definition allIceTypes : list IceType :=
  [IceType_void; IceType_i1; IceType_i8; IceType_i16; IceType_i32;
   IceType_i64; IceType_f32; IceType_f64; IceType_v4i1; IceType_v8i1;
   IceType_v16i1; IceType_v16i8; IceType_v8i16; IceType_v4i32;
   IceType_v4f32].

(** The scalar integer type of a bit width, if there is one. *)
Definition integerTypeOfWidth (N : Z) : option IceType :=
  List.find (fun T => isScalarIntegerType T && (getScalarIntBitWidth T =? N))
            allIceTypes.

(** The vector type with [Size] elements of the type [BaseTy], if there
    is one. *)
Definition vectorTypeOf (Size : Z) (BaseTy : IceType) : option IceType :=
  List.find (fun T => isVectorType T && (typeNumElements T =? Size)
                      && bool_decide (typeElementType T = BaseTy))
            allIceTypes.

(** What [getTypeByIDForDefining] reports for a type ID: nothing for an
    entry of the table that is not defined yet, the missing entry for an
    ID beyond the table, and the entry found for one that is defined. *)
Definition typeDefinitionErrors (Tbl : list ExtendedType) (ID : Z)
  : list Message :=
  match Tbl !! Z.to_nat ID with
  | None => [[Str "Can't find extended type for type id: "; Num ID]]
  | Some E =>
      if decide (Kind E = Undefined) then []
      else [[Str "Type id "; Num ID; Str " not "; KindName Undefined;
             Str ". Found: "; ExtTy E]]
  end.

(** The message of [ReportRecordSizeError] in a function block for a
    record with fewer values than the least number expected. *)
Definition tooFewValues (LowerLimit : Z) (RecordName : string)
    (Values : list Z) : Message :=
  [Str "Function"; Str " "; Str RecordName; Str " record expects";
   Str " "; Str "at least"; Str " "; Num LowerLimit; Str " argument"]
  ++ (if 1 <? LowerLimit then [Str "s"] else [])
  ++ [Str ". Found: "; Num (Z.of_nat (length Values))].

(** A globals block as a bitcode writer lays it out: the count, and for
    every variable its VAR record, a COMPOUND record unless it has exactly
    one initializer, and its initializers, zero fills and data. *)
Inductive InitSpec :=
  | ZeroFill (Size : Z)
  | Data (Bytes : list Z).

Record VarSpec := mkVarSpec {
  AlignPower : Z;
  IsConst : Z;
  Inits : list InitSpec
}.

Definition initRecord (i : InitSpec) : GlobalVarCode * list Z :=
  match i with
  | ZeroFill Size => (GLOBALVAR_ZEROFILL, [Size])
  | Data Bytes => (GLOBALVAR_DATA, Bytes)
  end.

Definition initializerOf (i : InitSpec) : Initializer :=
  match i with
  | ZeroFill Size => ZeroInitializer Size
  | Data Bytes => DataInitializer Bytes
  end.

Definition varRecords (v : VarSpec) : list (GlobalVarCode * list Z) :=
  (GLOBALVAR_VAR, [AlignPower v; IsConst v])
  :: (if (length (Inits v) =? 1)%nat then []
      else [(GLOBALVAR_COMPOUND, [Z.of_nat (length (Inits v))])])
  ++ (initRecord <$> Inits v).

Definition globalsBlock (Vars : list VarSpec)
  : list (GlobalVarCode * list Z) :=
  (GLOBALVAR_COUNT, [Z.of_nat (length Vars)]) :: flat_map varRecords Vars.

(** The variable has an initializer, fewer than [2 ^ 32] of them, and no
    data record without bytes. *)
Definition wellFormedVar (v : VarSpec) : Prop :=
  (1 <= length (Inits v))%nat /\ Z.of_nat (length (Inits v)) < 2^32 /\
  Forall (fun i => match i with Data [] => False | _ => True end) (Inits v).

(** The declaration that the records of a variable stand for. *)
Definition declarationOf (v : VarSpec) : VariableDeclaration :=
  mkVariableDeclaration "" false
    (to_uint32 (int32_shr (int32_shl 1 (AlignPower v)) 1))
    (negb (IsConst v =? 0)) (initializerOf <$> Inits v).

(** A state of the globals parser on the top-level parser [C] with the
    variable declarations [Decls]. *)
Definition globalsState (C : TopLevelParser) (Decls : list VariableDeclaration)
    (Needed Next : Z) (Cur : option nat) : GlobalsParser :=
  mkGlobalsParser (setVariableDeclarations Decls C) Needed Next
                  newVariableDeclaration Cur.

(** The settings of the examples: error recovery, and IR generation. *)
Definition exampleFlags : ClFlags := mkClFlags true false.

(** The types block of the examples: [void], [i32], the signature
    [i32 (i32)] and [f64], with the type IDs 0 to 3. *)
Definition exampleTypes : TypesParser :=
  finalState
    (ProcessRecords (fun '(Code, Values) => TypesParser_ProcessRecord Code Values)
       [(TYPE_CODE_NUMENTRY, [4]); (TYPE_CODE_VOID, []);
        (TYPE_CODE_INTEGER, [32]); (TYPE_CODE_FUNCTION, [0; 1; 1]);
        (TYPE_CODE_DOUBLE, [])]
       (newTypesParser (newTopLevelParser exampleFlags))).

(** The top-level parser of the examples when it enters the function
    block: the types above and one function, [f], with the signature
    [i32 (i32)].  The value IDs are 0 for [f], 1 for its argument, and 2
    for the first instruction. *)
Definition exampleContext : TopLevelParser :=
  declareFunction
    (mkFunctionDeclaration "f" false (mkFuncSigType IceType_i32 [IceType_i32])
                           false)
    false (TypesContext exampleTypes).

(** The function parser of the examples after the records given. *)
Definition exampleFunctionParser (Records : list (FunctionCode * list Z))
  : FunctionParser :=
  match FunctionParser_new exampleContext with
  | Aborts s => s
  | Returns _ s =>
      finalState
        (ProcessRecords
           (fun '(Code, Values) =>
              ProcessRecord (Collab := exampleCollaborators) Code Values)
           Records s)
  end.

(** Two states of the function parser have the same module: the settings,
    the type table, the declarations of the functions and of the global
    variables, and the function blocks counted. *)
Definition sameModule (s s' : FunctionParser) : Prop :=
  Flags (Context s') = Flags (Context s) /\
  TypeIDValues (Context s') = TypeIDValues (Context s) /\
  FunctionDeclarationList (Context s') = FunctionDeclarationList (Context s) /\
  VariableDeclarations (Context s') = VariableDeclarations (Context s) /\
  NumFunctionIds (Context s') = NumFunctionIds (Context s) /\
  NumFunctionBlocks (Context s') = NumFunctionBlocks (Context s) /\
  DefiningFunctionDeclarationsList (Context s')
  = DefiningFunctionDeclarationsList (Context s).

(** The top-level parser [C'] holds the diagnostics of [C] and then the
    diagnostics [New]; the count has gone up by their number, as a
    [uint32_t], and the error status is set when there is one. *)
Definition reported (New : list Message) (C C' : TopLevelParser) : Prop :=
  ErrStream C' = ErrStream C ++ New /\
  match New with
  | [] => NumErrors C' = NumErrors C /\ ErrorStatus C' = ErrorStatus C
  | _ :: _ =>
      NumErrors C' = to_uint32 (NumErrors C + Z.of_nat (length New)) /\
      ErrorStatus C' = true
  end.

Definition moreDiagnostics (s s' : FunctionParser) : Prop :=
  exists New, reported New (Context s) (Context s').

(** The names of the global declarations by value ID, each with its flag
    that suppresses the mangling: the functions come first, and the
    global variables follow. *)
Definition globalNames (C : TopLevelParser) : list (string * bool) :=
  ((fun D => (FuncName D, FuncSuppressMangling D))
     <$> FunctionDeclarationList C)
  ++ ((fun D => (VarName D, VarSuppressMangling D))
        <$> VariableDeclarations C).

(** The top-level parser after the function address records [Decls] of
    the module block, each a declaration with the flag that says whether
    it is a prototype. *)
Definition declareFunctions (Decls : list (FunctionDeclaration * bool))
    (C : TopLevelParser) : TopLevelParser :=
  fold_left (fun C D => declareFunction (fst D) (snd D) C) Decls C.

(** The declarations of [Decls] that are no prototypes, in order. *)
Definition definingDeclarations (Decls : list (FunctionDeclaration * bool))
  : list FunctionDeclaration :=
  fst <$> filter (fun D => snd D = false) Decls.

(** The IDs in [IDs] are the positions in [Fcns] of the declarations
    [Defs], one by one. *)
Definition positions (Fcns : list FunctionDeclaration) (IDs : list Z)
    (Defs : list FunctionDeclaration) : Prop :=
  Forall2 (fun ID Fcn => 0 <= ID /\ Fcns !! Z.to_nat ID = Some Fcn) IDs Defs.

(** The constant that a record of the constants block stands for when
    the type [T] is pending, if any. *)
Definition constantOf {Globals : GlobalContext} (T : IceType)
    (Code : ConstantsCode) (Values : list Z) : option Operand :=
  if decide (T = IceType_void) then None
  else
    match Code, Values with
    | CST_CODE_UNDEF, [] => Some (ConstantUndef T)
    | CST_CODE_INTEGER, [V] =>
        if isScalarIntegerType T
        then getConstantInt T
               (getSExtValue (getScalarIntBitWidth T)
                  (naclbitc.NaClDecodeSignRotatedValue V))
        else None
    | CST_CODE_FLOAT, [V] =>
        match T with
        | IceType_f32 => Some (ConstantFloat (to_uint32 V))
        | IceType_f64 => Some (ConstantDouble (to_uint64 V))
        | _ => None
        end
    | _, _ => None
    end.

(** The type that is pending after a SETTYPE record with the type ID
    [V]: the simple type with this ID, and [void] when there is none. *)
Definition pendingTypeOf (Tbl : list ExtendedType) (V : Z) : IceType :=
  match Tbl !! Z.to_nat (to_uint32 V) with
  | Some E =>
      if decide (Kind E = Simple) then SigReturnType (Signature E)
      else IceType_void
  | None => IceType_void
  end.

(** The message of a SETTYPE record that leaves [void] pending. *)
Definition setTypeVoid : Message :=
  [Str "constants block set type not allowed for void type"].

(** A pool of integer constants, for the examples: a constant of 64 bits
    for [i64], and one of 32 bits for the narrower scalar integer
    types. *)
Definition exampleGlobals : GlobalContext := {|
  getConstantInt T V :=
    if decide (T = IceType_i64) then Some (ConstantInteger64 V)
    else if isScalarIntegerType T then Some (ConstantInteger32 T V)
    else None
|}.

(** The jumps of the text of a branch instruction, each with the
    condition under which it is taken and its target: a [b] without a
    predicate is taken always. *)
Fixpoint jumpsOf {Cond : Type} (AL Pending : Cond)
    (Items : list (ARM32Emit.BrEmitItem (Cond := Cond)))
  : list (Cond * ARM32Emit.BrEmitItem (Cond := Cond)) :=
  match Items with
  | [] => []
  | ARM32Emit.BrText _ :: Items' => jumpsOf AL Pending Items'
  | ARM32Emit.BrPredicate C :: Items' => jumpsOf AL C Items'
  | Target :: Items' => (Pending, Target) :: jumpsOf AL AL Items'
  end.

(** Where the control goes from a list of jumps, when [holds] says which
    conditions hold: to the target of the first jump that is taken, and
    to [Next], the code that follows, when none is. *)
Fixpoint goesTo {Cond : Type} (holds : Cond -> bool)
    (Jumps : list (Cond * ARM32Emit.BrEmitItem (Cond := Cond)))
    (Next : ARM32Emit.BrEmitItem (Cond := Cond))
  : ARM32Emit.BrEmitItem (Cond := Cond) :=
  match Jumps with
  | [] => Next
  | (C, Target) :: Jumps' =>
      if holds C then Target else goesTo holds Jumps' Next
  end.

(** The text of a branch instruction in the assembly: a deleted
    instruction is not written. *)
Definition emitted {Cond : Type} `{EqDecision Cond} (AL : Cond)
    (Br : ARM32.InstARM32Br (Cond := Cond))
  : option (list (ARM32Emit.BrEmitItem (Cond := Cond))) :=
  if ARM32.Deleted Br then Some [] else ARM32Emit.InstARM32Br_emit AL true Br.

End Spec.
(** * Properties

    ** Machine integers *)

Lemma to_uint32_range z : 0 <= to_uint32 z < 2^32.
Proof. unfold to_uint32. apply Z.mod_pos_bound. lia. Qed.

Lemma to_uint32_small z : 0 <= z < 2^32 -> to_uint32 z = z.
Proof. intros. unfold to_uint32. apply Z.mod_small. lia. Qed.

Lemma to_int32_range z : - 2^31 <= to_int32 z < 2^31.
Proof.
  unfold to_int32. pose proof (Z.mod_pos_bound (z + 2^31) (2^32)). lia.
Qed.

Lemma to_int32_small z : - 2^31 <= z < 2^31 -> to_int32 z = z.
Proof. intros. unfold to_int32. rewrite Z.mod_small; lia. Qed.

Lemma to_uint32_testbit z i :
  Z.testbit (to_uint32 z) i = (i <? 32) && Z.testbit z i.
Proof.
  unfold to_uint32. destruct (Z.ltb_spec i 32).
  - destruct (Z.neg_nonneg_cases i) as [Hn|Hp].
    + rewrite !Z.testbit_neg_r by lia. reflexivity.
    + rewrite Z.mod_pow2_bits_low by lia. reflexivity.
  - rewrite Z.mod_pow2_bits_high by lia. reflexivity.
Qed.

Lemma uint32_testbit_high v i :
  0 <= v < 2^32 -> 32 <= i -> Z.testbit v i = false.
Proof.
  intros Hv Hi. rewrite <- (Z.mod_small v (2^32)) by lia.
  apply Z.mod_pow2_bits_high. lia.
Qed.


(** ** Rotations of 32-bit values *)

Lemma rotateLeft32_testbit v s i :
  0 <= v < 2^32 -> 0 < s < 32 -> 0 <= i < 32 ->
  Z.testbit (Utils.rotateLeft32 v s) i = Z.testbit v ((i - s) mod 32).
Proof.
  intros Hv Hs Hi. unfold Utils.rotateLeft32.
  destruct (Z.eqb_spec s 0); [lia|].
  rewrite Z.lor_spec, to_uint32_testbit, Z.shiftl_spec, Z.shiftr_spec by lia.
  replace (i <? 32) with true by (symmetry; apply Z.ltb_lt; lia). simpl.
  destruct (Z_lt_le_dec i s).
  - rewrite (Z.testbit_neg_r v (i - s)) by lia. simpl.
    f_equal. replace (i - s) with (i + (32 - s) + (-1) * 32) by lia.
    rewrite Z.mod_add by lia. rewrite Z.mod_small; lia.
  - rewrite (uint32_testbit_high v (i + (32 - s))) by lia.
    rewrite orb_false_r. f_equal. rewrite Z.mod_small; lia.
Qed.

Lemma rotateRight32_testbit v s i :
  0 <= v < 2^32 -> 0 < s < 32 -> 0 <= i < 32 ->
  Z.testbit (Utils.rotateRight32 v s) i = Z.testbit v ((i + s) mod 32).
Proof.
  intros Hv Hs Hi. unfold Utils.rotateRight32.
  destruct (Z.eqb_spec s 0); [lia|].
  rewrite Z.lor_spec, to_uint32_testbit, Z.shiftl_spec, Z.shiftr_spec by lia.
  replace (i <? 32) with true by (symmetry; apply Z.ltb_lt; lia). simpl.
  destruct (Z_lt_le_dec (i + s) 32).
  - rewrite (Z.testbit_neg_r v (i - (32 - s))) by lia.
    rewrite orb_false_r. f_equal. rewrite Z.mod_small; lia.
  - rewrite (uint32_testbit_high v (i + s)) by lia. simpl.
    f_equal. replace (i + s) with (i - (32 - s) + 1 * 32) by lia.
    rewrite Z.mod_add by lia. rewrite Z.mod_small; lia.
Qed.

Lemma rotateLeft32_range v s :
  0 <= v < 2^32 -> 0 <= s < 32 -> 0 <= Utils.rotateLeft32 v s < 2^32.
Proof.
  intros Hv Hs. unfold Utils.rotateLeft32.
  destruct (Z.eqb_spec s 0); [lia|].
  pose proof (to_uint32_range (Z.shiftl v s)) as Hl.
  assert (0 <= Z.shiftr v (32 - s) < 2^32) as Hr.
  { rewrite Z.shiftr_div_pow2 by lia. split.
    - apply Z.div_pos; lia.
    - apply Z.div_lt_upper_bound; [lia|].
      assert (1 <= 2 ^ (32 - s)) by (apply (Z.pow_le_mono_r 2 0); lia). nia. }
  split.
  - apply Z.lor_nonneg. lia.
  - destruct (Z.eq_dec (Z.lor (to_uint32 (Z.shiftl v s)) (Z.shiftr v (32 - s))) 0)
      as [->|Hne]; [lia|].
    apply Z.log2_lt_cancel. rewrite Z.log2_lor by lia.
    change (Z.log2 (2 ^ 32)) with 32.
    apply Z.max_lub_lt.
    + destruct (Z.eq_dec (to_uint32 (Z.shiftl v s)) 0) as [->|]; [simpl; lia|].
      apply Z.log2_lt_pow2; lia.
    + destruct (Z.eq_dec (Z.shiftr v (32 - s)) 0) as [->|]; [simpl; lia|].
      apply Z.log2_lt_pow2; lia.
Qed.

(** Rotating right undoes rotating left by the same count. *)
Lemma rotateRight32_rotateLeft32 v s :
  0 <= v < 2^32 -> 0 <= s < 32 ->
  Utils.rotateRight32 (Utils.rotateLeft32 v s) s = v.
Proof.
  intros Hv Hs.
  destruct (Z.eq_dec s 0) as [->|Hs0]; [reflexivity|].
  pose proof (rotateLeft32_range v s Hv Hs) as Hx.
  apply Z.bits_inj'. intros i Hi.
  destruct (Z_lt_le_dec i 32).
  - rewrite rotateRight32_testbit by lia.
    rewrite rotateLeft32_testbit
      by (try lia; apply Z.mod_pos_bound; lia).
    f_equal. rewrite Zminus_mod_idemp_l.
    replace (i + s - s) with i by lia. apply Z.mod_small; lia.
  - rewrite (uint32_testbit_high v i) by lia.
    unfold Utils.rotateRight32. destruct (Z.eqb_spec s 0); [lia|].
    rewrite Z.lor_spec, to_uint32_testbit, Z.shiftr_spec by lia.
    rewrite (uint32_testbit_high _ (i + s)) by lia.
    replace (i <? 32) with false by (symmetry; apply Z.ltb_ge; lia).
    reflexivity.
Qed.

(** ** The flexible immediate encoder *)

Lemma canHoldImm_loop_Some Rots v rot imm8 :
  ARM32.canHoldImm_loop Rots v = Some (rot, imm8) ->
  rot ∈ Rots /\ imm8 = Utils.rotateLeft32 v (2 * rot) /\ imm8 <= 255.
Proof.
  induction Rots as [|Rot Rots IH]; simpl; [discriminate|].
  destruct (Z.leb_spec (Utils.rotateLeft32 v (2 * Rot)) 255) as [Hle|Hgt].
  - intros [= <- <-]. split; [left|split; [reflexivity|exact Hle]].
  - intros H. destruct (IH H) as (Hin & Heq & Hle).
    split; [right; exact Hin|split; assumption].
Qed.

Lemma canHoldImm_loop_None Rots v :
  ARM32.canHoldImm_loop Rots v = None ->
  forall rot, rot ∈ Rots -> 255 < Utils.rotateLeft32 v (2 * rot).
Proof.
  induction Rots as [|Rot Rots IH]; simpl; intros H rot Hin.
  - inversion Hin.
  - destruct (Z.leb_spec (Utils.rotateLeft32 v (2 * Rot)) 255) as [Hle|Hgt];
      [discriminate|].
    inversion Hin; subst; [exact Hgt|]. apply IH; assumption.
Qed.

(** C2.  A 32-bit immediate is accepted by [canHoldImm] exactly when some
    rotation to the left by an even count between 0 and 30 brings it to at
    most 0xFF; the outputs of an accepted immediate are a rotation count
    below 16 and an 8-bit value, and rotating that value to the right by
    twice the count gives the immediate back; an immediate of at most 0xFF
    is accepted with rotation count 0. *)
Theorem canHoldImm_representable_roundtrip (v : Z) (Hv : 0 <= v < 2^32) :
  (is_Some (ARM32.canHoldImm v) <->
     exists k, 0 <= k <= 30 /\ Z.even k = true
               /\ Utils.rotateLeft32 v k <= 255) /\
  (forall rot imm8, ARM32.canHoldImm v = Some (rot, imm8) ->
     0 <= rot < 16 /\ 0 <= imm8 <= 255
     /\ Utils.rotateRight32 imm8 (2 * rot) = v) /\
  (v <= 255 -> ARM32.canHoldImm v = Some (0, v)).
Proof.
  assert (Hloop : forall rot imm8,
             ARM32.canHoldImm_loop (seqZ 1 15) v = Some (rot, imm8) ->
             1 <= rot < 16 /\ imm8 = Utils.rotateLeft32 v (2 * rot)
             /\ imm8 <= 255).
  { intros rot imm8 H. apply canHoldImm_loop_Some in H.
    destruct H as (Hin & Heq & Hle). apply elem_of_seqZ in Hin.
    split; [lia|split; assumption]. }
  split; [|split].
  - unfold ARM32.canHoldImm. destruct (Z.leb_spec v 255) as [Hle|Hgt].
    + split; [|intros _; eexists; reflexivity].
      intros _. exists 0. split; [lia|split; [reflexivity|exact Hle]].
    + split.
      * intros [[rot imm8] H]. destruct (Hloop _ _ H) as (Hr & Heq & Hle).
        exists (2 * rot). split; [lia|split].
        -- rewrite Z.even_mul. reflexivity.
        -- rewrite <- Heq. exact Hle.
      * intros (k & Hk & Hev & Hle).
        destruct (ARM32.canHoldImm_loop (seqZ 1 15) v) as [p|] eqn:E;
          [eexists; reflexivity|exfalso].
        apply Z.even_spec in Hev. destruct Hev as [rot ->].
        destruct (Z.eq_dec rot 0) as [->|Hne].
        { change (Utils.rotateLeft32 v (2 * 0)) with v in Hle. lia. }
        pose proof (canHoldImm_loop_None _ _ E rot) as Hn.
        assert (rot ∈ seqZ 1 15) as Hin by (apply elem_of_seqZ; lia).
        specialize (Hn Hin). lia.
  - intros rot imm8. unfold ARM32.canHoldImm.
    destruct (Z.leb_spec v 255) as [Hle|Hgt].
    + intros [= <- <-]. split; [lia|split; [lia|reflexivity]].
    + intros H. destruct (Hloop _ _ H) as (Hr & Heq & Hle).
      pose proof (rotateLeft32_range v (2 * rot) Hv ltac:(lia)) as Hx.
      subst imm8. split; [lia|split; [lia|]].
      apply rotateRight32_rotateLeft32; lia.
  - intros Hle. unfold ARM32.canHoldImm.
    destruct (Z.leb_spec v 255); [reflexivity|lia].
Qed.

(** The immediate 0x3FC is 0xFF rotated right by 30: it is accepted with
    rotation count 15. *)
Lemma canHoldImm_representable_roundtrip_witness :
  ARM32.canHoldImm 1020 = Some (15, 255) /\
  Utils.rotateRight32 255 (2 * 15) = 1020.
Proof.
  pose proof (canHoldImm_representable_roundtrip 1020 ltac:(lia)) as (_ & H & _).
  split; [reflexivity|]. apply (H 15 255). reflexivity.
Defined.

(** ** Branch optimization *)

Section BranchFacts.

Context {Cond : Type} `{EqDecision Cond}.
Variable AL : Cond.
Variable Opposite : Cond -> Cond.

Local Abbreviation optimize := (ARM32.optimizeBranch AL Opposite).

(** A null successor, an intra-block label or a missing false target
    leave the branch alone. *)
Lemma optimizeBranch_guards (Br : ARM32.InstARM32Br) NextNode :
  NextNode = None \/ ARM32.Label Br <> None \/ ARM32.TargetFalse Br = None ->
  optimize Br NextNode = (false, Br).
Proof.
  unfold ARM32.optimizeBranch. intros [->|[Hl| ->]]; [reflexivity| |].
  - destruct NextNode; [|reflexivity].
    destruct (ARM32.Label Br); [reflexivity|congruence].
  - destruct NextNode; [|reflexivity].
    destruct (ARM32.Label Br); reflexivity.
Qed.

(** C3, as the code has it.  For a branch between nodes (no intra-block
    label) and a successor [Next]: an unconditional branch to [Next] is
    deleted; a conditional branch whose false target is [Next] loses its
    false target; a conditional branch whose true target is [Next] and
    whose false target is another node gets that node as its true
    target, no false target and the opposite predicate.  A second call
    with the same successor leaves the instruction as the first call
    left it; it returns [false], except for the unconditional branch to
    [Next], where it returns [true] again. *)
Theorem optimizeBranch_cases_and_second_call
    (Br : ARM32.InstARM32Br) (Next : nat) (HLabel : ARM32.Label Br = None) :
  let r := optimize Br (Some Next) in
  (ARM32.Predicate Br = AL -> ARM32.TargetFalse Br = Some Next ->
     r = (true, ARM32.setDeleted Br)) /\
  (ARM32.Predicate Br <> AL -> ARM32.TargetFalse Br = Some Next ->
     r = (true, ARM32.mkBr (ARM32.TargetTrue Br) None None
                           (ARM32.Predicate Br) (ARM32.Deleted Br))) /\
  (forall Other, ARM32.Predicate Br <> AL ->
     ARM32.TargetTrue Br = Some Next ->
     ARM32.TargetFalse Br = Some Other -> Other <> Next ->
     r = (true, ARM32.mkBr (Some Other) None None
                           (Opposite (ARM32.Predicate Br))
                           (ARM32.Deleted Br))) /\
  snd (optimize (snd r) (Some Next)) = snd r /\
  fst (optimize (snd r) (Some Next)) =
    ARM32.isUnconditionalBranch AL Br
    && bool_decide (ARM32.TargetFalse Br = Some Next).
Proof.
  destruct Br as [TT TF L P D]. simpl in HLabel. subst L.
  unfold ARM32.optimizeBranch, ARM32.isUnconditionalBranch,
    ARM32.setDeleted, ARM32.getOppositeCondition. simpl.
  repeat split.
  - intros -> ->. rewrite !bool_decide_eq_true_2 by reflexivity.
    reflexivity.
  - intros HP ->. rewrite (bool_decide_eq_false_2 (P = AL)) by exact HP.
    rewrite bool_decide_eq_true_2 by reflexivity. reflexivity.
  - intros Other HP -> -> Hne.
    rewrite (bool_decide_eq_false_2 (P = AL)) by exact HP.
    rewrite (bool_decide_eq_false_2 (Some Other = Some Next)) by congruence.
    rewrite bool_decide_eq_true_2 by reflexivity. reflexivity.
  - destruct TF as [F|]; simpl;
      repeat (case_bool_decide; simpl); simplify_eq; try reflexivity;
      repeat (case_bool_decide; simpl); simplify_eq; reflexivity.
  - destruct TF as [F|]; simpl;
      repeat (case_bool_decide; simpl); simplify_eq; try reflexivity;
      repeat (case_bool_decide; simpl); simplify_eq; reflexivity.
Qed.

End BranchFacts.

(** A conditional branch [bne] with true target 1 and false target 2, laid
    out before node 1: the targets are exchanged, the predicate becomes
    [eq], and a second call changes nothing and returns [false]. *)
Lemma optimizeBranch_cases_and_second_call_witness :
  let Br := ARM32.mkBr (Some 1%nat) (Some 2%nat) None ARM32.NE false in
  let r := ARM32.optimizeBranch ARM32.AL ARM32.CondARM32_Opposite Br
             (Some 1%nat) in
  r = (true, ARM32.mkBr (Some 2%nat) None None ARM32.EQ false) /\
  ARM32.optimizeBranch ARM32.AL ARM32.CondARM32_Opposite (snd r) (Some 1%nat)
    = (false, snd r).
Proof.
  intros Br r.
  pose proof (optimizeBranch_cases_and_second_call ARM32.AL
                ARM32.CondARM32_Opposite Br 1%nat eq_refl)
    as (_ & _ & Hswap & Hsame & Hret).
  split.
  - apply (Hswap 2%nat); [discriminate|reflexivity|reflexivity|lia].
  - apply injective_projections; [exact Hret|exact Hsame].
Defined.

(** C3, as stated, fails on the second call: the unconditional branch to
    node 1, laid out before node 1, is deleted by the first call, and the
    second call returns [true] once more. *)
Lemma optimizeBranch_second_call_counterexample :
  let Br := ARM32.mkBr None (Some 1%nat) None ARM32.AL false in
  let r := ARM32.optimizeBranch ARM32.AL ARM32.CondARM32_Opposite Br
             (Some 1%nat) in
  r = (true, ARM32.setDeleted Br) /\
  fst (ARM32.optimizeBranch ARM32.AL ARM32.CondARM32_Opposite (snd r)
         (Some 1%nat)) <> false.
Proof. split; [reflexivity|discriminate]. Qed.

(** ** The monad of the record handlers *)

Section MonadFacts.

Context {S : Type} `{PNaCl.BlockParser S}.

Lemma bind_Returns {A B} (m : PNaCl.M S A) (k : A -> PNaCl.M S B) s a s1 :
  m s = PNaCl.Returns a s1 -> PNaCl.bind m k s = k a s1.
Proof. intros E. unfold PNaCl.bind. rewrite E. reflexivity. Qed.

Lemma bind_Aborts {A B} (m : PNaCl.M S A) (k : A -> PNaCl.M S B) s s1 :
  m s = PNaCl.Aborts s1 -> PNaCl.bind m k s = PNaCl.Aborts s1.
Proof. intros E. unfold PNaCl.bind. rewrite E. reflexivity. Qed.

(** With error recovery, [Error] writes the diagnostic and returns; without
    it, it writes the diagnostic and ends the process. *)
Lemma Error_recovery Msg (s : S) :
  PNaCl.AllowErrorRecovery
    (PNaCl.Flags (PNaCl.getContext
       (PNaCl.setContext (PNaCl.recordError Msg (PNaCl.getContext s)) s)))
    = true ->
  PNaCl.Error Msg s
  = PNaCl.Returns tt
      (PNaCl.setContext (PNaCl.recordError Msg (PNaCl.getContext s)) s).
Proof.
  intros E. unfold PNaCl.Error, PNaCl.bind, PNaCl.modify, PNaCl.context.
  rewrite E. reflexivity.
Qed.

Lemma Error_fail_fast Msg (s : S) :
  PNaCl.AllowErrorRecovery
    (PNaCl.Flags (PNaCl.getContext
       (PNaCl.setContext (PNaCl.recordError Msg (PNaCl.getContext s)) s)))
    = false ->
  PNaCl.Error Msg s
  = PNaCl.Aborts
      (PNaCl.setContext (PNaCl.recordError Msg (PNaCl.getContext s)) s).
Proof.
  intros E. unfold PNaCl.Error, PNaCl.bind, PNaCl.modify, PNaCl.context.
  rewrite E. reflexivity.
Qed.

End MonadFacts.

(** ** Relative value indices *)

Section FunctionParserFacts.

Context `{PNaCl.Collaborators}.


End FunctionParserFacts.



(** ** The FUNCTION record of the types block *)

Local Open Scope parser_scope.

Section TypesFacts.

Import Ice PNaCl.

Lemma alter_as_insert {A} (f : A -> A) (i : nat) (x : A) (l : list A) :
  l !! i = Some x -> alter f i l = <[i := f x]> l.
Proof.
  intros H. apply list_eq. intros j.
  destruct (decide (j = i)) as [->|Hne].
  - rewrite list_lookup_alter_eq, H, list_lookup_insert_eq;
      [reflexivity|apply lookup_lt_Some in H; exact H].
  - rewrite list_lookup_alter_ne, list_lookup_insert_ne by congruence.
    reflexivity.
Qed.

Lemma getTypeByIDAsKind_run (ID : Z) (K : TypeKind) (E : ExtendedType)
    (s : TypesParser) :
  0 <= ID ->
  TypeIDValues (TypesContext s) !! Z.to_nat ID = Some E ->
  Kind E = K ->
  getTypeByIDAsKind ID K s = Returns (Some (Z.to_nat ID)) s.
Proof.
  intros H0 HE HK. unfold getTypeByIDAsKind, context, bind, get, ret.
  simpl (getContext _).
  assert (HLt : (ID <? Z.of_nat (length (TypeIDValues (TypesContext s)))) = true).
  { apply Z.ltb_lt. apply lookup_lt_Some in HE. lia. }
  rewrite HLt, HE. destruct (decide (Kind E = K)); [reflexivity|contradiction].
Qed.

Lemma getSimpleTypeByID_run (V : Z) (s : TypesParser) :
  Spec.isSimpleTypeID (TypeIDValues (TypesContext s)) V ->
  getSimpleTypeByID (to_uint32 V) s
  = Returns (Spec.simpleTypeOf (TypeIDValues (TypesContext s)) V) s.
Proof.
  intros (E & HE & HK). unfold getSimpleTypeByID. unfold bind at 1.
  rewrite (getTypeByIDAsKind_run _ _ E) by
    (try apply to_uint32_range; assumption).
  unfold context, bind, get, ret. simpl (getContext _).
  unfold Spec.simpleTypeOf. reflexivity.
Qed.

Lemma appendArgTypes_run (Rest : list Z) (T : nat) (i : Z) (E : ExtendedType)
    (s : TypesParser) :
  TypeIDValues (TypesContext s) !! T = Some E ->
  Kind E <> Simple ->
  Forall (Spec.isSimpleTypeID (TypeIDValues (TypesContext s))) Rest ->
  TypesParser_appendArgTypes T i Rest s
  = Returns tt
      (mkTypesParser
         (setTypeIDValues
            (<[T := mkExtendedType (Kind E)
                      (mkFuncSigType (SigReturnType (Signature E))
                         (SigArgList (Signature E)
                          ++ (Spec.recoverVoid
                                <$> (Spec.simpleTypeOf
                                       (TypeIDValues (TypesContext s))
                                       <$> Rest))))]>
               (TypeIDValues (TypesContext s)))
            (TypesContext s))
         (NextTypeId s)).
Proof.
  revert i E s. induction Rest as [|V Rest IH]; intros i E s HT HK HAll.
  - simpl. rewrite app_nil_r. unfold ret.
    rewrite list_insert_id.
    + destruct s as [C N]. destruct C. reflexivity.
    + rewrite HT. destruct E as [K [R A]]. reflexivity.
  - apply Forall_cons in HAll. destruct HAll as [HV HAll].
    simpl TypesParser_appendArgTypes. unfold bind at 1.
    rewrite (getSimpleTypeByID_run V s HV).
    unfold bind at 1. unfold updateType, modifyContext, modify.
    simpl (getContext _). simpl (setContext _ _).
    rewrite (alter_as_insert _ _ _ _ HT).
    set (E1 := appendArgType _ E).
    set (s1 := mkTypesParser _ _).
    assert (HSame : forall W, Spec.isSimpleTypeID (TypeIDValues (TypesContext s)) W ->
              Z.to_nat (to_uint32 W) <> T).
    { intros W (EW & HW & HKW) Heq. rewrite Heq, HT in HW. inversion HW.
      subst EW. contradiction. }
    assert (HT1 : TypeIDValues (TypesContext s1) !! T = Some E1).
    { subst s1. simpl. apply list_lookup_insert_eq. apply lookup_lt_Some in HT. exact HT. }
    assert (HAll1 : Forall (Spec.isSimpleTypeID (TypeIDValues (TypesContext s1))) Rest).
    { eapply Forall_impl; [exact HAll|]. intros W HW.
      destruct HW as (EW & HW & HKW). exists EW. split; [|exact HKW].
      subst s1. simpl. rewrite list_lookup_insert_ne; [exact HW|].
      intros Heq. apply (HSame W); [exists EW; split; assumption|]. symmetry. exact Heq. }
    rewrite (IH (i + 1) E1 s1 HT1 HK HAll1).
    assert (HTail : Spec.simpleTypeOf (TypeIDValues (TypesContext s1)) <$> Rest
                    = Spec.simpleTypeOf (TypeIDValues (TypesContext s)) <$> Rest).
    { apply Forall_fmap_ext_1. eapply Forall_impl; [exact HAll|].
      intros W HW. unfold Spec.simpleTypeOf. subst s1. simpl.
      rewrite list_lookup_insert_ne; [reflexivity|].
      intros Heq. apply (HSame W HW). symmetry. exact Heq. }
    rewrite HTail. subst s1 E1. simpl. unfold setTypeIDValues. simpl.
    rewrite list_insert_insert_eq, <- app_assoc. reflexivity.
Qed.

Lemma getTypeByIDForDefining_run (ID : Z) (E : ExtendedType) (s : TypesParser) :
  0 <= ID ->
  TypeIDValues (TypesContext s) !! Z.to_nat ID = Some E ->
  Kind E = Undefined ->
  getTypeByIDForDefining ID s = Returns (Z.to_nat ID) s.
Proof.
  intros H0 HE HK. unfold getTypeByIDForDefining. unfold bind at 1.
  rewrite (getTypeByIDAsKind_run ID Undefined E s H0 HE HK). reflexivity.
Qed.

(** Claim C5, as the code has it.  A FUNCTION record with at least two
    values, for the next type ID, whose return and parameter type IDs
    name simple types: with a vararg flag that is not zero the diagnostic
    "Function type can't define varargs" is reported, and without error
    recovery the handler stops there.  Otherwise the handler returns, and
    the diagnostic of the vararg flag is the only one: a parameter of type
    [void] is stored as [i32] and NOT reported, neither in the error
    stream nor in the error count.  The source builds the text "Type for
    parameter ... not valid" and drops it. *)
Theorem TypesParser_FUNCTION_record (Values : list Z) (E0 : ExtendedType)
    (s : TypesParser) :
  (2 <= length Values)%nat ->
  0 <= NextTypeId s ->
  TypeIDValues (TypesContext s) !! Z.to_nat (NextTypeId s) = Some E0 ->
  Kind E0 = Undefined ->
  Forall (Spec.isSimpleTypeID (TypeIDValues (TypesContext s))) (drop 1 Values) ->
  (AllowErrorRecovery (Flags (TypesContext s)) = false ->
   at_ Values 0 <> 0 ->
   exists s',
     TypesParser_ProcessRecord TYPE_CODE_FUNCTION Values s = Aborts s' /\
     ErrStream (TypesContext s')
     = ErrStream (TypesContext s) ++ [Spec.varargsError]) /\
  (AllowErrorRecovery (Flags (TypesContext s)) = true \/ at_ Values 0 = 0 ->
   exists s',
     TypesParser_ProcessRecord TYPE_CODE_FUNCTION Values s = Returns tt s' /\
     ErrStream (TypesContext s')
     = ErrStream (TypesContext s)
       ++ (if at_ Values 0 =? 0 then [] else [Spec.varargsError]) /\
     NumErrors (TypesContext s')
     = (if at_ Values 0 =? 0 then NumErrors (TypesContext s)
        else to_uint32 (NumErrors (TypesContext s) + 1)) /\
     TypeIDValues (TypesContext s') !! Z.to_nat (NextTypeId s)
     = Some (mkExtendedType FuncSig
               (mkFuncSigType
                  (Spec.simpleTypeOf (TypeIDValues (TypesContext s))
                                     (at_ Values 1))
                  (SigArgList (Signature E0)
                   ++ (Spec.recoverVoid
                         <$> (Spec.simpleTypeOf
                                (TypeIDValues (TypesContext s))
                                <$> drop 2 Values)))))).
Proof.
  intros HLen H0 HE0 HK0 HAll.
  assert (HSize : isValidRecordSizeAtLeast 2 "signature" Values s
                  = Returns true s).
  { unfold isValidRecordSizeAtLeast.
    assert (H : (2 <=? Z.of_nat (length Values)) = true) by (apply Z.leb_le; lia).
    rewrite H. reflexivity. }
  unfold TypesParser_ProcessRecord.
  split.
  - intros HFast HVar. unfold bind at 1. rewrite HSize.
    cbn [negb]. cbv beta iota. unfold bind at 1. unfold when.
    assert (HNe : (at_ Values 0 =? 0) = false) by (apply Z.eqb_neq; exact HVar).
    rewrite HNe. cbn [negb]. cbv beta iota.
    rewrite (Error_fail_fast [Str "Function type can't define varargs"] s)
      by exact HFast.
    eexists. split; [reflexivity|]. reflexivity.
  - intros HMode.
    assert (HWhen : exists s0,
      when (negb (at_ Values 0 =? 0))
           (Error [Str "Function type can't define varargs"]) s
      = Returns tt s0 /\
      TypeIDValues (TypesContext s0) = TypeIDValues (TypesContext s) /\
      NextTypeId s0 = NextTypeId s /\
      ErrStream (TypesContext s0)
      = ErrStream (TypesContext s)
        ++ (if at_ Values 0 =? 0 then [] else [Spec.varargsError]) /\
      NumErrors (TypesContext s0)
      = (if at_ Values 0 =? 0 then NumErrors (TypesContext s)
         else to_uint32 (NumErrors (TypesContext s) + 1))).
    { unfold when. destruct (at_ Values 0 =? 0) eqn:EV; cbn [negb]; cbv beta iota.
      - exists s. rewrite app_nil_r. repeat split.
      - destruct HMode as [HRec|HZ]; [|apply Z.eqb_neq in EV; contradiction].
        rewrite (Error_recovery _ s) by exact HRec. eexists. split; [reflexivity|].
        repeat split. }
    destruct HWhen as (s0 & EWhen & HTbl & HNext & HErr & HNum).
    unfold bind at 1. rewrite HSize. cbn [negb]. cbv beta iota.
    unfold bind at 1. rewrite EWhen.
    unfold bind at 1. unfold get at 1. unfold bind at 1. unfold put at 1.
    set (s1 := mkTypesParser (TypesContext s0) _).
    assert (HE1 : TypeIDValues (TypesContext s1) !! Z.to_nat (NextTypeId s0)
                  = Some E0).
    { subst s1. simpl. rewrite HTbl, HNext. exact HE0. }
    unfold bind at 1.
    assert (H0' : 0 <= NextTypeId s0) by (rewrite HNext; exact H0).
    rewrite (getTypeByIDForDefining_run (NextTypeId s0) E0 s1 H0' HE1 HK0).
    unfold bind at 1. unfold updateType at 1, modifyContext, modify.
    simpl (getContext _). simpl (setContext _ _).
    rewrite (alter_as_insert _ _ _ _ HE1).
    set (s2 := mkTypesParser _ _).
    assert (HNe : forall W, Spec.isSimpleTypeID (TypeIDValues (TypesContext s)) W ->
              Z.to_nat (to_uint32 W) <> Z.to_nat (NextTypeId s)).
    { intros W (EW & HW & HKW) Heq. rewrite Heq, HE0 in HW. inversion HW.
      subst EW. congruence. }
    assert (HV1 : drop 1 Values = at_ Values 1 :: drop 2 Values).
    { destruct Values as [|a [|b l]]; simpl in HLen; try lia. reflexivity. }
    rewrite HV1 in HAll. apply Forall_cons in HAll. destruct HAll as [HRet HAll].
    assert (HKeep : forall W E' , Spec.isSimpleTypeID (TypeIDValues (TypesContext s)) W ->
      TypeIDValues (TypesContext s0) = TypeIDValues (TypesContext s) ->
      Spec.isSimpleTypeID
        (<[Z.to_nat (NextTypeId s0) := E']> (TypeIDValues (TypesContext s0))) W /\
      Spec.simpleTypeOf
        (<[Z.to_nat (NextTypeId s0) := E']> (TypeIDValues (TypesContext s0))) W
      = Spec.simpleTypeOf (TypeIDValues (TypesContext s)) W).
    { intros W E' HW HT. pose proof (HNe W HW) as HN.
      unfold Spec.isSimpleTypeID, Spec.simpleTypeOf.
      rewrite list_lookup_insert_ne by (rewrite HNext; congruence).
      rewrite HT. split; [exact HW|reflexivity]. }
    unfold bind at 1.
    rewrite (getSimpleTypeByID_run (at_ Values 1) s2)
      by (subst s2 s1; simpl; apply HKeep; assumption).
    unfold bind at 1. unfold updateType at 1, modifyContext, modify.
    simpl (getContext _). simpl (setContext _ _).
    set (RetTy := Spec.simpleTypeOf _ _).
    assert (HRetTy : RetTy = Spec.simpleTypeOf (TypeIDValues (TypesContext s))
                                                (at_ Values 1)).
    { subst RetTy s2 s1. simpl. apply HKeep; assumption. }
    assert (HE2 : TypeIDValues (TypesContext s2) !! Z.to_nat (NextTypeId s0)
                  = Some (setAsFunctionType E0)).
    { subst s2 s1. simpl. apply list_lookup_insert_eq.
      apply lookup_lt_Some in HE1. exact HE1. }
    rewrite (alter_as_insert _ _ _ _ HE2).
    set (s3 := mkTypesParser _ _).
    assert (HE3 : TypeIDValues (TypesContext s3) !! Z.to_nat (NextTypeId s0)
                  = Some (setReturnType RetTy (setAsFunctionType E0))).
    { subst s3. simpl. apply list_lookup_insert_eq.
      rewrite length_insert. apply lookup_lt_Some in HE1. exact HE1. }
    assert (HTbl3 : TypeIDValues (TypesContext s3)
                    = <[Z.to_nat (NextTypeId s0)
                        := setReturnType RetTy (setAsFunctionType E0)]>
                        (TypeIDValues (TypesContext s0))).
    { subst s3 s2 s1. simpl. apply list_insert_insert_eq. }
    assert (HAll3 : Forall (Spec.isSimpleTypeID (TypeIDValues (TypesContext s3)))
                           (drop 2 Values)).
    { eapply Forall_impl; [exact HAll|]. intros W HW. rewrite HTbl3.
      apply HKeep; assumption. }
    assert (HTail : Spec.simpleTypeOf (TypeIDValues (TypesContext s3)) <$> drop 2 Values
                    = Spec.simpleTypeOf (TypeIDValues (TypesContext s)) <$> drop 2 Values).
    { apply Forall_fmap_ext_1. eapply Forall_impl; [exact HAll|].
      intros W HW. rewrite HTbl3. apply HKeep; assumption. }
    rewrite (appendArgTypes_run _ _ _ _ s3 HE3) by (try discriminate; exact HAll3).
    rewrite HTail.
    eexists. split; [reflexivity|].
    split; [exact HErr|]. split; [exact HNum|].
    simpl. rewrite <- HNext, HRetTy. apply list_lookup_insert_eq.
    rewrite !length_insert. apply lookup_lt_Some in HE1. exact HE1.
Qed.

End TypesFacts.

Lemma TypesParser_FUNCTION_record_witness :
  let s := PNaCl.finalState
             (PNaCl.ProcessRecords
                (fun '(Code, Values) =>
                   PNaCl.TypesParser_ProcessRecord Code Values)
                [(PNaCl.TYPE_CODE_NUMENTRY, [3]); (PNaCl.TYPE_CODE_VOID, []);
                 (PNaCl.TYPE_CODE_INTEGER, [32])]
                (PNaCl.newTypesParser
                   (PNaCl.newTopLevelParser Spec.exampleFlags))) in
  Spec.simpleTypeOf (PNaCl.TypeIDValues (PNaCl.TypesContext s)) 0
  = Ice.IceType_void /\
  exists s',
    PNaCl.TypesParser_ProcessRecord PNaCl.TYPE_CODE_FUNCTION [0; 1; 0] s
    = PNaCl.Returns tt s' /\
    PNaCl.ErrStream (PNaCl.TypesContext s') = [] /\
    PNaCl.NumErrors (PNaCl.TypesContext s') = 0 /\
    PNaCl.TypeIDValues (PNaCl.TypesContext s') !! 2%nat
    = Some (PNaCl.mkExtendedType PNaCl.FuncSig
              (Ice.mkFuncSigType Ice.IceType_i32 [Ice.IceType_i32])).
Proof.
  intros s. split; [vm_compute; reflexivity|].
  assert (HLen : (2 <= length [0; 1; 0])%nat) by (simpl; lia).
  assert (H0 : 0 <= PNaCl.NextTypeId s) by (vm_compute; discriminate).
  assert (HE0 : PNaCl.TypeIDValues (PNaCl.TypesContext s)
                  !! Z.to_nat (PNaCl.NextTypeId s)
                = Some (PNaCl.mkExtendedType PNaCl.Undefined
                          (Ice.mkFuncSigType Ice.IceType_void [])))
    by (vm_compute; reflexivity).
  assert (HK0 : PNaCl.Kind (PNaCl.mkExtendedType PNaCl.Undefined
                              (Ice.mkFuncSigType Ice.IceType_void []))
                = PNaCl.Undefined) by reflexivity.
  assert (HAll : Forall (Spec.isSimpleTypeID
                           (PNaCl.TypeIDValues (PNaCl.TypesContext s)))
                        (drop 1 [0; 1; 0])).
  { apply Forall_cons_2; [|apply Forall_cons_2; [|apply Forall_nil_2]].
    - exists (PNaCl.mkExtendedType PNaCl.Simple
                (Ice.mkFuncSigType Ice.IceType_i32 [])).
      split; [vm_compute; reflexivity|reflexivity].
    - exists (PNaCl.mkExtendedType PNaCl.Simple
                (Ice.mkFuncSigType Ice.IceType_void [])).
      split; [vm_compute; reflexivity|reflexivity]. }
  destruct (TypesParser_FUNCTION_record [0; 1; 0] _ s HLen H0 HE0 HK0 HAll)
    as [_ HRun].
  destruct HRun as (s' & E & HErr & HNum & HTy); [right; reflexivity|].
  exists s'. split; [exact E|].
  split; [rewrite HErr; vm_compute; reflexivity|].
  split; [rewrite HNum; vm_compute; reflexivity|].
  exact HTy.
Defined.

(** ** What the handlers leave alone *)

Section Frames.

Context {S : Type} (R : S -> S -> Prop).
Context (R_refl : Reflexive R) (R_trans : Transitive R).

Lemma keeps_ret {A} (a : A) : Spec.keeps R (PNaCl.ret a).
Proof. intros s. simpl. reflexivity. Qed.

Lemma keeps_get : Spec.keeps R PNaCl.get.
Proof. intros s. simpl. reflexivity. Qed.

Lemma keeps_context {BP : PNaCl.BlockParser S} : Spec.keeps R PNaCl.context.
Proof. intros s. simpl. reflexivity. Qed.

Lemma keeps_report_fatal_error {A} :
  Spec.keeps R (PNaCl.report_fatal_error (A := A)).
Proof. intros s. simpl. reflexivity. Qed.

Lemma keeps_modify (f : S -> S) :
  (forall s, R s (f s)) -> Spec.keeps R (PNaCl.modify f).
Proof. intros Hf s. simpl. apply Hf. Qed.

Lemma keeps_bind {A B} (m : PNaCl.M S A) (k : A -> PNaCl.M S B) :
  Spec.keeps R m -> (forall a, Spec.keeps R (k a)) ->
  Spec.keeps R (PNaCl.bind m k).
Proof.
  intros Hm Hk s. unfold PNaCl.bind. specialize (Hm s).
  destruct (m s) as [a s1|s1]; simpl in *; [|exact Hm].
  transitivity s1; [exact Hm|apply Hk].
Qed.

Lemma keeps_when (b : bool) (m : PNaCl.M S unit) :
  Spec.keeps R m -> Spec.keeps R (PNaCl.when b m).
Proof. intros Hm. destruct b; [exact Hm|apply keeps_ret]. Qed.

End Frames.

#[local] Instance sameValues_refl : Reflexive Spec.sameValues.
Proof. intros s. repeat split. Qed.

#[local] Instance sameValues_trans : Transitive Spec.sameValues.
Proof.
  intros s1 s2 s3. unfold Spec.sameValues. intros H12 H23.
  decompose [and] H12. decompose [and] H23.
  repeat split; congruence.
Qed.

#[local] Instance sameFunction_refl : Reflexive Spec.sameFunction.
Proof. intros s. repeat split. Qed.

#[local] Instance sameFunction_trans : Transitive Spec.sameFunction.
Proof.
  intros s1 s2 s3. unfold Spec.sameFunction. intros H12 H23.
  decompose [and] H12. decompose [and] H23.
  repeat split; congruence.
Qed.

(** One step of a proof that a handler keeps a relation: the rule for the
    head of the handler, or a case analysis on what it branches on. *)
Ltac keeps_step :=
  match goal with
  | |- Spec.keeps ?R (PNaCl.bind _ _) => apply (keeps_bind R _); [|intros]
  | |- Spec.keeps ?R (PNaCl.ret _) => apply (keeps_ret R _)
  | |- Spec.keeps ?R PNaCl.get => apply (keeps_get R _)
  | |- Spec.keeps ?R PNaCl.context => apply (keeps_context R _)
  | |- Spec.keeps _ PNaCl.isIRGenerationDisabled =>
      unfold PNaCl.isIRGenerationDisabled
  | |- Spec.keeps ?R PNaCl.report_fatal_error =>
      apply (keeps_report_fatal_error R _)
  | |- Spec.keeps ?R (PNaCl.when _ _) => apply (keeps_when R _)
  | |- Spec.keeps ?R (PNaCl.modify _) =>
      apply (keeps_modify R); intros; repeat split
  | |- Spec.keeps _ (if ?b then _ else _) => destruct b
  | |- Spec.keeps _ (match ?x with _ => _ end) => destruct x
  | |- Spec.keeps _ (let '(_, _) := ?x in _) => destruct x
  end.

Create HintDb keeps.

Ltac keeps_tac := repeat first [solve [auto with keeps] | keeps_step].

Section FrameFacts.

Context {Collab : PNaCl.Collaborators}.

Lemma Error_sameValues Msg :
  Spec.keeps Spec.sameValues (PNaCl.Error (S := PNaCl.FunctionParser) Msg).
Proof. unfold PNaCl.Error. keeps_tac. Qed.

Lemma Error_sameFunction Msg :
  Spec.keeps Spec.sameFunction (PNaCl.Error (S := PNaCl.FunctionParser) Msg).
Proof. unfold PNaCl.Error. keeps_tac. Qed.

Hint Resolve Error_sameValues Error_sameFunction : keeps.

Lemma getSimpleTypeByID_sameFunction ID :
  Spec.keeps Spec.sameFunction
    (PNaCl.getSimpleTypeByID (S := PNaCl.FunctionParser) ID).
Proof.
  unfold PNaCl.getSimpleTypeByID, PNaCl.getTypeByIDAsKind,
    PNaCl.reportBadTypeIDAs.
  keeps_tac.
Qed.

Lemma getOrCreateGlobalConstantByID_sameFunction ID :
  Spec.keeps Spec.sameFunction
    (PNaCl.getOrCreateGlobalConstantByID (S := PNaCl.FunctionParser) ID).
Proof.
  unfold PNaCl.getOrCreateGlobalConstantByID, PNaCl.modifyContext.
  keeps_tac.
Qed.

Hint Resolve getSimpleTypeByID_sameFunction
  getOrCreateGlobalConstantByID_sameFunction : keeps.

Lemma getOperand_sameFunction Index :
  Spec.keeps Spec.sameFunction (PNaCl.getOperand Index).
Proof. unfold PNaCl.getOperand. keeps_tac. Qed.

Lemma convertRelativeToAbsIndex_sameFunction Id BaseIndex :
  Spec.keeps Spec.sameFunction (PNaCl.convertRelativeToAbsIndex Id BaseIndex).
Proof. unfold PNaCl.convertRelativeToAbsIndex. keeps_tac. Qed.

Hint Resolve getOperand_sameFunction convertRelativeToAbsIndex_sameFunction
  : keeps.

Lemma getRelativeOperand_sameFunction Index BaseIndex :
  Spec.keeps Spec.sameFunction (PNaCl.getRelativeOperand Index BaseIndex).
Proof. unfold PNaCl.getRelativeOperand. keeps_tac. Qed.

Hint Resolve getRelativeOperand_sameFunction : keeps.

Lemma getBasicBlock_sameValues Index :
  Spec.keeps Spec.sameValues (PNaCl.getBasicBlock Index).
Proof. unfold PNaCl.getBasicBlock, PNaCl.useFunc. keeps_tac. Qed.

Hint Resolve getBasicBlock_sameValues : keeps.

Lemma ProcessRecord_enterBlock_sameValues :
  Spec.keeps Spec.sameValues PNaCl.ProcessRecord_enterBlock.
Proof. unfold PNaCl.ProcessRecord_enterBlock. keeps_tac. Qed.

End FrameFacts.

(** ** The VAR record of the globals block *)

Section GlobalsFacts.

Import Ice PNaCl.

(** [(1 << p) >> 1] in 32-bit [int] arithmetic, for the powers whose
    shift stays below the sign bit. *)
Lemma shift_alignment (p : Z) :
  0 <= p <= 30 ->
  to_uint32 (int32_shr (int32_shl 1 p) 1) = if p =? 0 then 0 else 2 ^ (p - 1).
Proof.
  intros Hp. unfold int32_shr, int32_shl.
  rewrite Z.shiftl_1_l.
  assert (H2 : 0 < 2 ^ p <= 2 ^ 30).
  { split; [apply Z.pow_pos_nonneg; lia|apply Z.pow_le_mono_r; lia]. }
  rewrite to_int32_small by (change (2 ^ 31) with (2 * 2 ^ 30); lia).
  rewrite Z.shiftr_div_pow2 by lia. change (2 ^ 1) with 2.
  destruct (p =? 0) eqn:E.
  - apply Z.eqb_eq in E. subst p. reflexivity.
  - apply Z.eqb_neq in E.
    replace p with (p - 1 + 1) at 1 by lia.
    rewrite Z.pow_add_r by lia. change (2 ^ 1) with 2.
    rewrite Z.div_mul by lia.
    apply to_uint32_small.
    assert (2 ^ (p - 1) <= 2 ^ 29) by (apply Z.pow_le_mono_r; lia).
    assert (0 < 2 ^ (p - 1)) by (apply Z.pow_pos_nonneg; lia).
    change (2 ^ 32) with (8 * 2 ^ 29). lia.
Qed.

Lemma verifyNoMissingInitializers_run (s : GlobalsParser) :
  AllowErrorRecovery (Flags (GlobalsContext s)) = true \/
  InitializersNeeded s = Z.of_nat (length (Initializers (curGlobalVar s))) ->
  exists s0,
    verifyNoMissingInitializers s = Returns tt s0 /\
    Flags (GlobalsContext s0) = Flags (GlobalsContext s) /\
    VariableDeclarations (GlobalsContext s0)
    = VariableDeclarations (GlobalsContext s) /\
    NextGlobalID s0 = NextGlobalID s.
Proof.
  intros HMode. unfold verifyNoMissingInitializers. unfold bind at 1.
  unfold get at 1.
  destruct (InitializersNeeded s =? _) eqn:E.
  - exists s. repeat split.
  - destruct HMode as [HRec|HEq]; [|apply Z.eqb_neq in E; contradiction].
    unfold bind at 1. rewrite Error_recovery by exact HRec.
    eexists. split; [reflexivity|]. repeat split.
Qed.


End GlobalsFacts.



(** ** Symbolic runs of the handlers *)

Lemma resize_lookup_None {A} (n : nat) (l : list (option A)) (i : nat) :
  (length l <= i)%nat -> mjoin (PNaCl.resize n None l !! i) = None.
Proof.
  intros Hi. unfold PNaCl.resize.
  destruct ((take n l ++ replicate (n - length l) None) !! i) as [x|] eqn:E;
    [|reflexivity].
  apply lookup_app_Some in E. destruct E as [E|[_ E]].
  - apply lookup_lt_Some in E. rewrite length_take in E. lia.
  - apply lookup_replicate in E. destruct E as [-> _]. reflexivity.
Qed.

(** The run of the monadic glue on a state. *)
Ltac mrun :=
  repeat (progress (unfold PNaCl.bind, PNaCl.ret, PNaCl.get, PNaCl.put,
                      PNaCl.modify, PNaCl.when, PNaCl.context,
                      PNaCl.isIRGenerationDisabled, PNaCl.report_fatal_error,
                      PNaCl.Error; simpl)).

Section RunFacts.

Context {Collab : PNaCl.Collaborators}.

Import Ice PNaCl.

(** [getNextInstVar], with IR generation and error recovery, for a type
    other than [void]: the variable is the reserved one or a new one, the
    next-instruction index goes up by one, and the nodes stay as they
    are. *)
Lemma getNextInstVar_run T (s : FunctionParser) :
  T <> IceType_void ->
  DisableIRGeneration (Flags (Context s)) = false ->
  AllowErrorRecovery (Flags (Context s)) = true ->
  exists s',
    getNextInstVar T s = Returns (Spec.nextInstVar T s) s' /\
    NextLocalInstIndex s' = to_uint32 (NextLocalInstIndex s + 1) /\
    Nodes (Func s') = Nodes (Func s) /\
    CurrentNode s' = CurrentNode s /\
    CurrentBbIndex s' = CurrentBbIndex s /\
    InstIsTerminating s' = InstIsTerminating s /\
    OperandLookups s' = OperandLookups s /\
    Flags (Context s') = Flags (Context s) /\
    ErrStream (Context s')
    = ErrStream (Context s) ++ Spec.nextInstVarErrors T s.
Proof.
  intros HT Hdis Hrec.
  unfold getNextInstVar, Spec.nextInstVar, Spec.nextInstVarErrors,
    Spec.reservedValue.
  unfold bind at 1. unfold get at 1.
  set (LocalIndex :=
         to_uint32 (NextLocalInstIndex s - CachedNumGlobalValueIDs s)).
  destruct (if LocalIndex <? Z.of_nat (length (LocalOperands s))
            then mjoin (LocalOperands s !! Z.to_nat LocalIndex) else None)
    as [Op|] eqn:EF.
  - assert (Hfresh : forall Op', exists s',
      (Error (Spec.illegalForwardReference (NextLocalInstIndex s) Op') ;;
       modify (setNextLocalInstIndexField
                 (to_uint32 (NextLocalInstIndex s + 1))) ;;
       createInstVar T)%parser s
      = Returns (IceVariable (length (Variables (Func s))) T) s' /\
      NextLocalInstIndex s' = to_uint32 (NextLocalInstIndex s + 1) /\
      Nodes (Func s') = Nodes (Func s) /\
      CurrentNode s' = CurrentNode s /\
      CurrentBbIndex s' = CurrentBbIndex s /\
      InstIsTerminating s' = InstIsTerminating s /\
      OperandLookups s' = OperandLookups s /\
      Flags (Context s') = Flags (Context s) /\
      ErrStream (Context s')
      = ErrStream (Context s)
        ++ [Spec.illegalForwardReference (NextLocalInstIndex s) Op']).
    { intros Op'. unfold createInstVar, useFunc.
      destruct (decide (T = IceType_void)); [contradiction|].
      repeat (mrun; rewrite ?Hrec, ?Hdis).
      eexists. repeat split. }
    destruct Op; try apply Hfresh.
    case_decide; [|apply Hfresh]. subst. mrun. eexists.
    repeat split. rewrite app_nil_r. reflexivity.
  - unfold createInstVar, useFunc.
    destruct (decide (T = IceType_void)); [contradiction|].
    repeat (mrun; rewrite ?Hrec, ?Hdis). unfold setOperand. mrun.
    fold LocalIndex. rewrite app_nil_r.
    destruct (Z.eqb_spec LocalIndex (Z.of_nat (length (LocalOperands s))))
      as [Heq|Hne].
    + eexists. repeat split.
    + assert (mjoin ((if Z.of_nat (length (LocalOperands s)) <=? LocalIndex
                      then resize (Z.to_nat (to_uint32 (LocalIndex + 1))) None
                                  (LocalOperands s)
                      else LocalOperands s) !! Z.to_nat LocalIndex) = None)
        as ->.
      { destruct (Z.leb_spec (Z.of_nat (length (LocalOperands s))) LocalIndex)
          as [Hle|Hgt].
        - apply resize_lookup_None. lia.
        - destruct (Z.ltb_spec LocalIndex (Z.of_nat (length (LocalOperands s))));
            [exact EF|lia]. }
      eexists. repeat split.
Qed.

(** [appendErrorInstruction], in the same setting: the placeholder assigns
    the variable of [getNextInstVar] to itself, at the end of the current
    node. *)
Lemma appendErrorInstruction_run T (s : FunctionParser) :
  T <> IceType_void ->
  DisableIRGeneration (Flags (Context s)) = false ->
  AllowErrorRecovery (Flags (Context s)) = true ->
  exists s',
    appendErrorInstruction T s = Returns tt s' /\
    NextLocalInstIndex s' = to_uint32 (NextLocalInstIndex s + 1) /\
    Nodes (Func s')
    = alter (appendInst (InstAssign (Spec.nextInstVar T s)
                                    (Spec.nextInstVar T s)))
            (CurrentNode s) (Nodes (Func s)) /\
    CurrentNode s' = CurrentNode s /\
    CurrentBbIndex s' = CurrentBbIndex s /\
    InstIsTerminating s' = InstIsTerminating s /\
    OperandLookups s' = OperandLookups s /\
    Flags (Context s') = Flags (Context s) /\
    ErrStream (Context s')
    = ErrStream (Context s) ++ Spec.nextInstVarErrors T s.
Proof.
  intros HT Hdis Hrec. unfold appendErrorInstruction.
  destruct (decide (T = IceType_void)); [contradiction|].
  destruct (getNextInstVar_run T s HT Hdis Hrec)
    as (s1 & E & HN & HNodes & HCur & HBb & HTerm & HLook & HFlags & HErr).
  rewrite (bind_Returns _ _ _ _ _ E).
  unfold appendToCurrentNode, useFunc. mrun. rewrite HFlags, Hdis. simpl.
  eexists. split; [reflexivity|]. simpl.
  rewrite HNodes, HCur. repeat split; assumption.
Qed.

Lemma keeps_Returns {A} (R : FunctionParser -> FunctionParser -> Prop)
    (m : M FunctionParser A) s a s' :
  Spec.keeps R m -> m s = Returns a s' -> R s s'.
Proof. intros Hm E. specialize (Hm s). rewrite E in Hm. exact Hm. Qed.

Lemma sameFunction_sameValues s s' :
  Spec.sameFunction s s' -> Spec.sameValues s s'.
Proof. unfold Spec.sameFunction, Spec.sameValues. tauto. Qed.

Lemma nextInstVar_sameValues T s s' :
  Spec.sameValues s s' ->
  Spec.nextInstVar T s' = Spec.nextInstVar T s
  /\ Spec.nextInstVarErrors T s' = Spec.nextInstVarErrors T s.
Proof.
  intros (_ & HF & HC & HL & HN).
  unfold Spec.nextInstVar, Spec.nextInstVarErrors, Spec.reservedValue.
  rewrite HF, HC, HL, HN. split; reflexivity.
Qed.

Lemma withError_sameValues Msg (s : FunctionParser) :
  Spec.sameValues s (Spec.withError Msg s).
Proof. repeat split. Qed.

(** C6, as the code has it.  A CAST record asks for a [trunc]; its source
    operand resolves to a value of type [i32] and its type to [f64].
    The diagnostic "Illegal cast: trunc i32 to f64" is written.  Without
    error recovery the process ends there.  With error recovery, the
    current node receives the placeholder that assigns a variable of type
    [f64] to itself, and the next-instruction index goes up by one; the
    variable is the one that a forward type reference has reserved for
    this value ID if there is one of type [f64], and a new one if not. *)
Theorem illegal_cast_placeholder
    (s s1 s2 s3 : FunctionParser) (Ref TypeID Opcode : Z) (Src : Operand)
    (HIR : DisableIRGeneration (Flags (Context s)) = false)
    (HEnter : ProcessRecord_enterBlock s = Returns tt s1)
    (HSrc : getRelativeOperand (to_int32 Ref)
              (to_int32 (NextLocalInstIndex s1)) s1
            = Returns (Some Src) s2)
    (HSrcTy : getType Src = IceType_i32)
    (HTy : getSimpleTypeByID (to_uint32 TypeID) s2 = Returns IceType_f64 s3)
    (HOpc : naclbitc.CastOpcodes_of Opcode = Some naclbitc.CAST_TRUNC) :
  let Msg := Spec.illegalCast InstCast.Trunc IceType_i32 IceType_f64 in
  let Var := Spec.nextInstVar IceType_f64 s in
  messageText Msg = Some "Illegal cast: trunc i32 to f64" /\
  getType Var = IceType_f64 /\
  (AllowErrorRecovery (Flags (Context s)) = false ->
     ProcessRecord FUNC_CODE_INST_CAST [Ref; TypeID; Opcode] s
     = Aborts (Spec.withError Msg s3)) /\
  (AllowErrorRecovery (Flags (Context s)) = true ->
     exists s',
       ProcessRecord FUNC_CODE_INST_CAST [Ref; TypeID; Opcode] s
       = Returns tt s' /\
       ErrStream (Context s')
       = ErrStream (Context s3) ++ [Msg]
         ++ Spec.nextInstVarErrors IceType_f64 s /\
       Nodes (Func s')
       = alter (appendInst (InstAssign Var Var)) (CurrentNode s1)
               (Nodes (Func s)) /\
       NextLocalInstIndex s'
       = to_uint32 (NextLocalInstIndex s + 1)).
Proof.
  intros Msg Var.
  pose proof (keeps_Returns _ _ _ _ _ ProcessRecord_enterBlock_sameValues
                HEnter) as H01.
  pose proof (keeps_Returns _ _ _ _ _
                (getRelativeOperand_sameFunction _ _) HSrc) as H12.
  pose proof (keeps_Returns _ _ _ _ _
                (getSimpleTypeByID_sameFunction _) HTy) as H23.
  pose proof (sameFunction_sameValues _ _ H12) as V12.
  pose proof (sameFunction_sameValues _ _ H23) as V23.
  assert (V03 : Spec.sameValues s s3)
    by (etransitivity; [exact H01|etransitivity; eassumption]).
  assert (V04 : Spec.sameValues s (Spec.withError Msg s3))
    by (etransitivity; [exact V03|apply withError_sameValues]).
  destruct (nextInstVar_sameValues IceType_f64 _ _ V04) as [EVar EErr].
  assert (HFlags1 : Flags (Context s1) = Flags (Context s)) by apply H01.
  assert (HFlags3 : Flags (Context s3) = Flags (Context s)) by apply V03.
  assert (HRun : ProcessRecord FUNC_CODE_INST_CAST [Ref; TypeID; Opcode] s
                 = (Error Msg ;; appendErrorInstruction IceType_f64)%parser s3).
  { unfold ProcessRecord. rewrite (bind_Returns _ _ _ _ _ HEnter).
    unfold isIRGenerationDisabled at 1. unfold context at 1.
    unfold bind at 1. unfold bind at 1. unfold ret at 1.
    simpl (getContext _). rewrite HFlags1, HIR.
    unfold get at 1. unfold bind at 1. unfold isValidRecordSize. simpl length.
    simpl (Z.of_nat 3 =? 3). cbv iota. unfold ret at 1. unfold bind at 1.
    simpl negb. cbv iota.
    change (at_ [Ref; TypeID; Opcode] 0%nat) with Ref.
    change (at_ [Ref; TypeID; Opcode] 1%nat) with TypeID.
    change (at_ [Ref; TypeID; Opcode] 2%nat) with Opcode.
    cbn [negb]. cbv beta iota.
    rewrite (bind_Returns _ _ _ _ _ HSrc).
    rewrite (bind_Returns _ _ _ _ _ HTy).
    unfold deref. unfold bind at 1. unfold ret at 1.
    unfold convertCastOpToIceOp. rewrite HOpc, HSrcTy.
    change (isIntTruncCastValid IceType_i32 IceType_f64) with false.
    simpl negb. unfold when.
    unfold bind. destruct (Error _ s3); reflexivity. }
  split; [reflexivity|]. split.
  { unfold Var, Spec.nextInstVar.
    destruct (Spec.reservedValue s) as [[]|]; try reflexivity.
    case_decide; [simpl; assumption|reflexivity]. }
  split.
  - intros Hff. rewrite HRun. unfold bind.
    rewrite Error_fail_fast by (simpl; rewrite HFlags3; exact Hff).
    reflexivity.
  - intros Hrec. rewrite HRun. unfold bind.
    rewrite Error_recovery by (simpl; rewrite HFlags3; exact Hrec).
    destruct (appendErrorInstruction_run IceType_f64 (Spec.withError Msg s3))
      as (s' & E & HN & HNodes & HCur & _ & _ & _ & _ & HErr).
    { discriminate. }
    { simpl. rewrite HFlags3. exact HIR. }
    { simpl. rewrite HFlags3. exact Hrec. }
    exists s'. split; [exact E|]. rewrite HErr, HNodes, HN, EVar, EErr.
    destruct V03 as (_ & HF & _ & _ & HNext).
    destruct H12 as (_ & _ & HC12 & _). destruct H23 as (_ & _ & HC23 & _).
    simpl. rewrite HF, HNext, HC23, HC12, <- app_assoc.
    repeat split.
Qed.

End RunFacts.


(** In [f], after the DECLAREBLOCKS record, the cast of the argument to
    [f64] by a [trunc] leaves the placeholder [%1 = %1] in the entry node,
    and the next value ID is 3. *)
Lemma illegal_cast_placeholder_witness :
  let s := Spec.exampleFunctionParser [(PNaCl.FUNC_CODE_DECLAREBLOCKS, [1])] in
  exists s',
    PNaCl.ProcessRecord (Collab := PNaCl.exampleCollaborators)
      PNaCl.FUNC_CODE_INST_CAST [1; 3; 0] s = PNaCl.Returns tt s' /\
    PNaCl.NextLocalInstIndex s' = 3 /\
    Ice.Insts <$> Ice.Nodes (PNaCl.Func s') !! 0%nat
    = Some [Ice.InstAssign (Ice.IceVariable 1 Ice.IceType_f64)
                           (Ice.IceVariable 1 Ice.IceType_f64)].
Proof.
  intros s.
  assert (HIR : PNaCl.DisableIRGeneration (PNaCl.Flags (PNaCl.Context s))
                = false) by (vm_compute; reflexivity).
  assert (HRec : PNaCl.AllowErrorRecovery (PNaCl.Flags (PNaCl.Context s))
                 = true) by (vm_compute; reflexivity).
  assert (HEnter : PNaCl.ProcessRecord_enterBlock s = PNaCl.Returns tt s)
    by (vm_compute; reflexivity).
  assert (HSrc : PNaCl.getRelativeOperand (to_int32 1)
                   (to_int32 (PNaCl.NextLocalInstIndex s)) s
                 = PNaCl.Returns (Some (Ice.IceVariable 0 Ice.IceType_i32))
                     (PNaCl.logOperandLookup 1 s))
    by (vm_compute; reflexivity).
  assert (HTy : PNaCl.getSimpleTypeByID (to_uint32 3)
                  (PNaCl.logOperandLookup 1 s)
                = PNaCl.Returns Ice.IceType_f64 (PNaCl.logOperandLookup 1 s))
    by (vm_compute; reflexivity).
  destruct (illegal_cast_placeholder (Collab := PNaCl.exampleCollaborators)
              s s (PNaCl.logOperandLookup 1 s) (PNaCl.logOperandLookup 1 s)
              1 3 0 (Ice.IceVariable 0 Ice.IceType_i32)
              HIR HEnter HSrc eq_refl HTy eq_refl)
    as (_ & _ & _ & Hrec).
  destruct (Hrec HRec) as (s' & E & _ & HNodes & HNext).
  exists s'. split; [exact E|]. split.
  - rewrite HNext. vm_compute. reflexivity.
  - rewrite HNodes. vm_compute. reflexivity.
Defined.

(** C6, as stated, fails on the word "fresh".  In [f], a forward type
    reference reserves the value ID 2 with a variable of type [f64]; the
    illegal cast that follows takes this variable for its placeholder, and
    creates none. *)
Lemma illegal_cast_reserved_variable_counterexample :
  let s := Spec.exampleFunctionParser
             [(PNaCl.FUNC_CODE_DECLAREBLOCKS, [1]);
              (PNaCl.FUNC_CODE_INST_FORWARDTYPEREF, [2; 3])] in
  exists s' Var,
    PNaCl.ProcessRecord (Collab := PNaCl.exampleCollaborators)
      PNaCl.FUNC_CODE_INST_CAST [1; 3; 0] s = PNaCl.Returns tt s' /\
    Ice.Insts <$> Ice.Nodes (PNaCl.Func s') !! 0%nat
    = Some [Ice.InstAssign Var Var] /\
    Var ∈ Ice.Variables (PNaCl.Func s) /\
    Ice.Variables (PNaCl.Func s') = Ice.Variables (PNaCl.Func s).
Proof.
  intros s. eexists. exists (Ice.IceVariable 1 Ice.IceType_f64).
  split; [vm_compute; reflexivity|].
  split; [reflexivity|]. split; [|reflexivity].
  vm_compute. apply list_elem_of_In. right. left. reflexivity.
Qed.

(** ** The alignment of the ALLOCA, LOAD and STORE records *)

Section AlignmentFacts.

Import Ice PNaCl.


End AlignmentFacts.


(** The three records in [f], after the DECLAREBLOCKS record, with the
    argument of [f] as the byte count, the address and the value stored.
    The power 30 is reported and the instruction has the alignment 1.
    The power that [extractAlignment] sees is the record value converted
    to [uint32_t]: the record value [2 ^ 32 + 3] is the power 3. *)
Example alignment_of_records :
  let run Code Values :=
    let s := PNaCl.finalState
               (PNaCl.ProcessRecord (Collab := PNaCl.exampleCollaborators)
                  Code Values
                  (Spec.exampleFunctionParser
                     [(PNaCl.FUNC_CODE_DECLAREBLOCKS, [1])])) in
    (PNaCl.ErrStream (PNaCl.Context s),
     Ice.Insts <$> Ice.Nodes (PNaCl.Func s)) in
  let arg := Ice.IceVariable 0 Ice.IceType_i32 in
  let dest := Ice.IceVariable 1 Ice.IceType_i32 in
  run PNaCl.FUNC_CODE_INST_ALLOCA [1; 30]
  = ([Spec.alignmentTooLarge "Alloca" 30], [[Ice.InstAlloca arg 1 dest]]) /\
  run PNaCl.FUNC_CODE_INST_LOAD [1; 30; 1]
  = ([Spec.alignmentTooLarge "Load" 30], [[Ice.InstLoad dest arg 1]]) /\
  run PNaCl.FUNC_CODE_INST_STORE [1; 1; 30]
  = ([Spec.alignmentTooLarge "Store" 30], [[Ice.InstStore arg arg 1]]) /\
  run PNaCl.FUNC_CODE_INST_ALLOCA [1; 3]
  = ([], [[Ice.InstAlloca arg 4 dest]]) /\
  run PNaCl.FUNC_CODE_INST_ALLOCA [1; 2^32 + 3]
  = ([], [[Ice.InstAlloca arg 4 dest]]).
Proof.
  intros run arg dest.
  split; [vm_compute; reflexivity|].
  split; [vm_compute; reflexivity|].
  split; [vm_compute; reflexivity|].
  split; vm_compute; reflexivity.
Qed.

(** ** The DECLAREBLOCKS record *)

Local Open Scope parser_scope.

Section DeclareBlocksFacts.

Context {Collab : PNaCl.Collaborators}.

Import Ice PNaCl.

(** The loop of the DECLAREBLOCKS record appends empty nodes. *)
Lemma InstallNextBasicBlock_repeat (n : nat) (s : FunctionParser) :
  DisableIRGeneration (Flags (Context s)) = false ->
  exists s',
    repeatM n (Node ← InstallNextBasicBlock ; ret tt) s = Returns tt s' /\
    Nodes (Func s') = Nodes (Func s) ++ replicate n (mkCfgNode [] []) /\
    Context s' = Context s /\
    NextLocalInstIndex s' = NextLocalInstIndex s /\
    LocalOperands s' = LocalOperands s /\
    CurrentNode s' = CurrentNode s.
Proof.
  revert s. induction n as [|n IH]; intros s Hdis.
  - exists s. simpl. rewrite app_nil_r. repeat split.
  - simpl repeatM. unfold InstallNextBasicBlock, useFunc.
    repeat (mrun; rewrite ?Hdis).
    destruct (IH (setFunc
        {| FunctionName := FunctionName (Func s);
           ReturnType := ReturnType (Func s);
           IsInternal := IsInternal (Func s);
           EntryNode := EntryNode (Func s);
           Args := Args (Func s);
           Variables := Variables (Func s);
           Nodes := Nodes (Func s) ++ [mkCfgNode [] []];
           Translated := Translated (Func s) |} s) Hdis)
      as (s' & E & HN & HC & HX & HL & HCur).
    exists s'. split; [exact E|]. rewrite HN, HC, HX, HL, HCur. simpl.
    rewrite <- app_assoc. repeat split.
Qed.

End DeclareBlocksFacts.




(** ** The operands that the records look up *)

Section LookupFacts.

Context {Collab : PNaCl.Collaborators}.
Variable P : Z -> Prop.

Import Ice PNaCl.

Local Abbreviation R := (Spec.newLookups P).

Lemma newLookups_refl : Reflexive R.
Proof. intros s. exists []. rewrite app_nil_r. split; [reflexivity|constructor]. Qed.

Lemma newLookups_trans : Transitive R.
Proof.
  intros s1 s2 s3 (l1 & E1 & H1) (l2 & E2 & H2). exists (l1 ++ l2).
  rewrite E2, E1, app_assoc. split; [reflexivity|].
  apply Forall_app. split; assumption.
Qed.

Lemma newLookups_same (s s' : FunctionParser) :
  OperandLookups s' = OperandLookups s -> R s s'.
Proof.
  intros E. exists []. rewrite app_nil_r. split; [exact E|constructor].
Qed.

Lemma newLookups_log (Index : Z) (s : FunctionParser) :
  P Index -> R s (logOperandLookup Index s).
Proof.
  intros HP. exists [Index]. split; [reflexivity|].
  constructor; [exact HP|constructor].
Qed.

End LookupFacts.

Ltac lookups_step :=
  match goal with
  | |- Spec.newLookups _ _ _ => apply newLookups_same; reflexivity
  | |- Spec.keeps ?R (PNaCl.bind _ _) =>
      apply (keeps_bind R (newLookups_trans _)); [|intros]
  | |- Spec.keeps ?R (PNaCl.ret _) => apply (keeps_ret R (newLookups_refl _))
  | |- Spec.keeps ?R PNaCl.get => apply (keeps_get R (newLookups_refl _))
  | |- Spec.keeps ?R PNaCl.context =>
      apply (keeps_context R (newLookups_refl _))
  | |- Spec.keeps _ PNaCl.isIRGenerationDisabled =>
      unfold PNaCl.isIRGenerationDisabled
  | |- Spec.keeps ?R PNaCl.report_fatal_error =>
      apply (keeps_report_fatal_error R (newLookups_refl _))
  | |- Spec.keeps ?R (PNaCl.when _ _) =>
      apply (keeps_when R (newLookups_refl _))
  | |- Spec.keeps ?R (PNaCl.modify _) => apply (keeps_modify R); intros
  | |- Spec.keeps ?R (PNaCl.put _) => intros ?; simpl
  | |- Spec.keeps _ (if ?b then _ else _) => destruct b
  | |- Spec.keeps _ (match ?x with _ => _ end) => destruct x
  | |- Spec.keeps _ (let '(_, _) := ?x in _) => destruct x
  end.

Create HintDb lookups.

Ltac lookups_tac := repeat first [solve [auto with lookups] | lookups_step].

Section LookupHelpers.

Context {Collab : PNaCl.Collaborators}.
Variable P : Z -> Prop.

Import Ice PNaCl.

Local Abbreviation R := (Spec.newLookups P).

Lemma Error_lookups Msg : Spec.keeps R (Error (S := FunctionParser) Msg).
Proof. unfold Error. lookups_tac. Qed.

Hint Resolve Error_lookups : lookups.

Lemma ReportRecordSizeError_lookups Size Name Ctx Values :
  Spec.keeps R
    (ReportRecordSizeError (S := FunctionParser) Size Name Ctx Values).
Proof. unfold ReportRecordSizeError. lookups_tac. Qed.

Hint Resolve ReportRecordSizeError_lookups : lookups.

Lemma isValidRecordSize_lookups Size Name Values :
  Spec.keeps R (isValidRecordSize (S := FunctionParser) Size Name Values).
Proof. unfold isValidRecordSize. lookups_tac. Qed.

Lemma isValidRecordSizeAtLeast_lookups Size Name Values :
  Spec.keeps R
    (isValidRecordSizeAtLeast (S := FunctionParser) Size Name Values).
Proof. unfold isValidRecordSizeAtLeast. lookups_tac. Qed.

Lemma isValidRecordSizeAtMost_lookups Size Name Values :
  Spec.keeps R
    (isValidRecordSizeAtMost (S := FunctionParser) Size Name Values).
Proof. unfold isValidRecordSizeAtMost. lookups_tac. Qed.

Hint Resolve isValidRecordSize_lookups isValidRecordSizeAtLeast_lookups
  isValidRecordSizeAtMost_lookups : lookups.

Lemma isValidRecordSizeInRange_lookups Lo Hi Name Values :
  Spec.keeps R
    (isValidRecordSizeInRange (S := FunctionParser) Lo Hi Name Values).
Proof. unfold isValidRecordSizeInRange. lookups_tac. Qed.

Lemma ProcessRecord_default_lookups Code Values :
  Spec.keeps R (ProcessRecord_default (S := FunctionParser) Code Values).
Proof. unfold ProcessRecord_default. lookups_tac. Qed.

Lemma getSimpleTypeByID_lookups ID :
  Spec.keeps R (getSimpleTypeByID (S := FunctionParser) ID).
Proof.
  unfold getSimpleTypeByID, getTypeByIDAsKind, reportBadTypeIDAs.
  lookups_tac.
Qed.

Lemma getFunctionByID_lookups ID :
  Spec.keeps R (getFunctionByID (S := FunctionParser) ID).
Proof. unfold getFunctionByID, reportGetFunctionByIDError. lookups_tac. Qed.

Lemma getOrCreateGlobalConstantByID_lookups ID :
  Spec.keeps R (getOrCreateGlobalConstantByID (S := FunctionParser) ID).
Proof.
  unfold getOrCreateGlobalConstantByID, modifyContext. lookups_tac.
Qed.

Lemma deref_lookups {A} (p : option A) : Spec.keeps R (deref p).
Proof. unfold deref. lookups_tac. Qed.

Lemma useFunc_lookups : Spec.keeps R useFunc.
Proof. unfold useFunc. lookups_tac. Qed.

Hint Resolve isValidRecordSizeInRange_lookups ProcessRecord_default_lookups
  getSimpleTypeByID_lookups getFunctionByID_lookups
  getOrCreateGlobalConstantByID_lookups deref_lookups useFunc_lookups
  : lookups.

Lemma appendToCurrentNode_lookups Instr :
  Spec.keeps R (appendToCurrentNode Instr).
Proof. unfold appendToCurrentNode. lookups_tac. Qed.

Lemma extractAlignment_lookups Name AlignPower :
  Spec.keeps R (extractAlignment Name AlignPower).
Proof. unfold extractAlignment. lookups_tac. Qed.

Lemma setOperand_lookups Index Op : Spec.keeps R (setOperand Index Op).
Proof. unfold setOperand. lookups_tac. Qed.

Hint Resolve appendToCurrentNode_lookups extractAlignment_lookups
  setOperand_lookups : lookups.

Lemma setNextLocalInstIndex_lookups Op :
  Spec.keeps R (setNextLocalInstIndex Op).
Proof. unfold setNextLocalInstIndex. lookups_tac. Qed.

Lemma InstallNextBasicBlock_lookups : Spec.keeps R InstallNextBasicBlock.
Proof. unfold InstallNextBasicBlock. lookups_tac. Qed.

Lemma getBasicBlock_lookups Index : Spec.keeps R (getBasicBlock Index).
Proof. unfold getBasicBlock. lookups_tac. Qed.

Hint Resolve setNextLocalInstIndex_lookups InstallNextBasicBlock_lookups
  getBasicBlock_lookups : lookups.

Lemma getBranchBasicBlock_lookups Index :
  Spec.keeps R (getBranchBasicBlock Index).
Proof. unfold getBranchBasicBlock. lookups_tac. Qed.

Lemma createInstVar_lookups T : Spec.keeps R (createInstVar T).
Proof. unfold createInstVar. lookups_tac. Qed.

Hint Resolve getBranchBasicBlock_lookups createInstVar_lookups : lookups.

Lemma getNextInstVar_lookups T : Spec.keeps R (getNextInstVar T).
Proof. unfold getNextInstVar. lookups_tac. Qed.

Hint Resolve getNextInstVar_lookups : lookups.

Lemma appendErrorInstruction_lookups T :
  Spec.keeps R (appendErrorInstruction T).
Proof. unfold appendErrorInstruction. lookups_tac. Qed.

Lemma convertRelativeToAbsIndex_lookups Id BaseIndex :
  Spec.keeps R (convertRelativeToAbsIndex Id BaseIndex).
Proof. unfold convertRelativeToAbsIndex. lookups_tac. Qed.

Lemma ProcessRecord_enterBlock_lookups :
  Spec.keeps R ProcessRecord_enterBlock.
Proof. unfold ProcessRecord_enterBlock. lookups_tac. Qed.

Hint Resolve appendErrorInstruction_lookups convertRelativeToAbsIndex_lookups
  ProcessRecord_enterBlock_lookups : lookups.

(** [getOperand] looks up the [Index] it is given, and nothing else. *)
Lemma getOperand_lookups Index : P Index -> Spec.keeps R (getOperand Index).
Proof.
  intros HP. unfold getOperand.
  apply (keeps_bind R (newLookups_trans _)).
  - apply (keeps_modify R). intros s. apply newLookups_log. exact HP.
  - intros _. lookups_tac.
Qed.

(** [convertRelativeToAbsIndex] returns the index [Spec.absIndex], if it
    returns. *)
Lemma convertRelativeToAbsIndex_Returns Id BaseIndex (s s' : FunctionParser) a :
  convertRelativeToAbsIndex Id BaseIndex s = Returns a s' ->
  a = Spec.absIndex Id BaseIndex.
Proof.
  unfold convertRelativeToAbsIndex, Spec.absIndex.
  destruct (BaseIndex <? Id).
  - unfold bind. destruct (Error _ s); [|discriminate].
    unfold ret. intros E. inversion E. reflexivity.
  - unfold ret. intros E. inversion E. reflexivity.
Qed.

(** A handler that starts with [convertRelativeToAbsIndex] goes on with
    the index [Spec.absIndex]. *)
Lemma keeps_bind_convert {A} Id BaseIndex (k : Z -> M FunctionParser A) :
  Spec.keeps R (k (Spec.absIndex Id BaseIndex)) ->
  Spec.keeps R (bind (convertRelativeToAbsIndex Id BaseIndex) k).
Proof.
  intros Hk s. unfold bind.
  pose proof (convertRelativeToAbsIndex_lookups Id BaseIndex s) as Hc.
  destruct (convertRelativeToAbsIndex Id BaseIndex s) as [a s1|s1] eqn:E;
    simpl in *; [|exact Hc].
  apply convertRelativeToAbsIndex_Returns in E. subst a.
  eapply newLookups_trans; [exact Hc|apply Hk].
Qed.

Lemma getRelativeOperand_lookups Id BaseIndex :
  P (Spec.absIndex Id BaseIndex) ->
  Spec.keeps R (getRelativeOperand Id BaseIndex).
Proof.
  intros HP. unfold getRelativeOperand. apply keeps_bind_convert.
  apply getOperand_lookups. exact HP.
Qed.

Lemma isValidPointerType_lookups Op Name :
  Spec.keeps R (isValidPointerType Op Name).
Proof. unfold isValidPointerType. lookups_tac. Qed.

Lemma isValidLoadStoreAlignment_lookups Alignment T Name :
  Spec.keeps R (isValidLoadStoreAlignment Alignment T Name).
Proof.
  unfold isValidLoadStoreAlignment, isValidLoadStoreType. lookups_tac.
Qed.

Lemma convertBinopOpcode_lookups Opcode T :
  Spec.keeps R (convertBinopOpcode Opcode T).
Proof.
  unfold convertBinopOpcode, isValidIntegerLogicalOp, isValidIntegerArithOp,
    isValidFloatingArithOp, ReportInvalidBinaryOp.
  lookups_tac.
Qed.

Lemma convertCastOpToIceOp_lookups Opcode SourceType TargetType :
  Spec.keeps R (convertCastOpToIceOp Opcode SourceType TargetType).
Proof. unfold convertCastOpToIceOp. lookups_tac. Qed.

Lemma repeatM_lookups n (m : M FunctionParser unit) :
  Spec.keeps R m -> Spec.keeps R (repeatM n m).
Proof. intros Hm. induction n as [|n IH]; simpl; lookups_tac. Qed.

Lemma ProcessRecord_switchCases_lookups n Index BitWidth Disabled Values Cases :
  Spec.keeps R
    (ProcessRecord_switchCases n Index BitWidth Disabled Values Cases).
Proof.
  revert Index Cases. induction n as [|n IH]; intros Index Cases; simpl;
    lookups_tac.
Qed.

Hint Resolve isValidPointerType_lookups isValidLoadStoreAlignment_lookups
  convertBinopOpcode_lookups convertCastOpToIceOp_lookups repeatM_lookups
  ProcessRecord_switchCases_lookups : lookups.

Lemma ProcessRecord_callArguments_lookups BaseIndex Params :
  (forall V, V ∈ Params -> P (Spec.absIndex (to_int32 V) BaseIndex)) ->
  Spec.keeps R (ProcessRecord_callArguments BaseIndex Params).
Proof.
  induction Params as [|V Params IH]; intros HP; simpl; [lookups_tac|].
  apply (keeps_bind R (newLookups_trans _)).
  - apply getRelativeOperand_lookups. apply HP. left.
  - intros Arg. apply (keeps_bind R (newLookups_trans _)); [lookups_tac|].
    intros Arg'.
    apply (keeps_bind R (newLookups_trans _)); [|intros; lookups_tac].
    apply IH. intros W HW. apply HP. right. exact HW.
Qed.

(** The loop of the PHI record decodes every second value, starting with
    the first, before it looks the operand up. *)
Lemma ProcessRecord_phiArguments_lookups T BaseIndex Rest Args :
  (forall j V, Rest !! j = Some V -> Nat.even j = true ->
     P (Spec.absIndex (to_int32 (naclbitc.NaClDecodeSignRotatedValue V))
                      BaseIndex)) ->
  Spec.keeps R (ProcessRecord_phiArguments T BaseIndex Rest Args).
Proof.
  remember (length Rest) as n eqn:Hn.
  revert Rest Args Hn. induction n as [n IH] using lt_wf_ind.
  intros Rest Args Hn HP. destruct Rest as [|V Rest']; simpl; [lookups_tac|].
  apply (keeps_bind R (newLookups_trans _)).
  - apply getRelativeOperand_lookups. apply (HP 0%nat V); reflexivity.
  - intros Op. apply (keeps_bind R (newLookups_trans _)); [lookups_tac|].
    intros Op'. destruct (negb _); [lookups_tac|].
    apply (keeps_bind R (newLookups_trans _)); [lookups_tac|].
    intros Block. destruct Rest' as [|W Rest'']; [lookups_tac|].
    apply (IH (length Rest'')); [simpl in Hn; lia|reflexivity|].
    intros j V' Hj He. apply (HP (S (S j)) V'); [exact Hj|exact He].
Qed.

End LookupHelpers.

#[local] Hint Resolve Error_lookups ReportRecordSizeError_lookups
  isValidRecordSize_lookups isValidRecordSizeAtLeast_lookups
  isValidRecordSizeAtMost_lookups isValidRecordSizeInRange_lookups
  ProcessRecord_default_lookups getSimpleTypeByID_lookups
  getFunctionByID_lookups getOrCreateGlobalConstantByID_lookups
  deref_lookups useFunc_lookups appendToCurrentNode_lookups
  extractAlignment_lookups setOperand_lookups setNextLocalInstIndex_lookups
  InstallNextBasicBlock_lookups getBasicBlock_lookups
  getBranchBasicBlock_lookups createInstVar_lookups getNextInstVar_lookups
  appendErrorInstruction_lookups convertRelativeToAbsIndex_lookups
  ProcessRecord_enterBlock_lookups isValidPointerType_lookups
  isValidLoadStoreAlignment_lookups convertBinopOpcode_lookups
  convertCastOpToIceOp_lookups repeatM_lookups
  ProcessRecord_switchCases_lookups : lookups.

Section RecordSizeFacts.

Context {Collab : PNaCl.Collaborators}.
Variable P : Z -> Prop.

Import Ice PNaCl.

Local Abbreviation R := (Spec.newLookups P).

(** A handler that goes on after a check of the record size knows the
    size. *)
Lemma keeps_bind_isValidRecordSize {A} Size Name Values
    (k : bool -> M FunctionParser A) :
  (Z.of_nat (length Values) = Size -> Spec.keeps R (k true)) ->
  Spec.keeps R (k false) ->
  Spec.keeps R (bind (isValidRecordSize Size Name Values) k).
Proof.
  intros HT HF. unfold isValidRecordSize.
  destruct (Z.eqb_spec (Z.of_nat (length Values)) Size) as [E|E].
  - intros s. apply (HT E).
  - intros s. unfold bind.
    pose proof (ReportRecordSizeError_lookups P Size Name None Values s) as H.
    destruct (ReportRecordSizeError _ _ _ _ s) as [[] s1|s1]; simpl in *;
      [|exact H].
    eapply newLookups_trans; [exact H|apply HF].
Qed.

Lemma keeps_bind_isValidRecordSizeAtLeast {A} Size Name Values
    (k : bool -> M FunctionParser A) :
  (Size <= Z.of_nat (length Values) -> Spec.keeps R (k true)) ->
  Spec.keeps R (k false) ->
  Spec.keeps R (bind (isValidRecordSizeAtLeast Size Name Values) k).
Proof.
  intros HT HF. unfold isValidRecordSizeAtLeast.
  destruct (Z.leb_spec Size (Z.of_nat (length Values))) as [E|E].
  - intros s. apply (HT E).
  - intros s. unfold bind.
    pose proof (ReportRecordSizeError_lookups P Size Name (Some "at least")
                  Values s) as H.
    destruct (ReportRecordSizeError _ _ _ _ s) as [[] s1|s1]; simpl in *;
      [|exact H].
    eapply newLookups_trans; [exact H|apply HF].
Qed.

End RecordSizeFacts.

(** A value of the record, read at a position within the record. *)
Ltac plain_tac :=
  lazymatch goal with
  | |- Spec.plainReference ?Values _
         (Spec.absIndex (to_int32 (PNaCl.at_ ?Values ?i)) _) =>
      exists i, (PNaCl.at_ Values i);
      split; [apply list_lookup_lookup_total_lt;
              first [lia | destruct Values; [congruence|simpl; lia]]
             |reflexivity]
  end.

Ltac record_step :=
  lazymatch goal with
  | |- Spec.keeps _ (PNaCl.bind (PNaCl.isValidRecordSize _ _ _) _) =>
      apply keeps_bind_isValidRecordSize; [intros ?|]
  | |- Spec.keeps _ (PNaCl.bind (PNaCl.isValidRecordSizeAtLeast _ _ _) _) =>
      apply keeps_bind_isValidRecordSizeAtLeast; [intros ?|]
  | |- Spec.keeps _ (PNaCl.bind (PNaCl.convertRelativeToAbsIndex _ _) _) =>
      apply keeps_bind_convert
  | |- Spec.keeps _ (PNaCl.bind (if ?b then _ else _) _) => destruct b
  | |- Spec.keeps _ (PNaCl.getRelativeOperand _ _) =>
      apply getRelativeOperand_lookups; plain_tac
  | |- Spec.keeps _ (PNaCl.getOperand _) =>
      apply getOperand_lookups; plain_tac
  | |- Spec.keeps _ (PNaCl.repeatM _ _) => apply repeatM_lookups
  | |- Spec.keeps _ (PNaCl.ProcessRecord_callArguments _ (drop _ _)) =>
      let V := fresh "V" in
      let HV := fresh "HV" in
      let i := fresh "i" in
      apply ProcessRecord_callArguments_lookups; intros V HV;
      apply list_elem_of_lookup in HV; destruct HV as (i & HV);
      rewrite lookup_drop in HV;
      eexists _, V; split; [exact HV|reflexivity]
  | |- Spec.keeps _ (if negb true then _ else _) => cbn [negb]; cbv iota
  | |- Spec.keeps _ (if negb false then _ else _) => cbn [negb]; cbv iota
  | |- Spec.keeps _ (if bool_decide (?V = []) then _ else _) =>
      destruct (decide (V = []));
      [rewrite bool_decide_eq_true_2 by assumption
      |rewrite bool_decide_eq_false_2 by assumption]
  | |- _ => lookups_step
  end.

Ltac record_tac := repeat first [solve [auto with lookups] | record_step].

Section RecordLookups.

Context {Collab : PNaCl.Collaborators}.

Import Ice PNaCl.

Lemma drop_elem_lookup {A} (n : nat) (l : list A) (x : A) :
  x ∈ drop n l -> exists i, l !! i = Some x.
Proof.
  intros H. apply list_elem_of_lookup in H. destruct H as (j & Hj).
  rewrite lookup_drop in Hj. eauto.
Qed.

Lemma bind_isIRGenerationDisabled {A} (k : bool -> M FunctionParser A) s :
  bind isIRGenerationDisabled k s
  = k (DisableIRGeneration (Flags (Context s))) s.
Proof. reflexivity. Qed.

Lemma bind_get {A} (k : FunctionParser -> M FunctionParser A) s :
  bind get k s = k s s.
Proof. reflexivity. Qed.

Lemma newLookups_none (s s' : FunctionParser) :
  Spec.newLookups (fun _ => False) s s' ->
  OperandLookups s' = OperandLookups s.
Proof.
  intros (l & E & H). destruct l as [|x l].
  - rewrite app_nil_r in E. exact E.
  - apply Forall_cons in H. tauto.
Qed.

Lemma keeps_none_Returns {A} (m : M FunctionParser A) s a s' :
  Spec.keeps (Spec.newLookups (fun _ => False)) m ->
  m s = Returns a s' -> OperandLookups s' = OperandLookups s.
Proof.
  intros Hm E. apply newLookups_none. specialize (Hm s). rewrite E in Hm.
  exact Hm.
Qed.

(** [getOperand] and [getRelativeOperand], when they return, have looked
    up one operand. *)
Lemma getOperand_Returns Index (s s' : FunctionParser) Op :
  getOperand Index s = Returns Op s' ->
  OperandLookups s' = OperandLookups s ++ [Index].
Proof.
  unfold getOperand.
  change (bind (modify (logOperandLookup Index)) ?k s)
    with (k tt (logOperandLookup Index s)).
  cbv beta. intros E.
  change (OperandLookups s ++ [Index])
    with (OperandLookups (logOperandLookup Index s)).
  revert E. apply keeps_none_Returns. lookups_tac.
Qed.

Lemma getRelativeOperand_Returns Id BaseIndex (s s' : FunctionParser) Op :
  getRelativeOperand Id BaseIndex s = Returns Op s' ->
  OperandLookups s' = OperandLookups s ++ [Spec.absIndex Id BaseIndex].
Proof.
  unfold getRelativeOperand. unfold bind at 1.
  destruct (convertRelativeToAbsIndex Id BaseIndex s) as [a s0|s0] eqn:E;
    [|discriminate].
  intros EOp. apply getOperand_Returns in EOp.
  rewrite (convertRelativeToAbsIndex_Returns _ _ _ _ _ E) in EOp.
  rewrite EOp. f_equal.
  revert E. apply keeps_none_Returns. lookups_tac.
Qed.

(** The loop of the PHI record, when it runs to its end, has looked up
    the operands that the values at every second position denote once
    decoded, in their order, and has one argument for each. *)
Lemma ProcessRecord_phiArguments_Returns T BaseIndex Rest Args
    (s s' : FunctionParser) Args' :
  ProcessRecord_phiArguments T BaseIndex Rest Args s = Returns (Some Args') s' ->
  OperandLookups s'
  = OperandLookups s
    ++ ((fun V => Spec.absIndex
                    (to_int32 (naclbitc.NaClDecodeSignRotatedValue V))
                    BaseIndex) <$> Spec.phiValueOperands Rest) /\
  length Args' = (length Args + length (Spec.phiValueOperands Rest))%nat.
Proof.
  remember (length Rest) as n eqn:Hn.
  revert Rest Args s Hn. induction n as [n IH] using lt_wf_ind.
  intros Rest Args s Hn. destruct Rest as [|V Rest'].
  - simpl. unfold ret. intros E. inversion E. subst.
    rewrite app_nil_r. split; [reflexivity|lia].
  - cbn [ProcessRecord_phiArguments]. unfold bind at 1.
    destruct (getRelativeOperand _ BaseIndex s) as [Op s1|s1] eqn:E1;
      [|discriminate].
    apply getRelativeOperand_Returns in E1.
    unfold bind at 1. destruct Op as [Op|]; [|discriminate].
    unfold deref, ret at 1.
    destruct (negb (bool_decide (getType Op = T))).
    { unfold bind. destruct (Error _ s1); [|discriminate].
      destruct (appendErrorInstruction T _); discriminate. }
    unfold bind at 1.
    destruct (getBasicBlock _ s1) as [Block s2|s2] eqn:E2; [|discriminate].
    assert (H2 : OperandLookups s2 = OperandLookups s1).
    { revert E2. apply keeps_none_Returns. lookups_tac. }
    destruct Rest' as [|W Rest''].
    + unfold ret. intros E. inversion E. subst.
      rewrite H2, E1, length_app. simpl. split; [reflexivity|lia].
    + intros E.
      apply (IH (length Rest'')) in E; [|simpl in Hn; lia|reflexivity].
      destruct E as [EL EA]. rewrite EL, H2, E1, EA, length_app.
      cbn [Spec.phiValueOperands fmap list_fmap length].
      rewrite <- app_assoc. split; [reflexivity|simpl; lia].
Qed.

(** The steps that every record starts with, up to the handler of the
    record in the form of a handler. *)
Ltac enter_record s BaseIndex :=
  let HL := fresh "HL" in
  let HV := fresh "HV" in
  let E := fresh "E" in
  let s1 := fresh "s1" in
  let HNext := fresh "HNext" in
  let Disabled := fresh "Disabled" in
  lazymatch goal with
  | |- Spec.newLookups ?Q s _ =>
      pose proof (ProcessRecord_enterBlock_lookups Q s) as HL
  end;
  pose proof (ProcessRecord_enterBlock_sameValues s) as HV;
  unfold PNaCl.ProcessRecord;
  destruct (PNaCl.ProcessRecord_enterBlock s) as [[] s1|s1] eqn:E;
  simpl in HL, HV;
  [|rewrite (bind_Aborts _ _ _ _ E); exact HL];
  rewrite (bind_Returns _ _ _ _ _ E);
  apply (newLookups_trans _ _ _ _ HL);
  destruct HV as (_ & _ & _ & _ & HNext); clear HL E;
  rewrite bind_isIRGenerationDisabled, bind_get;
  rewrite HNext; fold BaseIndex;
  generalize (PNaCl.DisableIRGeneration (PNaCl.Flags (PNaCl.Context s1)));
  intros Disabled; cbv zeta; clear HNext; revert s1;
  lazymatch goal with
  | |- forall s1, Spec.newLookups ?Q s1 (PNaCl.finalState (?m s1)) =>
      change (Spec.keeps (Spec.newLookups Q) m)
  end.

Lemma ProcessRecord_plain_lookups (Code : FunctionCode) (Values : list Z)
    (s : FunctionParser) :
  let BaseIndex := to_int32 (NextLocalInstIndex s) in
  Code <> FUNC_CODE_INST_PHI ->
  Spec.newLookups (Spec.plainReference Values BaseIndex) s
    (finalState (ProcessRecord Code Values s)).
Proof.
  intros BaseIndex HCode. enter_record s BaseIndex.
  destruct Code; try congruence.
  all: record_tac.
Qed.

Lemma ProcessRecord_phi_lookups (Values : list Z) (s : FunctionParser) :
  let BaseIndex := to_int32 (NextLocalInstIndex s) in
  Spec.newLookups (Spec.signRotatedReference Values BaseIndex) s
    (finalState (ProcessRecord FUNC_CODE_INST_PHI Values s)).
Proof.
  intros BaseIndex. enter_record s BaseIndex.
  assert (HLoop : forall T,
    Spec.keeps (Spec.newLookups (Spec.signRotatedReference Values BaseIndex))
      (ProcessRecord_phiArguments T BaseIndex (drop 1 Values) [])).
  { intros T. apply ProcessRecord_phiArguments_lookups. intros j V Hj He.
    rewrite lookup_drop in Hj. exists (1 + j)%nat, V.
    split; [exact Hj|]. split; [|reflexivity].
    change (1 + j)%nat with (S j). rewrite Nat.odd_succ. exact He. }
  record_tac.
Qed.


End RecordLookups.


(** The same value in a PHI record and in a RET record, in [f] with the
    next-instruction index 2: the PHI record takes 2 for the reference 1
    and 3 for the reference -1, a forward reference to the value ID 3;
    the RET record takes 2 for the reference 2, the value ID 0. *)
Example operand_references_of_records :
  let lookups Code Values :=
    PNaCl.OperandLookups
      (PNaCl.finalState
         (PNaCl.ProcessRecord (Collab := PNaCl.exampleCollaborators)
            Code Values
            (Spec.exampleFunctionParser
               [(PNaCl.FUNC_CODE_DECLAREBLOCKS, [1])]))) in
  lookups PNaCl.FUNC_CODE_INST_PHI [1; 2; 0] = [1] /\
  lookups PNaCl.FUNC_CODE_INST_PHI [1; 2; 0; 2; 0] = [1; 1] /\
  lookups PNaCl.FUNC_CODE_INST_PHI [1; 3; 0] = [3] /\
  lookups PNaCl.FUNC_CODE_INST_RET [2] = [0] /\
  lookups PNaCl.FUNC_CODE_INST_RET [1] = [1] /\
  lookups PNaCl.FUNC_CODE_INST_BINOP [1; 1; 0] = [1; 1].
Proof.
  intros lookups.
  split; [vm_compute; reflexivity|].
  split; [vm_compute; reflexivity|].
  split; [vm_compute; reflexivity|].
  split; [vm_compute; reflexivity|].
  split; vm_compute; reflexivity.
Qed.

(** ** The exit of the function block *)

Section ExitBlockFacts.

Context {Collab : PNaCl.Collaborators}.

Import Ice PNaCl.

Lemma flat_map_ext_elem {A B} (f g : A -> list B) (l : list A) :
  (forall a, In a l -> f a = g a) -> flat_map f l = flat_map g l.
Proof.
  induction l as [|a l IH]; intros H; simpl; [reflexivity|].
  rewrite (H a) by (left; reflexivity).
  rewrite IH; [reflexivity|]. intros b Hb. apply H. right. exact Hb.
Qed.

Lemma alter_patchEmpty (Ns : list CfgNode) (Index : nat) :
  alter Spec.patchEmpty Index Ns
  = match Insts <$> Ns !! Index with
    | Some [] => alter (appendInst InstUnreachable) Index Ns
    | _ => Ns
    end.
Proof.
  apply list_eq. intros j.
  destruct (Ns !! Index) as [Node|] eqn:E; simpl.
  - destruct (decide (j = Index)) as [->|Hne].
    + rewrite list_lookup_alter_eq, E. simpl. unfold Spec.patchEmpty.
      destruct (Insts Node) eqn:EI.
      * rewrite list_lookup_alter_eq, E. reflexivity.
      * rewrite E. reflexivity.
    + rewrite list_lookup_alter_ne by congruence.
      destruct (Insts Node); [|reflexivity].
      rewrite list_lookup_alter_ne by congruence. reflexivity.
  - destruct (decide (j = Index)) as [->|Hne].
    + rewrite list_lookup_alter_eq, E. reflexivity.
    + rewrite list_lookup_alter_ne by congruence. reflexivity.
Qed.

(** The loop of [ExitBlock], with error recovery: every node with one of
    the indices is patched, and every empty one is reported. *)
Lemma ExitBlock_patchNodes_run (Indices : list nat) (s : FunctionParser) :
  AllowErrorRecovery (Flags (Context s)) = true ->
  NoDup Indices ->
  exists s',
    ExitBlock_patchNodes Indices s = Returns tt s' /\
    (forall j, Nodes (Func s') !! j
               = if bool_decide (j ∈ Indices)
                 then Spec.patchEmpty <$> Nodes (Func s) !! j
                 else Nodes (Func s) !! j) /\
    ErrStream (Context s')
    = ErrStream (Context s) ++ Spec.emptyBlockErrors (Nodes (Func s)) Indices /\
    Flags (Context s') = Flags (Context s) /\
    Translated (Func s') = Translated (Func s).
Proof.
  revert s. induction Indices as [|Index Indices IH]; intros s Hrec Hnd.
  - exists s. simpl. rewrite app_nil_r. repeat split; auto.
  - apply NoDup_cons in Hnd. destruct Hnd as [Hnotin Hnd].
    simpl ExitBlock_patchNodes. unfold bind at 1. unfold get at 1.
    unfold Spec.emptyBlockErrors. simpl flat_map.
    fold (Spec.emptyBlockErrors (Nodes (Func s)) Indices).
    assert (Hstep : exists s1,
      (match Insts <$> Nodes (Func s) !! Index with
       | Some [] =>
           Error [Str "Basic block "; Num (Z.of_nat Index);
                  Str " contains no instructions"] ;;
           modify (fun s =>
             setFunc (setNodes (alter (appendInst InstUnreachable) Index
                                      (Nodes (Func s))) (Func s)) s)
       | _ => ret tt
       end) s = Returns tt s1 /\
      Nodes (Func s1) = alter Spec.patchEmpty Index (Nodes (Func s)) /\
      ErrStream (Context s1)
      = ErrStream (Context s)
        ++ match Insts <$> Nodes (Func s) !! Index with
           | Some [] => [Spec.emptyBasicBlock Index]
           | _ => []
           end /\
      Flags (Context s1) = Flags (Context s) /\
      Translated (Func s1) = Translated (Func s)).
    { rewrite alter_patchEmpty.
      destruct (Insts <$> Nodes (Func s) !! Index) as [[|i l]|].
      - unfold bind. rewrite Error_recovery by (simpl; exact Hrec).
        eexists. split; [reflexivity|]. simpl. repeat split.
      - exists s. rewrite app_nil_r. repeat split.
      - exists s. rewrite app_nil_r. repeat split. }
    destruct Hstep as (s1 & E1 & HN1 & HE1 & HF1 & HT1).
    unfold bind at 1. rewrite E1.
    destruct (IH s1) as (s' & E & HN & HE & HF & HT);
      [rewrite HF1; exact Hrec|exact Hnd|].
    exists s'. split; [exact E|]. split; [|split; [|split]].
    + intros j. rewrite HN, HN1.
      destruct (decide (j = Index)) as [->|Hne].
      * rewrite (bool_decide_eq_false_2 _ Hnotin).
        rewrite bool_decide_eq_true_2 by left.
        apply list_lookup_alter_eq.
      * rewrite list_lookup_alter_ne by congruence.
        destruct (decide (j ∈ Indices)) as [Hin|Hnin].
        -- rewrite !bool_decide_eq_true_2; [reflexivity|right; exact Hin|exact Hin].
        -- rewrite !bool_decide_eq_false_2; [reflexivity| |exact Hnin].
           intros Hin. apply elem_of_cons in Hin. tauto.
    + rewrite HE, HE1, <- app_assoc. f_equal. f_equal.
      unfold Spec.emptyBlockErrors. apply flat_map_ext_elem.
      intros j Hj. rewrite HN1, list_lookup_alter_ne; [reflexivity|].
      intros ->. apply Hnotin. apply list_elem_of_In. exact Hj.
    + congruence.
    + congruence.
Qed.

Lemma patchEmpty_nonempty (Node : CfgNode) : Insts (Spec.patchEmpty Node) <> [].
Proof.
  unfold Spec.patchEmpty. destruct (Insts Node) eqn:E; simpl.
  - rewrite E. discriminate.
  - rewrite E. discriminate.
Qed.

Lemma patchEmpty_endsWithTerminator (Node : CfgNode) :
  Insts Node = [] \/ Spec.endsWithTerminator Node ->
  Spec.endsWithTerminator (Spec.patchEmpty Node).
Proof.
  unfold Spec.patchEmpty, Spec.endsWithTerminator.
  intros [E|(Instr & HL & HT)].
  - rewrite E. simpl. rewrite E. exists InstUnreachable. split; reflexivity.
  - destruct (Insts Node) eqn:E; [discriminate|].
    exists Instr. rewrite E. split; assumption.
Qed.

Lemma computePredecessors_lookup (F : Cfg) (j : nat) :
  Insts <$> Nodes (computePredecessors F) !! j = Insts <$> Nodes F !! j.
Proof.
  unfold computePredecessors. simpl. rewrite list_lookup_imap.
  destruct (Nodes F !! j); reflexivity.
Qed.

(** Claim C4, as the code has it.  With IR generation and error recovery
    enabled, [ExitBlock] returns; the nodes of the function are those
    before it with [unreachable] appended to every empty one, and with
    the predecessors computed from these patched nodes; so no node is
    empty, and a node that was empty or ended in a terminator ends in a
    terminator.  Every empty node is reported, in the order of the nodes,
    and the function is handed to the translator exactly when the error
    count is zero.  A node whose last instruction is not a terminator is
    left as it is: see the counterexample below. *)
Theorem ExitBlock_patches_empty_blocks (s : FunctionParser) :
  DisableIRGeneration (Flags (Context s)) = false ->
  AllowErrorRecovery (Flags (Context s)) = true ->
  exists s',
    ExitBlock s = Returns tt s' /\
    Nodes (Func s')
    = Nodes (computePredecessors
               (setNodes (Spec.patchEmpty <$> Nodes (Func s)) (Func s))) /\
    Forall (fun Node => Insts Node <> []) (Nodes (Func s')) /\
    (forall j Node,
        Nodes (Func s) !! j = Some Node ->
        Insts Node = [] \/ Spec.endsWithTerminator Node ->
        exists Node', Nodes (Func s') !! j = Some Node' /\
                      Spec.endsWithTerminator Node') /\
    ErrStream (Context s')
    = ErrStream (Context s)
      ++ Spec.emptyBlockErrors (Nodes (Func s))
                               (seq 0 (length (Nodes (Func s)))) /\
    Translated (Func s')
    = (NumErrors (Context s') =? 0) || Translated (Func s).
Proof.
  intros HIR Hrec.
  destruct (ExitBlock_patchNodes_run (seq 0 (length (Nodes (Func s)))) s Hrec)
    as (s1 & E1 & HN1 & HE1 & HF1 & HT1); [apply NoDup_seq|].
  assert (HNodes : Nodes (Func s1) = Spec.patchEmpty <$> Nodes (Func s)).
  { apply list_eq. intros j. rewrite HN1, list_lookup_fmap.
    destruct (Nodes (Func s) !! j) eqn:E.
    - rewrite bool_decide_eq_true_2; [reflexivity|].
      apply elem_of_seq. apply lookup_lt_Some in E. lia.
    - destruct (bool_decide _); reflexivity. }
  assert (HRun : ExitBlock s
                 = when (NumErrors (Context s1) =? 0)
                     (modify (fun s => setFunc (setTranslated (Func s)) s))
                     (setFunc (computePredecessors (Func s1)) s1)).
  { unfold ExitBlock, isIRGenerationDisabled, context.
    unfold bind, get, ret. simpl (getContext _). rewrite HIR.
    rewrite E1. reflexivity. }
  rewrite HRun. unfold when.
  set (s2 := setFunc (computePredecessors (Func s1)) s1).
  assert (HN2 : Nodes (Func s2)
                = Nodes (computePredecessors
                           (setNodes (Spec.patchEmpty <$> Nodes (Func s)) (Func s)))).
  { subst s2. simpl. rewrite HNodes. reflexivity. }
  assert (HAll : forall j Node', Nodes (Func s2) !! j = Some Node' ->
            exists Node, Nodes (Func s) !! j = Some Node /\
                         Insts Node' = Insts (Spec.patchEmpty Node)).
  { intros j Node' Hj. rewrite HN2 in Hj. simpl in Hj.
    rewrite list_lookup_imap, list_lookup_fmap in Hj.
    destruct (Nodes (Func s) !! j) as [Node|]; [|discriminate].
    exists Node. split; [reflexivity|]. simpl in Hj. inversion Hj. reflexivity. }
  assert (HEx : forall j Node, Nodes (Func s) !! j = Some Node ->
            exists Node', Nodes (Func s2) !! j = Some Node' /\
                          Insts Node' = Insts (Spec.patchEmpty Node)).
  { intros j Node Hj. rewrite HN2. simpl.
    rewrite list_lookup_imap, list_lookup_fmap, Hj. simpl.
    eexists. split; reflexivity. }
  assert (HP : forall s', Nodes (Func s') = Nodes (Func s2) ->
    Forall (fun Node => Insts Node <> []) (Nodes (Func s')) /\
    (forall j Node,
        Nodes (Func s) !! j = Some Node ->
        Insts Node = [] \/ Spec.endsWithTerminator Node ->
        exists Node', Nodes (Func s') !! j = Some Node' /\
                      Spec.endsWithTerminator Node')).
  { intros s' ->. split.
    - apply Forall_lookup. intros j Node' Hj.
      destruct (HAll j Node' Hj) as (Node & _ & ->). apply patchEmpty_nonempty.
    - intros j Node Hj HT.
      destruct (HEx j Node Hj) as (Node' & Hj' & HI).
      exists Node'. split; [exact Hj'|].
      destruct (patchEmpty_endsWithTerminator Node HT) as (Instr & HL & HTerm).
      exists Instr. rewrite HI. split; assumption. }
  change (Context s1) with (Context s2).
  destruct (NumErrors (Context s2) =? 0) eqn:ENum.
  - exists (setFunc (setTranslated (Func s2)) s2). split; [reflexivity|].
    split; [exact HN2|]. split; [|split; [|split]].
    + apply (HP (setFunc (setTranslated (Func s2)) s2)). reflexivity.
    + apply (HP (setFunc (setTranslated (Func s2)) s2)). reflexivity.
    + exact HE1.
    + change (Context (setFunc (setTranslated (Func s2)) s2)) with (Context s2).
      rewrite ENum. reflexivity.
  - exists s2. split; [reflexivity|].
    split; [exact HN2|]. split; [|split; [|split]].
    + apply (HP s2). reflexivity.
    + apply (HP s2). reflexivity.
    + exact HE1.
    + rewrite ENum. exact HT1.
Qed.

End ExitBlockFacts.

Lemma ExitBlock_patches_empty_blocks_witness :
  let s := Spec.exampleFunctionParser
             [(PNaCl.FUNC_CODE_DECLAREBLOCKS, [2]);
              (PNaCl.FUNC_CODE_INST_RET, [1])] in
  exists s',
    PNaCl.ExitBlock s = PNaCl.Returns tt s' /\
    Ice.Insts <$> Ice.Nodes (PNaCl.Func s')
    = [[Ice.InstRet (Some (Ice.IceVariable 0 Ice.IceType_i32))];
       [Ice.InstUnreachable]] /\
    PNaCl.ErrStream (PNaCl.Context s') = [Spec.emptyBasicBlock 1].
Proof.
  intros s.
  assert (HIR : PNaCl.DisableIRGeneration (PNaCl.Flags (PNaCl.Context s))
                = false) by (vm_compute; reflexivity).
  assert (HRec : PNaCl.AllowErrorRecovery (PNaCl.Flags (PNaCl.Context s))
                 = true) by (vm_compute; reflexivity).
  destruct (ExitBlock_patches_empty_blocks s HIR HRec)
    as (s' & E & HN & _ & _ & HErr & _).
  exists s'. split; [exact E|]. split.
  - rewrite HN. vm_compute. reflexivity.
  - rewrite HErr. vm_compute. reflexivity.
Defined.

(** A function block that the parser accepts without any diagnostic, and
    hands to the translator, although its only basic block ends in an
    addition: no check of [ExitBlock], and none of the records, asks for a
    terminator at the end of a non-empty block. *)
Lemma block_without_terminator_counterexample :
  exists s' Node,
    PNaCl.parseFunctionBlock (Collab := PNaCl.exampleCollaborators)
      Spec.exampleContext
      [(PNaCl.FUNC_CODE_DECLAREBLOCKS, [1]);
       (PNaCl.FUNC_CODE_INST_BINOP, [1; 1; 0])]
    = PNaCl.Returns tt s' /\
    PNaCl.NumErrors (PNaCl.Context s') = 0 /\
    PNaCl.ErrStream (PNaCl.Context s') = [] /\
    Ice.Translated (PNaCl.Func s') = true /\
    Ice.Nodes (PNaCl.Func s') = [Node] /\
    Ice.Insts Node
    = [Ice.InstArithmetic Ice.InstArithmetic.Add
         (Ice.IceVariable 1 Ice.IceType_i32)
         (Ice.IceVariable 0 Ice.IceType_i32)
         (Ice.IceVariable 0 Ice.IceType_i32)] /\
    ~ Spec.endsWithTerminator Node.
Proof.
  eexists. eexists.
  split; [vm_compute; reflexivity|].
  split; [reflexivity|]. split; [reflexivity|]. split; [reflexivity|].
  split; [reflexivity|]. split; [reflexivity|].
  intros (Instr & HL & HT). simpl in HL. inversion HL. subst Instr.
  discriminate HT.
Qed.

(** ** More on the ARM32 branch and the flexible immediate *)

Section BranchEdgeFacts.

Context {Cond : Type} `{EqDecision Cond}.
Variable AL : Cond.
Variable Opposite : Cond -> Cond.

(** X1.  [repointEdges] replaces the targets that are [OldNode] by [NewNode]
    and leaves everything else; it says whether it has replaced one.
    When the two nodes differ, no target is [OldNode] afterwards, and a
    second call finds nothing to replace. *)
Theorem repointEdges_replaces_old_node
    (Br : ARM32.InstARM32Br (Cond := Cond)) (OldNode NewNode : option nat) :
  let r := ARM32.repointEdges Br OldNode NewNode in
  (fst r = true <->
     ARM32.TargetTrue Br = OldNode \/ ARM32.TargetFalse Br = OldNode) /\
  ARM32.TargetTrue (snd r)
  = (if bool_decide (ARM32.TargetTrue Br = OldNode) then NewNode
     else ARM32.TargetTrue Br) /\
  ARM32.TargetFalse (snd r)
  = (if bool_decide (ARM32.TargetFalse Br = OldNode) then NewNode
     else ARM32.TargetFalse Br) /\
  ARM32.Label (snd r) = ARM32.Label Br /\
  ARM32.Predicate (snd r) = ARM32.Predicate Br /\
  ARM32.Deleted (snd r) = ARM32.Deleted Br /\
  (fst r = false -> snd r = Br) /\
  (OldNode <> NewNode ->
     ARM32.TargetTrue (snd r) <> OldNode /\
     ARM32.TargetFalse (snd r) <> OldNode /\
     ARM32.repointEdges (snd r) OldNode NewNode = (false, snd r)).
Proof.
  destruct Br as [TT TF L P D]. unfold ARM32.repointEdges. simpl.
  repeat (case_bool_decide; simpl); subst;
    repeat split; try tauto; try congruence; try discriminate;
    try (intros; exfalso; tauto);
    try (intros [?|?]; congruence).
  all: intros Hne; unfold ARM32.repointEdges; simpl;
       repeat (case_bool_decide; simpl); try congruence.
Qed.

(** X2.  [optimizeBranch] keeps the control flow: a target of the branch is a
    target afterwards or is the next node, to which the instruction then
    falls through, and no target is new.  A call that returns [false]
    changes nothing; one that returns [true] leaves a deleted instruction
    or one without a false target.  The label stays. *)
Theorem optimizeBranch_keeps_successors
    (Br : ARM32.InstARM32Br (Cond := Cond)) (NextNode : option nat) :
  let r := ARM32.optimizeBranch AL Opposite Br NextNode in
  let targets (B : ARM32.InstARM32Br) : list (option nat) :=
    [ARM32.TargetTrue B; ARM32.TargetFalse B] in
  (forall N, Some N ∈ targets Br ->
             Some N ∈ targets (snd r) \/ Some N = NextNode) /\
  (forall N, Some N ∈ targets (snd r) -> Some N ∈ targets Br) /\
  (fst r = false -> snd r = Br) /\
  (fst r = true ->
     ARM32.Deleted (snd r) = true \/ ARM32.TargetFalse (snd r) = None) /\
  ARM32.Label (snd r) = ARM32.Label Br.
Proof.
  destruct Br as [TT TF L P D]. unfold ARM32.optimizeBranch,
    ARM32.isUnconditionalBranch, ARM32.setDeleted. simpl.
  destruct NextNode as [Next|]; simpl;
    [|repeat split; try tauto; discriminate].
  destruct L as [Lbl|]; simpl; [repeat split; try tauto; discriminate|].
  destruct TF as [F|]; simpl; [|repeat split; try tauto; discriminate].
  repeat (case_bool_decide; simpl); simplify_eq; simpl;
    repeat split; try tauto; try discriminate; try (left; reflexivity);
    try (right; reflexivity); intros N HN;
    repeat (apply elem_of_cons in HN; destruct HN as [HN|HN]);
    try (apply elem_of_nil in HN; contradiction); simplify_eq;
    try (right; reflexivity);
    try (left; apply elem_of_cons; left; reflexivity);
    try (left; apply elem_of_cons; right; apply elem_of_cons; left;
         reflexivity);
    try (apply elem_of_cons; left; reflexivity);
    try (apply elem_of_cons; right; apply elem_of_cons; left; reflexivity).
Qed.

End BranchEdgeFacts.

(** ** The first rotation found *)

Lemma canHoldImm_loop_first Rots v rot imm8 :
  ARM32.canHoldImm_loop Rots v = Some (rot, imm8) ->
  exists Before After,
    Rots = Before ++ rot :: After /\
    forall r, r ∈ Before -> 255 < Utils.rotateLeft32 v (2 * r).
Proof.
  induction Rots as [|Rot Rots IH]; simpl; [discriminate|].
  destruct (Z.leb_spec (Utils.rotateLeft32 v (2 * Rot)) 255) as [Hle|Hgt].
  - intros [= <- <-]. exists [], Rots. split; [reflexivity|].
    intros r Hr. inversion Hr.
  - intros H. destruct (IH H) as (Before & After & -> & HB).
    exists (Rot :: Before), After. split; [reflexivity|].
    intros r Hr. inversion Hr; subst; [exact Hgt|apply HB; assumption].
Qed.

(** X3.  The rotation count that [canHoldImm] returns is the least one that
    fits: no smaller count brings the immediate to at most 0xFF. *)
Theorem canHoldImm_least_rotation (v rot imm8 : Z) :
  ARM32.canHoldImm v = Some (rot, imm8) ->
  forall k, 0 <= k < rot -> 255 < Utils.rotateLeft32 v (2 * k).
Proof.
  unfold ARM32.canHoldImm.
  destruct (Z.leb_spec v 255) as [Hle|Hgt].
  - intros [= <- <-] k Hk. lia.
  - intros H k Hk.
    destruct (Z.eq_dec k 0) as [->|Hk0]; [exact Hgt|].
    destruct (canHoldImm_loop_first _ _ _ _ H) as (Before & After & E & HB).
    apply HB.
    assert (Hlook : seqZ 1 15 !! Z.to_nat (k - 1) = Some k).
    { rewrite lookup_seqZ. split; [lia|].
      apply canHoldImm_loop_Some in H. destruct H as (Hin & _).
      apply elem_of_seqZ in Hin. lia. }
    assert (HrotAt : seqZ 1 15 !! length Before = Some rot).
    { rewrite E. rewrite lookup_app_r by lia.
      rewrite Nat.sub_diag. reflexivity. }
    rewrite lookup_seqZ in HrotAt. destruct HrotAt as [Hrot _].
    rewrite E in Hlook. rewrite lookup_app_l in Hlook by lia.
    apply list_elem_of_lookup. eexists. exact Hlook.
Qed.

Lemma canHoldImm_least_rotation_witness :
  ARM32.canHoldImm 1020 = Some (15, 255) /\
  255 < Utils.rotateLeft32 1020 (2 * 14).
Proof.
  assert (H : ARM32.canHoldImm 1020 = Some (15, 255))
    by (vm_compute; reflexivity).
  split; [exact H|].
  apply (canHoldImm_least_rotation 1020 15 255 H 14). lia.
Defined.


(** ** The text of push and pop *)

Section StackEmitFacts.

Import Ice ARM32Emit.

Local Abbreviation isInt :=
  (fun Op : Operand => isScalarIntegerType (getType Op) = true).

Local Abbreviation isOther :=
  (fun Op : Operand => isScalarIntegerType (getType Op) <> true).

Lemma emitIntegerOperands_filter (PrintComma : bool) (Ops : list Operand) :
  emitIntegerOperands PrintComma Ops
  = match filter isInt Ops with
    | [] => []
    | _ :: _ => (if PrintComma then [Text ", "] else [])
                ++ Spec.commaSeparated (filter isInt Ops)
    end.
Proof.
  revert PrintComma. induction Ops as [|Op Ops IH]; intros PrintComma;
    [reflexivity|].
  cbn [emitIntegerOperands]. rewrite filter_cons.
  destruct (isScalarIntegerType (getType Op)) eqn:E.
  - rewrite decide_True by reflexivity. rewrite IH.
    destruct (filter isInt Ops) as [|Op' Ops']; [reflexivity|].
    destruct PrintComma; reflexivity.
  - rewrite decide_False by discriminate. apply IH.
Qed.

Lemma emitOtherOperands_filter (o : Spec.StackOp) (Ops : list Operand) :
  emitOtherOperands (Spec.mnemonic o) Ops
  = flat_map Spec.stackLine ((fun Op => (o, [Op])) <$> filter isOther Ops).
Proof.
  induction Ops as [|Op Ops IH]; [reflexivity|].
  cbn [emitOtherOperands]. rewrite filter_cons.
  destruct (isScalarIntegerType (getType Op)) eqn:E.
  - rewrite decide_False by (intros H; apply H; reflexivity). exact IH.
  - rewrite decide_True by discriminate. rewrite IH. reflexivity.
Qed.

Lemma filter_isOther_rev (Ops : list Operand) :
  filter isOther (rev Ops) = rev (filter isOther Ops).
Proof.
  induction Ops as [|Op Ops IH]; [reflexivity|].
  simpl rev. rewrite filter_app, IH, filter_cons.
  destruct (decide (isOther Op)); rewrite filter_cons;
    [rewrite decide_True by assumption|rewrite decide_False by assumption].
  - reflexivity.
  - simpl. rewrite app_nil_r. reflexivity.
Qed.

Lemma rev_fmap_fmap_rev {A B C} (f : A -> B) (g : B -> C) (l : list A) :
  rev (g <$> (f <$> rev l)) = (fun x => g (f x)) <$> l.
Proof.
  induction l as [|x l IH]; [reflexivity|].
  simpl rev. rewrite !fmap_app, rev_app_distr. simpl. f_equal. exact IH.
Qed.

Lemma IntegerCount_zero (Ops : list Operand) :
  (IntegerCount Ops =? 0)%nat = bool_decide (filter isInt Ops = []).
Proof.
  unfold IntegerCount. destruct (filter isInt Ops); reflexivity.
Qed.

(** X4.  The pops written for a list of registers undo the pushes written for
    the same list, last push first: [push] and [pop] carry the scalar
    integer registers in the order of the list, and every other register
    has a [vpush] and a [vpop] of its own.  Nothing is written in a build
    without [BuildDefs::dump()]. *)
Theorem push_pop_emit_mirror (Regs : list Operand) :
  let Ints := filter isInt Regs in
  let Others := filter isOther Regs in
  let Pushes :=
    ((fun Op => (Spec.OpVPush, [Op])) <$> rev Others)
    ++ (if bool_decide (Ints = []) then [] else [(Spec.OpPush, Ints)]) in
  InstARM32Push_emit true Regs = flat_map Spec.stackLine Pushes /\
  InstARM32Pop_emit true Regs
  = flat_map Spec.stackLine
      (rev ((fun l => (Spec.mirror l.1, l.2)) <$> Pushes)) /\
  InstARM32Push_emit false Regs = [] /\
  InstARM32Pop_emit false Regs = [].
Proof.
  intros Ints Others Pushes.
  split; [|split; [|split; reflexivity]].
  - unfold InstARM32Push_emit. cbn [negb].
    change "vpush"%string with (Spec.mnemonic Spec.OpVPush).
    rewrite emitOtherOperands_filter, IntegerCount_zero.
    rewrite emitIntegerOperands_filter. fold Ints.
    unfold Pushes. rewrite flat_map_app. f_equal.
    + f_equal. f_equal. unfold Others. apply filter_isOther_rev.
    + case_bool_decide as HI; [reflexivity|]. cbn [negb flat_map].
      destruct Ints; [congruence|]. rewrite app_nil_r. reflexivity.
  - unfold InstARM32Pop_emit. cbn [negb].
    change "vpop"%string with (Spec.mnemonic Spec.OpVPop).
    rewrite emitOtherOperands_filter, IntegerCount_zero.
    rewrite emitIntegerOperands_filter. fold Ints. fold Others.
    unfold Pushes. rewrite fmap_app, rev_app_distr, flat_map_app.
    f_equal.
    + case_bool_decide as HI; [reflexivity|]. cbn [negb].
      destruct Ints; [congruence|]. cbn. rewrite app_nil_r. reflexivity.
    + f_equal. rewrite rev_fmap_fmap_rev. reflexivity.
Qed.

End StackEmitFacts.


(** ** The check of a record size against a range *)

Section RecordSizeRangeFacts.

Context {Collab : PNaCl.Collaborators}.

Import Ice PNaCl.

(** X5.  [isValidRecordSizeInRange] answers [true] for every record when the
    lower limit is not above the upper one, with error recovery: a record
    with more values than the upper limit passes without a diagnostic, and
    a record with fewer values than the lower limit is reported and passes
    all the same. *)
Theorem isValidRecordSizeInRange_accepts
    (LowerLimit UpperLimit : Z) (RecordName : string) (Values : list Z)
    (s : FunctionParser)
    (HRange : LowerLimit <= UpperLimit)
    (HRec : AllowErrorRecovery (Flags (Context s)) = true) :
  isValidRecordSizeInRange LowerLimit UpperLimit RecordName Values s
  = Returns true
      (if LowerLimit <=? Z.of_nat (length Values) then s
       else Spec.withError (Spec.tooFewValues LowerLimit RecordName Values) s).
Proof.
  unfold isValidRecordSizeInRange, isValidRecordSizeAtLeast,
    isValidRecordSizeAtMost, ReportRecordSizeError.
  destruct (Z.leb_spec LowerLimit (Z.of_nat (length Values))) as [Hle|Hgt].
  - reflexivity.
  - mrun. rewrite HRec. mrun.
    destruct (Z.leb_spec (Z.of_nat (length Values)) UpperLimit) as [_|?];
      [|lia].
    reflexivity.
Qed.

End RecordSizeRangeFacts.

Lemma isValidRecordSizeInRange_accepts_witness :
  let s := Spec.exampleFunctionParser [(PNaCl.FUNC_CODE_DECLAREBLOCKS, [1])] in
  PNaCl.isValidRecordSizeInRange 0 1 "return" [1; 1; 1] s
  = PNaCl.Returns true s.
Proof.
  intros s.
  assert (HRec : PNaCl.AllowErrorRecovery (PNaCl.Flags (PNaCl.Context s))
                 = true) by (vm_compute; reflexivity).
  rewrite (isValidRecordSizeInRange_accepts 0 1 "return" [1; 1; 1] s
             ltac:(lia) HRec).
  reflexivity.
Defined.


(** ** The records of the types block that define a simple type *)

Section TypeTableFacts.

Import Ice PNaCl.

Lemma lookup_resize_old {A} (n : nat) (x : A) (l : list A) (i : nat) :
  (i < length l)%nat -> (length l <= n)%nat -> resize n x l !! i = l !! i.
Proof.
  intros Hi Hn. unfold resize. rewrite take_ge by lia.
  apply lookup_app_l. exact Hi.
Qed.

Lemma length_resize {A} (n : nat) (x : A) (l : list A) :
  length (resize n x l) = n.
Proof.
  unfold resize. rewrite length_app, length_take, length_replicate. lia.
Qed.

(** [getTypeByIDForDefining], with error recovery: the entry for the
    ID is there afterwards, whatever the table held. *)
Lemma getTypeByIDForDefining_cases (ID : Z) (s : TypesParser) :
  AllowErrorRecovery (Flags (TypesContext s)) = true ->
  0 <= ID < 2^32 - 1 ->
  exists s1,
    getTypeByIDForDefining ID s = Returns (Z.to_nat ID) s1 /\
    NextTypeId s1 = NextTypeId s /\
    ErrStream (TypesContext s1)
    = ErrStream (TypesContext s)
      ++ Spec.typeDefinitionErrors (TypeIDValues (TypesContext s)) ID /\
    Flags (TypesContext s1) = Flags (TypesContext s) /\
    is_Some (TypeIDValues (TypesContext s1) !! Z.to_nat ID) /\
    (forall ID' E, TypeIDValues (TypesContext s) !! ID' = Some E ->
       TypeIDValues (TypesContext s1) !! ID' = Some E).
Proof.
  intros HRec HID.
  unfold getTypeByIDForDefining, getTypeByIDAsKind, reportBadTypeIDAs,
    Spec.typeDefinitionErrors.
  destruct (Z.ltb_spec ID (Z.of_nat (length (TypeIDValues (TypesContext s)))))
    as [HLt|HGe].
  - destruct (TypeIDValues (TypesContext s) !! Z.to_nat ID) as [E|] eqn:HE;
      [|apply lookup_ge_None in HE; lia].
    destruct (decide (Kind E = Undefined)) as [HK|HK].
    + mrun. apply Z.ltb_lt in HLt. rewrite HLt, HE.
      destruct (decide (Kind E = Undefined)); [|contradiction].
      exists s. rewrite app_nil_r, HE. repeat split; eauto.
    + mrun. pose proof HLt as HLt'. apply Z.ltb_lt in HLt'.
      rewrite HLt', HE.
      destruct (decide (Kind E = Undefined)); [contradiction|].
      mrun. rewrite HRec. mrun.
      destruct (Z.leb_spec (Z.of_nat (length (TypeIDValues (TypesContext s))))
                           ID) as [?|_]; [lia|].
      eexists. split; [reflexivity|]. simpl. rewrite HE.
      repeat split; eauto.
  - assert (HNone : TypeIDValues (TypesContext s) !! Z.to_nat ID = None)
      by (apply lookup_ge_None; lia).
    mrun. pose proof HGe as HGe'. apply Z.ltb_ge in HGe'. rewrite HGe'.
    mrun. rewrite HRec. mrun.
    pose proof HGe as HGe''. apply Z.leb_le in HGe''. rewrite HGe''.
    unfold modifyContext. mrun.
    eexists. split; [reflexivity|]. simpl. rewrite HNone.
    rewrite (to_uint32_small (ID + 1)) by lia.
    split; [reflexivity|]. split; [reflexivity|]. split; [reflexivity|].
    split.
    + apply lookup_lt_is_Some. rewrite length_resize. lia.
    + intros ID' E' HE'. rewrite lookup_resize_old; [exact HE'| |lia].
      apply lookup_lt_Some in HE'. exact HE'.
Qed.

(** [setNextTypeIDAsSimpleType], with error recovery: whatever the table
    holds for the next type ID, the type is defined under it. *)
Lemma setNextTypeIDAsSimpleType_defines (Ty : IceType) (s : TypesParser) :
  AllowErrorRecovery (Flags (TypesContext s)) = true ->
  0 <= NextTypeId s < 2^32 - 1 ->
  exists s',
    setNextTypeIDAsSimpleType Ty s = Returns tt s' /\
    NextTypeId s' = NextTypeId s + 1 /\
    ErrStream (TypesContext s')
    = ErrStream (TypesContext s)
      ++ Spec.typeDefinitionErrors (TypeIDValues (TypesContext s))
                                   (NextTypeId s) /\
    (exists E, TypeIDValues (TypesContext s') !! Z.to_nat (NextTypeId s)
               = Some E /\ Kind E = Simple /\
               SigReturnType (Signature E) = Ty) /\
    Flags (TypesContext s') = Flags (TypesContext s) /\
    (forall ID E, ID <> Z.to_nat (NextTypeId s) ->
       TypeIDValues (TypesContext s) !! ID = Some E ->
       TypeIDValues (TypesContext s') !! ID = Some E).
Proof.
  intros HRec HNext. unfold setNextTypeIDAsSimpleType.
  rewrite (bind_Returns get _ s s s) by reflexivity.
  set (s1 := mkTypesParser (TypesContext s) (to_uint32 (NextTypeId s + 1))).
  rewrite (bind_Returns (put s1) _ s tt s1) by reflexivity.
  destruct (getTypeByIDForDefining_cases (NextTypeId s) s1 HRec HNext)
    as (s2 & E2 & HN2 & HErr2 & HF2 & (E0 & HE0) & HOld).
  rewrite (bind_Returns _ _ _ _ _ E2).
  unfold updateType, modifyContext, modify.
  eexists. split; [reflexivity|]. simpl.
  rewrite (alter_as_insert _ _ _ _ HE0).
  split; [rewrite HN2; subst s1; simpl; apply to_uint32_small; lia|].
  split; [exact HErr2|].
  split; [|split; [exact HF2|]].
  - eexists. split; [apply list_lookup_insert_eq;
                     apply lookup_lt_Some in HE0; exact HE0|].
    split; reflexivity.
  - intros ID' E' HID HE'. rewrite list_lookup_insert_ne by congruence.
    apply HOld. exact HE'.
Qed.



(** X7.  An INTEGER record defines the scalar integer type of the bit width
    that it names.  When no scalar integer type has that width, the record
    is reported and changes nothing else: no type is defined and the next
    type ID stays, so that the types that follow are defined under the IDs
    that this record should have used. *)
Theorem integer_type_record_width (N : Z) (s : TypesParser) :
  TypesParser_ProcessRecord TYPE_CODE_INTEGER [N] s
  = match Spec.integerTypeOfWidth N with
    | Some T => setNextTypeIDAsSimpleType T s
    | None => Error (Spec.invalidBitsize N) s
    end /\
  (Spec.integerTypeOfWidth N = None ->
   let s' := finalState (TypesParser_ProcessRecord TYPE_CODE_INTEGER [N] s) in
   NextTypeId s' = NextTypeId s /\
   TypeIDValues (TypesContext s') = TypeIDValues (TypesContext s) /\
   ErrStream (TypesContext s')
   = ErrStream (TypesContext s) ++ [Spec.invalidBitsize N]) /\
  (forall T, Spec.integerTypeOfWidth N = Some T <->
             isScalarIntegerType T = true /\ getScalarIntBitWidth T = N).
Proof.
  assert (HProc : TypesParser_ProcessRecord TYPE_CODE_INTEGER [N] s
    = match Spec.integerTypeOfWidth N with
      | Some T => setNextTypeIDAsSimpleType T s
      | None => Error (Spec.invalidBitsize N) s
      end).
  { unfold TypesParser_ProcessRecord.
    change (isValidRecordSize 1 "integer" [N]) with (@ret TypesParser _ true).
    change (at_ [N] 0%nat) with N.
    destruct N as [|p|p]; try reflexivity.
    do 7 (try destruct p as [p|p|]); reflexivity. }
  split; [exact HProc|]. split.
  - intros HNone. rewrite HProc, HNone. unfold Error. mrun.
    destruct (AllowErrorRecovery _); simpl; repeat split.
  - intros T. unfold Spec.integerTypeOfWidth. split.
    + intros H. apply find_some in H. destruct H as [_ H].
      apply andb_true_iff in H. destruct H as [H1 H2].
      split; [exact H1|apply Z.eqb_eq; exact H2].
    + intros [H1 H2]. subst N. destruct T; try discriminate; reflexivity.
Qed.

(** X8.  A VECTOR record defines the vector type that has the element count
    of the record (as a 32-bit number) and the element type that its type
    ID names, when there is such a vector type; otherwise it is reported
    and no type is defined, and the next type ID stays. *)
Theorem vector_type_record_shape (Size BaseID : Z) (s : TypesParser)
    (HBase : Spec.isSimpleTypeID (TypeIDValues (TypesContext s)) BaseID) :
  let BaseTy := Spec.simpleTypeOf (TypeIDValues (TypesContext s)) BaseID in
  TypesParser_ProcessRecord TYPE_CODE_VECTOR [Size; BaseID] s
  = match Spec.vectorTypeOf (to_uint32 Size) BaseTy with
    | Some T => setNextTypeIDAsSimpleType T s
    | None => Error (Spec.invalidVector Size BaseTy) s
    end /\
  (Spec.vectorTypeOf (to_uint32 Size) BaseTy = None ->
   let s' := finalState
               (TypesParser_ProcessRecord TYPE_CODE_VECTOR [Size; BaseID] s) in
   NextTypeId s' = NextTypeId s /\
   TypeIDValues (TypesContext s') = TypeIDValues (TypesContext s) /\
   ErrStream (TypesContext s')
   = ErrStream (TypesContext s) ++ [Spec.invalidVector Size BaseTy]) /\
  (forall T, Spec.vectorTypeOf (to_uint32 Size) BaseTy = Some T <->
             isVectorType T = true /\ typeNumElements T = to_uint32 Size /\
             typeElementType T = BaseTy).
Proof.
  intros BaseTy.
  assert (HProc : TypesParser_ProcessRecord TYPE_CODE_VECTOR [Size; BaseID] s
    = match Spec.vectorTypeOf (to_uint32 Size) BaseTy with
      | Some T => setNextTypeIDAsSimpleType T s
      | None => Error (Spec.invalidVector Size BaseTy) s
      end).
  { unfold TypesParser_ProcessRecord.
    change (isValidRecordSize 2 "vector" [Size; BaseID])
      with (@ret TypesParser _ true).
    rewrite (bind_Returns (ret true) _ s true s) by reflexivity.
    cbn [negb]. cbv beta iota.
    change (at_ [Size; BaseID] 1%nat) with BaseID.
    change (at_ [Size; BaseID] 0%nat) with Size.
    rewrite (bind_Returns _ _ _ _ _ (getSimpleTypeByID_run BaseID s HBase)).
    fold BaseTy. unfold Spec.invalidVector.
    generalize (to_uint32 Size). intros N.
    destruct BaseTy;
      (destruct N as [|p|p]; try reflexivity;
       do 5 (try destruct p as [p|p|]); reflexivity). }
  split; [exact HProc|]. split.
  - intros HNone. rewrite HProc, HNone. unfold Error. mrun.
    destruct (AllowErrorRecovery _); simpl; repeat split.
  - intros T. unfold Spec.vectorTypeOf. split.
    + intros H. apply find_some in H. destruct H as [_ H].
      apply andb_true_iff in H. destruct H as [H H3].
      apply andb_true_iff in H. destruct H as [H1 H2].
      apply bool_decide_eq_true in H3. apply Z.eqb_eq in H2. tauto.
    + intros (H1 & H2 & H3). rewrite <- H2, <- H3.
      destruct T; try discriminate; reflexivity.
Qed.

Lemma vector_type_record_shape_witness :
  let s := Spec.exampleTypes in
  TypesParser_ProcessRecord TYPE_CODE_VECTOR [4; 1] s
  = setNextTypeIDAsSimpleType IceType_v4i32 s /\
  finalState (TypesParser_ProcessRecord TYPE_CODE_VECTOR [4; 3] s)
  = Spec.withError (Spec.invalidVector 4 IceType_f64) s.
Proof.
  intros s.
  assert (H1 : Spec.isSimpleTypeID (TypeIDValues (TypesContext s)) 1).
  { exists (mkExtendedType Simple (mkFuncSigType IceType_i32 [])).
    split; [vm_compute; reflexivity|reflexivity]. }
  assert (H3 : Spec.isSimpleTypeID (TypeIDValues (TypesContext s)) 3).
  { exists (mkExtendedType Simple (mkFuncSigType IceType_f64 [])).
    split; [vm_compute; reflexivity|reflexivity]. }
  destruct (vector_type_record_shape 4 1 s H1) as (E1 & _ & _).
  destruct (vector_type_record_shape 4 3 s H3) as (E3 & _ & _).
  split.
  - rewrite E1. reflexivity.
  - rewrite E3. vm_compute. reflexivity.
Defined.

End TypeTableFacts.


(** ** A globals block *)

Ltac gsimpl :=
  cbn [PNaCl.NextGlobalID PNaCl.GlobalsContext PNaCl.InitializersNeeded
       PNaCl.DummyGlobalVar PNaCl.CurGlobalVar PNaCl.VariableDeclarations
       PNaCl.Flags PNaCl.ErrStream PNaCl.NumErrors PNaCl.ErrorStatus
       PNaCl.TypeIDValues PNaCl.FunctionDeclarationList
       PNaCl.ValueIDConstants PNaCl.NumFunctionIds PNaCl.NumFunctionBlocks
       PNaCl.DefiningFunctionDeclarationsList
       PNaCl.setVariableDeclarations PNaCl.setInitializersNeeded
       PNaCl.setCurGlobalVar PNaCl.setNextGlobalID PNaCl.setContext
       PNaCl.getContext PNaCl.GlobalsParser_BlockParser PNaCl.curGlobalVar
       Spec.globalsState].

Ltac grun :=
  repeat (progress
            (unfold PNaCl.isIRGenerationDisabled, PNaCl.context,
               PNaCl.getGlobalVariableByID, PNaCl.updateCurGlobalVar,
               PNaCl.bind, PNaCl.get, PNaCl.ret, PNaCl.modify,
               PNaCl.modifyContext, PNaCl.when;
             gsimpl)).

Section GlobalsBlockFacts.

Import Ice PNaCl.

Variable C : TopLevelParser.
Hypothesis HIR : DisableIRGeneration (Flags C) = false.

Local Abbreviation st := (Spec.globalsState C).

Lemma VAR_step (Decls : list VariableDeclaration) (Needed : Z)
    (Cur : option nat) (k : nat) (p c : Z) :
  Decls !! k = Some newVariableDeclaration ->
  Z.of_nat k + 1 < 2^32 ->
  Needed
  = Z.of_nat (length (Initializers
                        (curGlobalVar (st Decls Needed (Z.of_nat k) Cur)))) ->
  GlobalsParser_ProcessRecord GLOBALVAR_VAR [p; c]
    (st Decls Needed (Z.of_nat k) Cur)
  = Returns tt
      (st (<[k := Spec.declarationOf (Spec.mkVarSpec p c [])]> Decls) 1
          (Z.of_nat k + 1) (Some k)).
Proof.
  intros HD Hk HN.
  unfold GlobalsParser_ProcessRecord.
  change (isValidRecordSize 2 "variable" [p; c])
    with (@ret GlobalsParser _ true).
  rewrite (bind_Returns (ret true) _ _ true _) by reflexivity.
  cbn [negb]. cbv beta iota.
  assert (HV : verifyNoMissingInitializers (st Decls Needed (Z.of_nat k) Cur)
               = Returns tt (st Decls Needed (Z.of_nat k) Cur)).
  { unfold verifyNoMissingInitializers. unfold bind at 1. unfold get at 1.
    rewrite <- HN. simpl (InitializersNeeded _). rewrite Z.eqb_refl.
    reflexivity. }
  rewrite (bind_Returns _ _ _ _ _ HV).
  grun. rewrite HIR. grun.
  assert (HLt : (Z.of_nat k <? Z.of_nat (length Decls)) = true)
    by (apply Z.ltb_lt; apply lookup_lt_Some in HD; lia).
  rewrite HLt. grun.
  rewrite Nat2Z.id.
  rewrite (alter_as_insert _ _ _ _ HD).
  rewrite (alter_as_insert _ k (setAlignment _ newVariableDeclaration))
    by (apply list_lookup_insert_eq; apply lookup_lt_Some in HD; exact HD).
  rewrite list_insert_insert_eq, to_uint32_small by lia. reflexivity.
Qed.

Lemma COMPOUND_step (Decls : list VariableDeclaration) (Needed Next : Z)
    (k : nat) (D : VariableDeclaration) (Len : Z) :
  Decls !! k = Some D -> Initializers D = [] -> 2 <= Len < 2^32 ->
  GlobalsParser_ProcessRecord GLOBALVAR_COMPOUND [Len]
    (st Decls Needed Next (Some k))
  = Returns tt (st Decls Len Next (Some k)).
Proof.
  intros HD HI HLen. unfold GlobalsParser_ProcessRecord.
  change (isValidRecordSize 1 "compound" [Len])
    with (@ret GlobalsParser _ true).
  rewrite (bind_Returns (ret true) _ _ true _) by reflexivity.
  cbn [negb]. cbv beta iota. change (at_ [Len] 0%nat) with Len.
  grun. rewrite HD. cbn [default from_option id]. rewrite HI.
  rewrite bool_decide_eq_true_2 by reflexivity. cbn [negb].
  destruct (Z.ltb_spec Len 2) as [?|_]; [lia|].
  grun. rewrite HIR. rewrite to_uint32_small by lia. reflexivity.
Qed.

Lemma initializer_step (Decls : list VariableDeclaration) (Needed Next : Z)
    (k : nat) (D : VariableDeclaration) (i : Spec.InitSpec) :
  Decls !! k = Some D ->
  match i with Spec.Data [] => False | _ => True end ->
  GlobalsParser_ProcessRecord (Spec.initRecord i).1 (Spec.initRecord i).2
    (st Decls Needed Next (Some k))
  = Returns tt
      (st (<[k := addInitializer (Spec.initializerOf i) D]> Decls)
          Needed Next (Some k)).
Proof.
  intros HD Hwf. destruct i as [Size|Bytes]; simpl.
  - change (isValidRecordSize 1 "zerofill" [Size])
      with (@ret GlobalsParser _ true).
    rewrite (bind_Returns (ret true) _ _ true _) by reflexivity.
    cbn [negb]. cbv beta iota. change (at_ [Size] 0%nat) with Size.
    grun. rewrite HIR. grun. rewrite (alter_as_insert _ _ _ _ HD).
    reflexivity.
  - assert (HSize : isValidRecordSizeAtLeast 1 "data" Bytes
                    = @ret GlobalsParser _ true).
    { unfold isValidRecordSizeAtLeast. destruct Bytes; [contradiction|].
      assert (H : (1 <=? Z.of_nat (length (z :: Bytes))) = true)
        by (apply Z.leb_le; simpl length; lia).
      rewrite H. reflexivity. }
    rewrite HSize.
    rewrite (bind_Returns (ret true) _ _ true _) by reflexivity.
    cbn [negb]. cbv beta iota.
    grun. rewrite HIR. grun. rewrite (alter_as_insert _ _ _ _ HD).
    reflexivity.
Qed.

Lemma ProcessRecords_app {S R} (f : R -> M S unit) (l1 l2 : list R) (s : S) :
  ProcessRecords f (l1 ++ l2) s
  = bind (ProcessRecords f l1) (fun _ => ProcessRecords f l2) s.
Proof.
  revert s. induction l1 as [|r l1 IH]; intros s; [reflexivity|].
  simpl. unfold bind. destruct (f r s) as [[] s1|s1]; [|reflexivity].
  rewrite IH. unfold bind. reflexivity.
Qed.

Local Abbreviation process :=
  (ProcessRecords
     (fun '(Code, Values) => GlobalsParser_ProcessRecord Code Values)).

Lemma initializers_steps (Is : list Spec.InitSpec)
    (Decls : list VariableDeclaration) (Needed Next : Z)
    (k : nat) (D : VariableDeclaration) :
  Decls !! k = Some D ->
  Forall (fun i => match i with Spec.Data [] => False | _ => True end) Is ->
  process (Spec.initRecord <$> Is) (st Decls Needed Next (Some k))
  = Returns tt
      (st (<[k := mkVariableDeclaration (VarName D) (VarSuppressMangling D)
                    (Alignment D) (IsConstant D)
                    (Initializers D ++ (Spec.initializerOf <$> Is))]> Decls)
          Needed Next (Some k)).
Proof.
  revert Decls D. induction Is as [|i Is IH]; intros Decls D HD Hwf.
  - simpl. rewrite app_nil_r. unfold ret. f_equal. f_equal.
    symmetry. apply list_insert_id. rewrite HD. destruct D; reflexivity.
  - apply Forall_cons in Hwf. destruct Hwf as [Hi Hwf].
    cbn [fmap list_fmap ProcessRecords].
    pose proof (initializer_step Decls Needed Next k D i HD Hi) as E.
    destruct (Spec.initRecord i) as [Code Values] eqn:ER. simpl in E.
    rewrite (bind_Returns _ _ _ _ _ E).
    rewrite (IH _ (addInitializer (Spec.initializerOf i) D));
      [|apply list_lookup_insert_eq; apply lookup_lt_Some in HD; exact HD
       |exact Hwf].
    rewrite list_insert_insert_eq. simpl. rewrite <- app_assoc. reflexivity.
Qed.

(** The records of one variable. *)
Lemma variable_steps (v : Spec.VarSpec) (Decls : list VariableDeclaration)
    (Needed : Z) (Cur : option nat) (k : nat) :
  Decls !! k = Some newVariableDeclaration ->
  Z.of_nat k + 1 < 2^32 ->
  Needed
  = Z.of_nat (length (Initializers
                        (curGlobalVar (st Decls Needed (Z.of_nat k) Cur)))) ->
  Spec.wellFormedVar v ->
  process (Spec.varRecords v) (st Decls Needed (Z.of_nat k) Cur)
  = Returns tt
      (st (<[k := Spec.declarationOf v]> Decls)
          (Z.of_nat (length (Spec.Inits v))) (Z.of_nat k + 1) (Some k)).
Proof.
  intros HD Hk HN (H1 & H2 & Hwf). unfold Spec.varRecords.
  cbn [ProcessRecords].
  rewrite (bind_Returns _ _ _ _ _
             (VAR_step Decls Needed Cur k (Spec.AlignPower v) (Spec.IsConst v)
                       HD Hk HN)).
  set (D := Spec.declarationOf (Spec.mkVarSpec _ _ [])).
  assert (HD' : <[k := D]> Decls !! k = Some D)
    by (apply list_lookup_insert_eq; apply lookup_lt_Some in HD; exact HD).
  rewrite ProcessRecords_app.
  assert (HC : process
                 (if (length (Spec.Inits v) =? 1)%nat then []
                  else [(GLOBALVAR_COMPOUND,
                         [Z.of_nat (length (Spec.Inits v))])])
                 (st (<[k := D]> Decls) 1 (Z.of_nat k + 1) (Some k))
               = Returns tt
                   (st (<[k := D]> Decls) (Z.of_nat (length (Spec.Inits v)))
                       (Z.of_nat k + 1) (Some k))).
  { destruct (Nat.eqb_spec (length (Spec.Inits v)) 1) as [E1|E1].
    - rewrite E1. reflexivity.
    - cbn [ProcessRecords].
      assert (HL : 2 <= Z.of_nat (length (Spec.Inits v)) < 2^32) by lia.
      rewrite (bind_Returns _ _ _ _ _
                 (COMPOUND_step _ 1 _ k D _ HD' eq_refl HL)).
      reflexivity. }
  rewrite (bind_Returns _ _ _ _ _ HC).
  rewrite (initializers_steps _ _ _ _ k D HD' Hwf).
  rewrite list_insert_insert_eq. reflexivity.
Qed.

(** The records of the variables that are left, after the variables
    [Done]. *)
Lemma variables_steps (Rest Done : list Spec.VarSpec) (Needed : Z)
    (Cur : option nat) :
  let Decls := (Spec.declarationOf <$> Done)
               ++ replicate (length Rest) newVariableDeclaration in
  Z.of_nat (length Done + length Rest) < 2^32 ->
  Needed
  = Z.of_nat (length (Initializers
                        (curGlobalVar
                           (st Decls Needed (Z.of_nat (length Done)) Cur)))) ->
  Forall Spec.wellFormedVar Rest ->
  exists Needed' Cur',
    process (flat_map Spec.varRecords Rest)
            (st Decls Needed (Z.of_nat (length Done)) Cur)
    = Returns tt
        (st (Spec.declarationOf <$> (Done ++ Rest)) Needed'
            (Z.of_nat (length Done + length Rest)) Cur') /\
    Needed'
    = Z.of_nat (length (Initializers
                          (curGlobalVar
                             (st (Spec.declarationOf <$> (Done ++ Rest))
                                 Needed'
                                 (Z.of_nat (length Done + length Rest))
                                 Cur')))).
Proof.
  revert Done Needed Cur. induction Rest as [|v Rest IH];
    intros Done Needed Cur Decls HLen HN Hwf.
  - exists Needed, Cur. subst Decls. simpl in *.
    rewrite !app_nil_r, Nat.add_0_r in *. split; [reflexivity|exact HN].
  - apply Forall_cons in Hwf. destruct Hwf as [Hv Hwf].
    cbn [flat_map]. rewrite ProcessRecords_app.
    assert (HD : Decls !! length Done = Some newVariableDeclaration).
    { subst Decls. rewrite lookup_app_r by (rewrite length_fmap; lia).
      rewrite length_fmap, Nat.sub_diag. reflexivity. }
    rewrite (bind_Returns _ _ _ _ _
               (variable_steps v Decls Needed Cur (length Done) HD
                  ltac:(simpl in HLen; lia) HN Hv)).
    assert (HDecls : <[length Done := Spec.declarationOf v]> Decls
                     = (Spec.declarationOf <$> (Done ++ [v]))
                       ++ replicate (length Rest) newVariableDeclaration).
    { subst Decls. rewrite fmap_app, <- app_assoc. simpl.
      rewrite insert_app_r_alt by (rewrite length_fmap; lia).
      rewrite length_fmap, Nat.sub_diag. reflexivity. }
    rewrite HDecls.
    assert (HLenDone : length (Done ++ [v]) = S (length Done))
      by (rewrite length_app; simpl; lia).
    replace (Z.of_nat (length Done) + 1) with (Z.of_nat (length (Done ++ [v])))
      by lia.
    destruct (IH (Done ++ [v]) (Z.of_nat (length (Spec.Inits v)))
                 (Some (length Done)))
      as (Needed' & Cur' & E & HN'); [simpl in HLen; lia| |exact Hwf|].
    { gsimpl. rewrite lookup_app_l
        by (rewrite length_fmap, length_app; simpl; lia).
      rewrite list_lookup_fmap, lookup_app_r by lia.
      rewrite Nat.sub_diag. simpl. rewrite length_fmap. reflexivity. }
    exists Needed', Cur'. rewrite <- app_assoc in E, HN'. simpl in E, HN'.
    replace (length (Done ++ [v]) + length Rest)%nat
      with (length Done + length (v :: Rest))%nat in E, HN'
      by (simpl; lia).
    split; [exact E|exact HN'].
Qed.


End GlobalsBlockFacts.



(** ** What the records of a function block do to the module *)

Create HintDb frames.

Section FunctionFrames.

Context {Collab : PNaCl.Collaborators}.

Import Ice PNaCl.

(** A relation on the states of the function parser that every report of
    a diagnostic, every store in the cache of the constants and every
    change outside the top-level parser keeps. *)
Variable R : FunctionParser -> FunctionParser -> Prop.
Hypothesis R_refl : Reflexive R.
Hypothesis R_trans : Transitive R.
Hypothesis R_error :
  forall Msg s, R s (setFunctionContext (recordError Msg (Context s)) s).
Hypothesis R_constants :
  forall V s,
    R s (setFunctionContext (setValueIDConstants V (Context s)) s).
Hypothesis R_local : forall s s', Context s' = Context s -> R s s'.

Ltac head_of t :=
  match t with
  | ?f _ => head_of f
  | _ => t
  end.

Ltac frame_modify :=
  apply (keeps_modify R); intros;
  first [ apply R_local; reflexivity | apply R_error | apply R_constants ].

Ltac frame_step :=
  match goal with
  | H : Spec.keeps R ?m |- Spec.keeps R ?m => exact H
  | H : forall x, Spec.keeps R _ |- _ => solve [apply H]
  | H : forall x y, Spec.keeps R _ |- _ => solve [apply H]
  | |- Spec.keeps _ (bind _ _) =>
      apply (keeps_bind R R_trans); [|intros]
  | |- Spec.keeps _ (ret _) => apply (keeps_ret R R_refl)
  | |- Spec.keeps _ get => apply (keeps_get R R_refl)
  | |- Spec.keeps _ context => apply (keeps_context R R_refl)
  | |- Spec.keeps _ report_fatal_error =>
      apply (keeps_report_fatal_error R R_refl)
  | |- Spec.keeps _ (when _ _) => apply (keeps_when R R_refl)
  | |- Spec.keeps _ (modify _) => frame_modify
  | |- Spec.keeps _ (modifyContext _) => unfold modifyContext; frame_modify
  | |- Spec.keeps _ (put _) => intros ?; apply R_local; reflexivity
  | |- Spec.keeps _ (if ?b then _ else _) => destruct b
  | |- Spec.keeps _ (match ?x with _ => _ end) => destruct x
  | |- Spec.keeps _ (let '(_, _) := ?x in _) => destruct x
  end.

Ltac frame_tac := repeat first [solve [auto with frames] | frame_step].

Ltac frame_unfold :=
  match goal with
  | |- Spec.keeps _ ?m => let h := head_of m in unfold h
  end.

Lemma Error_frame Msg :
  Spec.keeps R (Error (S := FunctionParser) Msg).
Proof. unfold Error. frame_tac. Qed.

Hint Resolve Error_frame : frames.

Lemma ReportRecordSizeError_frame Size Name Ctx Values :
  Spec.keeps R (ReportRecordSizeError (S := FunctionParser) Size Name Ctx Values).
Proof. unfold ReportRecordSizeError. frame_tac. Qed.

Hint Resolve ReportRecordSizeError_frame : frames.

Lemma isValidRecordSize_frame Size Name Values :
  Spec.keeps R (isValidRecordSize (S := FunctionParser) Size Name Values).
Proof. unfold isValidRecordSize. frame_tac. Qed.

Hint Resolve isValidRecordSize_frame : frames.

Lemma isValidRecordSizeAtLeast_frame Size Name Values :
  Spec.keeps R (isValidRecordSizeAtLeast (S := FunctionParser) Size Name Values).
Proof. unfold isValidRecordSizeAtLeast. frame_tac. Qed.

Hint Resolve isValidRecordSizeAtLeast_frame : frames.

Lemma isValidRecordSizeAtMost_frame Size Name Values :
  Spec.keeps R (isValidRecordSizeAtMost (S := FunctionParser) Size Name Values).
Proof. unfold isValidRecordSizeAtMost. frame_tac. Qed.

Hint Resolve isValidRecordSizeAtMost_frame : frames.

Lemma isValidRecordSizeInRange_frame Lo Hi Name Values :
  Spec.keeps R (isValidRecordSizeInRange (S := FunctionParser) Lo Hi Name Values).
Proof. unfold isValidRecordSizeInRange. frame_tac. Qed.

Hint Resolve isValidRecordSizeInRange_frame : frames.

Lemma ProcessRecord_default_frame Code Values :
  Spec.keeps R (ProcessRecord_default (S := FunctionParser) Code Values).
Proof. unfold ProcessRecord_default. frame_tac. Qed.

Hint Resolve ProcessRecord_default_frame : frames.

Lemma getSimpleTypeByID_frame ID :
  Spec.keeps R (getSimpleTypeByID (S := FunctionParser) ID).
Proof. unfold getSimpleTypeByID, getTypeByIDAsKind, reportBadTypeIDAs. frame_tac. Qed.

Hint Resolve getSimpleTypeByID_frame : frames.

Lemma getFunctionByID_frame ID :
  Spec.keeps R (getFunctionByID (S := FunctionParser) ID).
Proof. unfold getFunctionByID, reportGetFunctionByIDError. frame_tac. Qed.

Hint Resolve getFunctionByID_frame : frames.

Lemma getOrCreateGlobalConstantByID_frame ID :
  Spec.keeps R (getOrCreateGlobalConstantByID (S := FunctionParser) ID).
Proof. unfold getOrCreateGlobalConstantByID. frame_tac. Qed.

Hint Resolve getOrCreateGlobalConstantByID_frame : frames.

Lemma isIRGenerationDisabled_frame :
  Spec.keeps R (isIRGenerationDisabled (S := FunctionParser)).
Proof. unfold isIRGenerationDisabled. frame_tac. Qed.

Hint Resolve isIRGenerationDisabled_frame : frames.

Lemma deref_frame {A} (p : option A) :
  Spec.keeps R (deref p).
Proof. unfold deref. frame_tac. Qed.

Hint Resolve deref_frame : frames.

Lemma useFunc_frame :
  Spec.keeps R (useFunc).
Proof. unfold useFunc. frame_tac. Qed.

Hint Resolve useFunc_frame : frames.

Lemma appendToCurrentNode_frame Instr :
  Spec.keeps R (appendToCurrentNode Instr).
Proof. unfold appendToCurrentNode. frame_tac. Qed.

Hint Resolve appendToCurrentNode_frame : frames.

Lemma extractAlignment_frame Name AlignPower :
  Spec.keeps R (extractAlignment Name AlignPower).
Proof. unfold extractAlignment. frame_tac. Qed.

Hint Resolve extractAlignment_frame : frames.

Lemma setOperand_frame Index Op :
  Spec.keeps R (setOperand Index Op).
Proof. unfold setOperand. frame_tac. Qed.

Hint Resolve setOperand_frame : frames.

Lemma setNextLocalInstIndex_frame Op :
  Spec.keeps R (setNextLocalInstIndex Op).
Proof. unfold setNextLocalInstIndex. frame_tac. Qed.

Hint Resolve setNextLocalInstIndex_frame : frames.

Lemma InstallNextBasicBlock_frame :
  Spec.keeps R (InstallNextBasicBlock).
Proof. unfold InstallNextBasicBlock. frame_tac. Qed.

Hint Resolve InstallNextBasicBlock_frame : frames.

Lemma getBasicBlock_frame Index :
  Spec.keeps R (getBasicBlock Index).
Proof. unfold getBasicBlock. frame_tac. Qed.

Hint Resolve getBasicBlock_frame : frames.

Lemma getBranchBasicBlock_frame Index :
  Spec.keeps R (getBranchBasicBlock Index).
Proof. unfold getBranchBasicBlock. frame_tac. Qed.

Hint Resolve getBranchBasicBlock_frame : frames.

Lemma createInstVar_frame T :
  Spec.keeps R (createInstVar T).
Proof. unfold createInstVar. frame_tac. Qed.

Hint Resolve createInstVar_frame : frames.

Lemma getNextInstVar_frame T :
  Spec.keeps R (getNextInstVar T).
Proof. unfold getNextInstVar. frame_tac. Qed.

Hint Resolve getNextInstVar_frame : frames.

Lemma appendErrorInstruction_frame T :
  Spec.keeps R (appendErrorInstruction T).
Proof. unfold appendErrorInstruction. frame_tac. Qed.

Hint Resolve appendErrorInstruction_frame : frames.

Lemma convertRelativeToAbsIndex_frame Id BaseIndex :
  Spec.keeps R (convertRelativeToAbsIndex Id BaseIndex).
Proof. unfold convertRelativeToAbsIndex. frame_tac. Qed.

Hint Resolve convertRelativeToAbsIndex_frame : frames.

Lemma ProcessRecord_enterBlock_frame :
  Spec.keeps R (ProcessRecord_enterBlock).
Proof. unfold ProcessRecord_enterBlock. frame_tac. Qed.

Hint Resolve ProcessRecord_enterBlock_frame : frames.

Lemma getOperand_frame Index :
  Spec.keeps R (getOperand Index).
Proof. unfold getOperand. frame_tac. Qed.

Hint Resolve getOperand_frame : frames.

Lemma getRelativeOperand_frame Id BaseIndex :
  Spec.keeps R (getRelativeOperand Id BaseIndex).
Proof. unfold getRelativeOperand. frame_tac. Qed.

Hint Resolve getRelativeOperand_frame : frames.

Lemma isValidPointerType_frame Op Name :
  Spec.keeps R (isValidPointerType Op Name).
Proof. unfold isValidPointerType. frame_tac. Qed.

Hint Resolve isValidPointerType_frame : frames.

Lemma isValidLoadStoreAlignment_frame Alignment T Name :
  Spec.keeps R (isValidLoadStoreAlignment Alignment T Name).
Proof. unfold isValidLoadStoreAlignment, isValidLoadStoreType. frame_tac. Qed.

Hint Resolve isValidLoadStoreAlignment_frame : frames.

Lemma convertBinopOpcode_frame Opcode T :
  Spec.keeps R (convertBinopOpcode Opcode T).
Proof. unfold convertBinopOpcode, isValidIntegerLogicalOp, isValidIntegerArithOp, isValidFloatingArithOp, ReportInvalidBinaryOp. frame_tac. Qed.

Hint Resolve convertBinopOpcode_frame : frames.

Lemma convertCastOpToIceOp_frame Opcode SourceType TargetType :
  Spec.keeps R (convertCastOpToIceOp Opcode SourceType TargetType).
Proof. unfold convertCastOpToIceOp. frame_tac. Qed.

Hint Resolve convertCastOpToIceOp_frame : frames.

Lemma repeatM_frame n (m : M FunctionParser unit) :
  Spec.keeps R m -> Spec.keeps R (repeatM n m).
Proof. intros Hm. induction n as [|n IH]; simpl; frame_tac. Qed.

Hint Resolve repeatM_frame : frames.

Lemma ProcessRecord_switchCases_frame n Index BitWidth Disabled Values Cases :
  Spec.keeps R (ProcessRecord_switchCases n Index BitWidth Disabled Values Cases).
Proof.
  revert Index Cases. induction n as [|n IH]; intros Index Cases; simpl;
    frame_tac.
Qed.

Hint Resolve ProcessRecord_switchCases_frame : frames.

Lemma ProcessRecord_callArguments_frame BaseIndex Params :
  Spec.keeps R (ProcessRecord_callArguments BaseIndex Params).
Proof. induction Params as [|V Params IH]; simpl; frame_tac. Qed.

Hint Resolve ProcessRecord_callArguments_frame : frames.

Lemma ProcessRecord_phiArguments_frame T BaseIndex Rest Args :
  Spec.keeps R (ProcessRecord_phiArguments T BaseIndex Rest Args).
Proof.
  remember (length Rest) as n eqn:Hn.
  revert Rest Args Hn. induction n as [n IH] using lt_wf_ind.
  intros Rest Args Hn. destruct Rest as [|V Rest']; simpl; [frame_tac|].
  apply (keeps_bind R R_trans); [frame_tac|]. intros Op.
  apply (keeps_bind R R_trans); [frame_tac|]. intros Op'.
  destruct (negb _); [frame_tac|].
  apply (keeps_bind R R_trans); [frame_tac|].
  intros Block. destruct Rest' as [|W Rest'']; [frame_tac|].
  apply (IH (length Rest'')); [simpl in Hn; lia|reflexivity].
Qed.

Hint Resolve ProcessRecord_phiArguments_frame : frames.

Lemma ProcessRecord_frame Code Values :
  Spec.keeps R (ProcessRecord Code Values).
Proof.
  unfold ProcessRecord.
  repeat first [solve [auto with frames] | apply repeatM_frame | frame_step].
Qed.

Hint Resolve ProcessRecord_frame : frames.

Lemma ExitBlock_patchNodes_frame Indices :
  Spec.keeps R (ExitBlock_patchNodes Indices).
Proof. induction Indices as [|Index Indices IH]; simpl; frame_tac. Qed.

Hint Resolve ExitBlock_patchNodes_frame : frames.

Lemma ExitBlock_frame :
  Spec.keeps R (ExitBlock).
Proof. unfold ExitBlock. frame_tac. Qed.

Hint Resolve ExitBlock_frame : frames.

(** The records of a function block, and the exit from it. *)
Lemma function_block_frame (Records : list (FunctionCode * list Z)) :
  Spec.keeps R
    (ProcessRecords (fun '(Code, Values) => ProcessRecord Code Values)
                    Records ;;
     ExitBlock).
Proof.
  apply (keeps_bind R R_trans); [|intros; apply ExitBlock_frame].
  induction Records as [|[Code Values] Records IH]; simpl; frame_tac.
Qed.

End FunctionFrames.

Section FunctionBlockFacts.

Context {Collab : PNaCl.Collaborators}.

Import Ice PNaCl.

Lemma sameModule_refl : Reflexive Spec.sameModule.
Proof. intros s. repeat split. Qed.

Lemma sameModule_trans : Transitive Spec.sameModule.
Proof.
  intros s1 s2 s3. unfold Spec.sameModule. intros H12 H23.
  decompose [and] H12. decompose [and] H23.
  repeat split; congruence.
Qed.

Lemma reported_nil (C : TopLevelParser) : Spec.reported [] C C.
Proof. split; [symmetry; apply app_nil_r|split; reflexivity]. Qed.

Lemma reported_app (New1 New2 : list Message) (C1 C2 C3 : TopLevelParser) :
  Spec.reported New1 C1 C2 -> Spec.reported New2 C2 C3 ->
  Spec.reported (New1 ++ New2) C1 C3.
Proof.
  intros [E1 H1] [E2 H2]. split.
  - rewrite E2, E1, app_assoc. reflexivity.
  - destruct New2 as [|M2 New2].
    + rewrite app_nil_r. destruct H2 as [-> ->]. exact H1.
    + destruct H2 as [HN HS].
      assert (HNum : NumErrors C3
                     = to_uint32 (NumErrors C1
                                  + Z.of_nat (length (New1 ++ M2 :: New2)))).
      { rewrite HN. destruct New1 as [|M1 New1].
        - destruct H1 as [-> _]. reflexivity.
        - destruct H1 as [-> _]. unfold to_uint32.
          rewrite Zplus_mod_idemp_l. f_equal.
          rewrite (length_app (M1 :: New1)), Nat2Z.inj_add. lia. }
      destruct New1; simpl app; split; assumption.
Qed.

Lemma moreDiagnostics_refl : Reflexive Spec.moreDiagnostics.
Proof. intros s. exists []. apply reported_nil. Qed.

Lemma moreDiagnostics_trans : Transitive Spec.moreDiagnostics.
Proof.
  intros s1 s2 s3 [New1 H1] [New2 H2]. exists (New1 ++ New2).
  exact (reported_app _ _ _ _ _ H1 H2).
Qed.

(** X10.  No record of a function block, and not the exit from it, changes the
    type table, the declarations of the functions and of the global
    variables, or the settings of the module, whatever the records hold
    and however the block ends. *)
Theorem function_block_keeps_module
    (Records : list (FunctionCode * list Z)) (s : FunctionParser) :
  Spec.sameModule s
    (finalState
       ((ProcessRecords (fun '(Code, Values) => ProcessRecord Code Values)
                        Records ;;
         ExitBlock) s)).
Proof.
  apply (function_block_frame Spec.sameModule sameModule_refl
           sameModule_trans).
  - intros Msg s0. repeat split.
  - intros V s0. repeat split.
  - intros s0 s1 E. unfold Spec.sameModule. rewrite E. repeat split.
Qed.

(** X11.  The records of a function block and the exit from it only add to the
    diagnostics: what was reported before stays as it was, in front; the
    count of errors goes up by the number of diagnostics added; and the
    error status is set when one is added, and never cleared. *)
Theorem function_block_appends_diagnostics
    (Records : list (FunctionCode * list Z)) (s : FunctionParser) :
  Spec.moreDiagnostics s
    (finalState
       ((ProcessRecords (fun '(Code, Values) => ProcessRecord Code Values)
                        Records ;;
         ExitBlock) s)).
Proof.
  apply (function_block_frame Spec.moreDiagnostics moreDiagnostics_refl
           moreDiagnostics_trans).
  - intros Msg s0. exists [Msg]. repeat split.
  - intros V s0. exists []. split; [symmetry; apply app_nil_r|].
    split; reflexivity.
  - intros s0 s1 E. exists []. rewrite E. apply reported_nil.
Qed.

End FunctionBlockFacts.


(** ** The local values of a function *)

Section LocalOperandFacts.

Context {Collab : PNaCl.Collaborators}.

Import Ice PNaCl.

Lemma getOperand_defined (Index : Z) (Op : Operand) (s : FunctionParser) :
  CachedNumGlobalValueIDs s <= Index ->
  Index - CachedNumGlobalValueIDs s < 2^32 ->
  LocalOperands s !! Z.to_nat (Index - CachedNumGlobalValueIDs s)
  = Some (Some Op) ->
  getOperand Index s = Returns (Some Op) (logOperandLookup Index s).
Proof.
  intros HLo HHi HOp. unfold getOperand, bind, modify, get. simpl.
  assert (E1 : (Index <? CachedNumGlobalValueIDs s) = false)
    by (apply Z.ltb_ge; lia).
  rewrite E1. rewrite to_uint32_small by lia.
  apply lookup_lt_Some in HOp as HLt.
  assert (E2 : (Z.of_nat (length (LocalOperands s))
                <=? Index - CachedNumGlobalValueIDs s) = false)
    by (apply Z.leb_gt; lia).
  rewrite E2, HOp. reflexivity.
Qed.

(** X12.  After [setOperand] has set a local value, [getOperand] returns it for
    the same index, whatever the slot held before: a new slot at the end,
    a slot that a forward reference had reserved, or, with error
    recovery, a slot with another value, which is reported and replaced.
    The other local values stay as they were. *)
Theorem setOperand_getOperand_round_trip
    (Index : Z) (Op : Operand) (s : FunctionParser)
    (HLocal : CachedNumGlobalValueIDs s <= Index)
    (HRange : Index - CachedNumGlobalValueIDs s < 2^32 - 1)
    (HOk : AllowErrorRecovery (Flags (Context s)) = true \/
           mjoin (LocalOperands s
                    !! Z.to_nat (Index - CachedNumGlobalValueIDs s)) = None) :
  exists s',
    setOperand Index (Some Op) s = Returns tt s' /\
    getOperand Index s' = Returns (Some Op) (logOperandLookup Index s') /\
    forall Other : nat,
      Other <> Z.to_nat (Index - CachedNumGlobalValueIDs s) ->
      mjoin (LocalOperands s' !! Other) = mjoin (LocalOperands s !! Other).
Proof.
  set (L := Index - CachedNumGlobalValueIDs s) in *.
  assert (HL0 : 0 <= L) by (unfold L; lia).
  unfold setOperand. unfold bind at 1. unfold get at 1.
  fold L. rewrite (to_uint32_small L) by lia.
  destruct (L =? Z.of_nat (length (LocalOperands s))) eqn:EPush.
  - apply Z.eqb_eq in EPush. eexists. split; [reflexivity|]. split.
    + apply getOperand_defined; simpl; fold L; try lia.
      rewrite EPush, Nat2Z.id. apply list_lookup_middle. reflexivity.
    + intros Other HOther. simpl. rewrite EPush, Nat2Z.id in HOther.
      destruct (decide (Other < length (LocalOperands s))%nat) as [Hlt|Hge].
      * rewrite lookup_app_l by exact Hlt. reflexivity.
      * rewrite (lookup_ge_None_2 (LocalOperands s)) by lia.
        rewrite lookup_ge_None_2; [reflexivity|].
        rewrite length_app. simpl. lia.
  - apply Z.eqb_neq in EPush.
    set (Resized := if Z.of_nat (length (LocalOperands s)) <=? L
                    then resize (Z.to_nat (to_uint32 (L + 1))) None
                                (LocalOperands s)
                    else LocalOperands s).
    assert (HLen : (Z.to_nat L < length Resized)%nat).
    { unfold Resized. destruct (Z.leb_spec (Z.of_nat (length (LocalOperands s))) L).
      - rewrite to_uint32_small by lia. unfold resize.
        rewrite length_app, length_take, length_replicate. lia.
      - lia. }
    assert (HOld : forall Other : nat,
               mjoin (Resized !! Other) = mjoin (LocalOperands s !! Other)).
    { intros Other. unfold Resized.
      destruct (Z.leb_spec (Z.of_nat (length (LocalOperands s))) L);
        [|reflexivity].
      rewrite to_uint32_small by lia.
      unfold resize. rewrite take_ge by lia.
      destruct (decide (Other < length (LocalOperands s))%nat) as [Hlt|Hge].
      - rewrite lookup_app_l by exact Hlt. reflexivity.
      - rewrite (lookup_ge_None_2 (LocalOperands s)) by lia.
        rewrite lookup_app_r by lia.
        destruct (replicate _ _ !! _) as [x|] eqn:Ex; [|reflexivity].
        apply lookup_replicate in Ex as [-> _]. reflexivity. }
    unfold bind at 1. unfold modify at 1.
    destruct (mjoin (Resized !! Z.to_nat L)) as [OldOp|] eqn:ESlot.
    + case_bool_decide as EOld.
      * inversion EOld; subst OldOp. eexists. split; [reflexivity|]. split.
        -- apply getOperand_defined; simpl; fold L; try lia.
           destruct (Resized !! Z.to_nat L) as [[x|]|]; simpl in ESlot;
             congruence.
        -- intros Other _. simpl. apply HOld.
      * destruct HOk as [HRec|HNone];
          [|rewrite HOld in ESlot; congruence].
        unfold bind at 1. rewrite Error_recovery by exact HRec.
        eexists. split; [reflexivity|]. split.
        -- apply getOperand_defined; simpl; fold L; try lia.
           apply list_lookup_insert_eq. exact HLen.
        -- intros Other HOther. simpl.
           rewrite list_lookup_insert_ne by congruence. apply HOld.
    + eexists. split; [reflexivity|]. split.
      * apply getOperand_defined; simpl; fold L; try lia.
        apply list_lookup_insert_eq. exact HLen.
      * intros Other HOther. simpl.
        rewrite list_lookup_insert_ne by congruence. apply HOld.
Qed.

End LocalOperandFacts.

Lemma setOperand_getOperand_round_trip_witness :
  let s := Spec.exampleFunctionParser [] in
  let Op := Ice.IceVariable 7 Ice.IceType_i32 in
  exists s',
    PNaCl.setOperand 3 (Some Op) s = PNaCl.Returns tt s' /\
    PNaCl.getOperand 3 s' = PNaCl.Returns (Some Op) (PNaCl.logOperandLookup 3 s').
Proof.
  intros s Op.
  assert (HLocal : PNaCl.CachedNumGlobalValueIDs s <= 3)
    by (vm_compute; discriminate).
  assert (HRange : 3 - PNaCl.CachedNumGlobalValueIDs s < 2^32 - 1)
    by (vm_compute; reflexivity).
  assert (HOk : PNaCl.AllowErrorRecovery (PNaCl.Flags (PNaCl.Context s)) = true \/
                mjoin (PNaCl.LocalOperands s
                         !! Z.to_nat (3 - PNaCl.CachedNumGlobalValueIDs s))
                = None)
    by (left; vm_compute; reflexivity).
  destruct (setOperand_getOperand_round_trip 3 Op s HLocal HRange HOk)
    as (s' & HSet & HGet & _).
  exists s'. split; assumption.
Defined.


(** ** The constants of the global declarations *)

Ltac ksimpl :=
  cbn [PNaCl.Context PNaCl.setFunctionContext PNaCl.getContext
       PNaCl.setContext PNaCl.FunctionParser_BlockParser PNaCl.Flags
       PNaCl.setValueIDConstants PNaCl.FunctionDeclarationList
       PNaCl.VariableDeclarations PNaCl.ValueIDConstants PNaCl.ErrStream].

Section GlobalConstantFacts.

Import Ice PNaCl.

(** X13.  For the ID of a global declaration that has no constant yet,
    [getOrCreateGlobalConstantByID] returns the relocatable constant with
    offset 0 and the name of the declaration, the functions counted before
    the global variables, and reports nothing; a second call returns the
    same constant and leaves the parser as it is. *)
Theorem getOrCreateGlobalConstantByID_cached
    (ID : Z) (Name : string) (SuppressMangling : bool) (s : FunctionParser)
    (HIR : DisableIRGeneration (Flags (Context s)) = false)
    (HCount : Z.of_nat (length (FunctionDeclarationList (Context s)))
              + Z.of_nat (length (VariableDeclarations (Context s))) < 2^32)
    (HID : 0 <= ID)
    (HDecl : Spec.globalNames (Context s) !! Z.to_nat ID
             = Some (Name, SuppressMangling))
    (HFresh : mjoin (ValueIDConstants (Context s) !! Z.to_nat ID) = None) :
  let Cst := ConstantRelocatable 0 Name SuppressMangling in
  exists s',
    getOrCreateGlobalConstantByID ID s = Returns (Some Cst) s' /\
    getOrCreateGlobalConstantByID ID s' = Returns (Some Cst) s' /\
    ErrStream (Context s') = ErrStream (Context s) /\
    Spec.globalNames (Context s') = Spec.globalNames (Context s).
Proof.
  intros Cst.
  set (F := FunctionDeclarationList (Context s)) in *.
  set (V := VariableDeclarations (Context s)) in *.
  assert (HLt : (Z.to_nat ID < length F + length V)%nat).
  { apply lookup_lt_Some in HDecl. unfold Spec.globalNames in HDecl.
    rewrite length_app, !length_fmap in HDecl. exact HDecl. }
  set (Old := ValueIDConstants (Context s)) in *.
  set (Resized := if Z.of_nat (length Old) <=? ID
                  then resize (length F + length V) None Old else Old).
  assert (HLen : (Z.to_nat ID < length Resized)%nat).
  { unfold Resized. destruct (Z.leb_spec (Z.of_nat (length Old)) ID).
    - unfold resize. rewrite length_app, length_take, length_replicate. lia.
    - lia. }
  exists (setFunctionContext
            (setValueIDConstants (<[Z.to_nat ID := Some Cst]> Resized)
                                 (Context s)) s).
  assert (HDeclCode :
    (if ID <? Z.of_nat (length F)
     then (fun D => (FuncName D, FuncSuppressMangling D)) <$> F !! Z.to_nat ID
     else if to_uint32 (ID - Z.of_nat (length F)) <? Z.of_nat (length V)
     then (fun D => (VarName D, VarSuppressMangling D))
            <$> V !! Z.to_nat (to_uint32 (ID - Z.of_nat (length F)))
     else None) = Some (Name, SuppressMangling)).
  { unfold Spec.globalNames in HDecl. fold F V in HDecl.
    destruct (Z.ltb_spec ID (Z.of_nat (length F))).
    - rewrite lookup_app_l in HDecl by (rewrite length_fmap; lia).
      rewrite list_lookup_fmap in HDecl. exact HDecl.
    - rewrite lookup_app_r in HDecl by (rewrite length_fmap; lia).
      rewrite length_fmap, list_lookup_fmap in HDecl.
      rewrite to_uint32_small by lia.
      assert (E : (ID - Z.of_nat (length F) <? Z.of_nat (length V)) = true)
        by (apply Z.ltb_lt; lia).
      rewrite E.
      replace (Z.to_nat (ID - Z.of_nat (length F)))
        with (Z.to_nat ID - length F)%nat by lia.
      exact HDecl. }
  split; [|split; [|split; reflexivity]].
  - unfold getOrCreateGlobalConstantByID, modifyContext, getNumGlobalIDs.
    mrun. fold F V Old.
    rewrite (to_uint32_small (_ + _)) by lia.
    destruct (Z.leb_spec (Z.of_nat (length Old)) ID) as [HShort|HLong].
    + assert (E : (Z.of_nat (length F) + Z.of_nat (length V) <=? ID) = false)
        by (apply Z.leb_gt; lia).
      rewrite E. ksimpl. rewrite HIR. ksimpl. fold F V Old.
      rewrite HDeclCode. ksimpl.
      unfold Resized. rewrite <- Nat2Z.inj_add, Nat2Z.id. reflexivity.
    + rewrite HFresh. ksimpl. rewrite HIR. ksimpl. fold F V Old.
      rewrite HDeclCode. ksimpl. reflexivity.
  - unfold getOrCreateGlobalConstantByID, modifyContext. mrun.
    rewrite length_insert.
    assert (E : (Z.of_nat (length Resized) <=? ID) = false)
      by (apply Z.leb_gt; lia).
    rewrite E. rewrite list_lookup_insert_eq by exact HLen. reflexivity.
Qed.

End GlobalConstantFacts.

Lemma getOrCreateGlobalConstantByID_cached_witness :
  let s := Spec.exampleFunctionParser [] in
  let Cst := Ice.ConstantRelocatable 0 "f" false in
  exists s',
    PNaCl.getOrCreateGlobalConstantByID 0 s = PNaCl.Returns (Some Cst) s' /\
    PNaCl.getOrCreateGlobalConstantByID 0 s' = PNaCl.Returns (Some Cst) s'.
Proof.
  intros s Cst.
  assert (HIR : PNaCl.DisableIRGeneration (PNaCl.Flags (PNaCl.Context s))
                = false) by (vm_compute; reflexivity).
  assert (HCount :
    Z.of_nat (length (PNaCl.FunctionDeclarationList (PNaCl.Context s)))
    + Z.of_nat (length (PNaCl.VariableDeclarations (PNaCl.Context s)))
    < 2^32) by (vm_compute; reflexivity).
  assert (HID : 0 <= 0) by lia.
  assert (HDecl : Spec.globalNames (PNaCl.Context s) !! Z.to_nat 0
                  = Some ("f", false)) by (vm_compute; reflexivity).
  assert (HFresh : mjoin (PNaCl.ValueIDConstants (PNaCl.Context s)
                            !! Z.to_nat 0) = None)
    by (vm_compute; reflexivity).
  destruct (getOrCreateGlobalConstantByID_cached 0 "f" false s HIR HCount
              HID HDecl HFresh) as (s' & HFirst & HSecond & _).
  exists s'. split; assumption.
Defined.


(** ** The function blocks and the function addresses *)

Section FunctionBlockOrderFacts.

Import Ice PNaCl.

Lemma positions_more Fcns More IDs Defs :
  Spec.positions Fcns IDs Defs -> Spec.positions (Fcns ++ More) IDs Defs.
Proof.
  unfold Spec.positions. intros H. eapply Forall2_impl; [exact H|].
  intros ID Fcn [H0 HFcn].
  split; [exact H0|]. apply lookup_app_l_Some. exact HFcn.
Qed.

Lemma declareFunctions_positions (Decls Pre : list (FunctionDeclaration * bool))
    (C : TopLevelParser) :
  FunctionDeclarationList C = fst <$> Pre ->
  Spec.positions (FunctionDeclarationList C) (DefiningFunctionDeclarationsList C)
            (Spec.definingDeclarations Pre) ->
  let C' := Spec.declareFunctions Decls C in
  FunctionDeclarationList C' = fst <$> (Pre ++ Decls) /\
  Spec.positions (FunctionDeclarationList C')
            (DefiningFunctionDeclarationsList C')
            (Spec.definingDeclarations (Pre ++ Decls)).
Proof.
  revert Pre C. induction Decls as [|[Fcn IsProto] Decls IH];
    intros Pre C HF HD; simpl.
  - rewrite app_nil_r. split; assumption.
  - replace (Pre ++ (Fcn, IsProto) :: Decls)
      with ((Pre ++ [(Fcn, IsProto)]) ++ Decls)
      by (rewrite <- app_assoc; reflexivity).
    apply IH.
    + simpl. rewrite HF, fmap_app. reflexivity.
    + unfold Spec.definingDeclarations. rewrite filter_app, fmap_app.
      simpl FunctionDeclarationList.
      simpl DefiningFunctionDeclarationsList.
      destruct IsProto.
      * rewrite filter_cons_False by (simpl; congruence).
        rewrite filter_nil, app_nil_r. apply positions_more. exact HD.
      * rewrite filter_cons_True by reflexivity. rewrite filter_nil.
        apply Forall2_app; [apply positions_more; exact HD|].
        constructor; [|constructor].
        split; [lia|]. rewrite Nat2Z.id. apply list_lookup_middle.
        reflexivity.
Qed.

(** X14.  After the function address records [Decls],
    [getNextFunctionBlockValueID] gives the function block number [k],
    counted from 0, the ID of the declaration number [k] among those that
    are no prototypes, and counts the block; when there is no such
    declaration, the process ends. *)
Theorem function_blocks_follow_function_addresses
    (Decls : list (FunctionDeclaration * bool)) (C0 : TopLevelParser)
    (k : nat) (s : FunctionParser)
    (HNoFunctions : FunctionDeclarationList C0 = [])
    (HNoDefining : DefiningFunctionDeclarationsList C0 = [])
    (HFunctions : FunctionDeclarationList (Context s)
                  = FunctionDeclarationList (Spec.declareFunctions Decls C0))
    (HDefining : DefiningFunctionDeclarationsList (Context s)
                 = DefiningFunctionDeclarationsList
                     (Spec.declareFunctions Decls C0))
    (HBlocks : NumFunctionBlocks (Context s) = Z.of_nat k) :
  match Spec.definingDeclarations Decls !! k with
  | Some Fcn =>
      exists ID,
        getNextFunctionBlockValueID s
        = Returns ID
            (setFunctionContext
               (setNumFunctionBlocks (to_uint32 (Z.of_nat k + 1)) (Context s))
               s) /\
        0 <= ID /\
        FunctionDeclarationList (Context s) !! Z.to_nat ID = Some Fcn
  | None => getNextFunctionBlockValueID s = Aborts s
  end.
Proof.
  destruct (declareFunctions_positions Decls [] C0) as [_ HPos].
  { rewrite HNoFunctions. reflexivity. }
  { rewrite HNoDefining. constructor. }
  simpl app in HPos. rewrite <- HFunctions, <- HDefining in HPos.
  unfold getNextFunctionBlockValueID, bind, context, modifyContext, modify,
    ret. cbn [getContext setContext FunctionParser_BlockParser].
  rewrite HBlocks.
  pose proof (Forall2_length _ _ _ HPos) as HLen.
  destruct (Spec.definingDeclarations Decls !! k) as [Fcn|] eqn:EFcn.
  - apply lookup_lt_Some in EFcn as HLt.
    destruct (Forall2_lookup_r _ _ _ _ _ HPos EFcn) as (ID & EID & H0 & HID).
    assert (E : (Z.of_nat (length (DefiningFunctionDeclarationsList
                                     (Context s))) <=? Z.of_nat k) = false)
      by (apply Z.leb_gt; lia).
    rewrite E, Nat2Z.id. exists ID.
    rewrite (list_lookup_total_correct _ _ _ EID).
    split; [reflexivity|]. split; assumption.
  - apply lookup_ge_None in EFcn.
    assert (E : (Z.of_nat (length (DefiningFunctionDeclarationsList
                                     (Context s))) <=? Z.of_nat k) = true)
      by (apply Z.leb_le; lia).
    rewrite E. reflexivity.
Qed.

End FunctionBlockOrderFacts.

Lemma function_blocks_follow_function_addresses_witness :
  let g := PNaCl.mkFunctionDeclaration "g" false
             (Ice.mkFuncSigType Ice.IceType_void []) false in
  let f := PNaCl.mkFunctionDeclaration "f" false
             (Ice.mkFuncSigType Ice.IceType_i32 [Ice.IceType_i32]) false in
  let C0 := PNaCl.newTopLevelParser Spec.exampleFlags in
  let s := PNaCl.setFunctionContext
             (Spec.declareFunctions [(g, true); (f, false)] C0)
             (Spec.exampleFunctionParser []) in
  exists ID,
    PNaCl.getNextFunctionBlockValueID s
    = PNaCl.Returns ID
        (PNaCl.setFunctionContext
           (PNaCl.setNumFunctionBlocks (to_uint32 (Z.of_nat 0 + 1))
                                       (PNaCl.Context s)) s) /\
    0 <= ID /\
    PNaCl.FunctionDeclarationList (PNaCl.Context s) !! Z.to_nat ID = Some f.
Proof.
  intros g f C0 s.
  assert (HNoFunctions : PNaCl.FunctionDeclarationList C0 = [])
    by reflexivity.
  assert (HNoDefining : PNaCl.DefiningFunctionDeclarationsList C0 = [])
    by reflexivity.
  assert (HFunctions :
    PNaCl.FunctionDeclarationList (PNaCl.Context s)
    = PNaCl.FunctionDeclarationList
        (Spec.declareFunctions [(g, true); (f, false)] C0)) by reflexivity.
  assert (HDefining :
    PNaCl.DefiningFunctionDeclarationsList (PNaCl.Context s)
    = PNaCl.DefiningFunctionDeclarationsList
        (Spec.declareFunctions [(g, true); (f, false)] C0)) by reflexivity.
  assert (HBlocks : PNaCl.NumFunctionBlocks (PNaCl.Context s) = Z.of_nat 0)
    by reflexivity.
  exact (function_blocks_follow_function_addresses
           [(g, true); (f, false)] C0 0 s HNoFunctions HNoDefining
           HFunctions HDefining HBlocks).
Defined.


(** ** The constructor of the function parser *)

Section ConstructorFacts.

Import Ice PNaCl.

(** [getNextInstVar] when the next value is the one after the last local
    value: the variable is new, and it becomes the next local value. *)
Lemma getNextInstVar_fresh T (s : FunctionParser) :
  T <> IceType_void ->
  DisableIRGeneration (Flags (Context s)) = false ->
  0 <= NextLocalInstIndex s - CachedNumGlobalValueIDs s < 2^32 ->
  Z.of_nat (length (LocalOperands s))
  = NextLocalInstIndex s - CachedNumGlobalValueIDs s ->
  getNextInstVar T s
  = Returns (IceVariable (length (Variables (Func s))) T)
      (mkFunctionParser (Context s) (snd (makeVariable T (Func s)))
         (CurrentBbIndex s) (CurrentNode s) (FcnId s) (FuncDecl s)
         (CachedNumGlobalValueIDs s)
         (LocalOperands s
          ++ [Some (IceVariable (length (Variables (Func s))) T)])
         (to_uint32 (NextLocalInstIndex s + 1)) (InstIsTerminating s)
         (OperandLookups s)).
Proof.
  intros HT HIR HRange HLen. unfold getNextInstVar.
  unfold bind at 1. unfold get at 1.
  rewrite to_uint32_small by lia. rewrite <- HLen, Z.ltb_irrefl.
  unfold createInstVar, useFunc.
  destruct (decide (T = IceType_void)); [contradiction|].
  repeat (mrun; rewrite ?HIR). unfold setOperand. mrun.
  rewrite to_uint32_small by lia. rewrite <- HLen, Z.eqb_refl.
  reflexivity.
Qed.

(** The loop of the constructor over the types of the arguments. *)
Lemma constructor_arguments (ArgList : list IceType) (s : FunctionParser) :
  IceType_void ∉ ArgList ->
  DisableIRGeneration (Flags (Context s)) = false ->
  0 <= CachedNumGlobalValueIDs s <= NextLocalInstIndex s ->
  NextLocalInstIndex s + Z.of_nat (length ArgList) < 2^32 ->
  Z.of_nat (length (LocalOperands s))
  = NextLocalInstIndex s - CachedNumGlobalValueIDs s ->
  exists s' Vars,
    (fix args (ArgList : list IceType) : M FunctionParser unit :=
       match ArgList with
       | [] => ret tt
       | ArgType :: ArgList' =>
           Arg ← getNextInstVar ArgType ;
           modify (fun s => setFunc (addArg Arg (Func s)) s) ;;
           args ArgList'
       end) ArgList s = Returns tt s' /\
    Args (Func s') = Args (Func s) ++ Vars /\
    LocalOperands s' = LocalOperands s ++ (Some <$> Vars) /\
    getType <$> Vars = ArgList /\
    NextLocalInstIndex s'
    = NextLocalInstIndex s + Z.of_nat (length ArgList) /\
    Context s' = Context s /\
    Nodes (Func s') = Nodes (Func s) /\
    EntryNode (Func s') = EntryNode (Func s) /\
    FunctionName (Func s') = FunctionName (Func s) /\
    ReturnType (Func s') = ReturnType (Func s) /\
    CurrentNode s' = CurrentNode s /\
    FcnId s' = FcnId s /\ FuncDecl s' = FuncDecl s /\
    CachedNumGlobalValueIDs s' = CachedNumGlobalValueIDs s.
Proof.
  revert s. induction ArgList as [|T ArgList IH];
    intros s HVoid HIR HCached HRange HLen.
  - exists s, []. rewrite !app_nil_r, Z.add_0_r. repeat split.
  - apply not_elem_of_cons in HVoid as [HT HVoid].
    simpl length in HRange. 
    rewrite (bind_Returns _ _ _ _ _
               (getNextInstVar_fresh T s (not_eq_sym HT) HIR
                  ltac:(lia) HLen)).
    unfold bind at 1. unfold modify at 1.
    match goal with
    | |- context [ _ ArgList ?s1 ] =>
        destruct (IH s1) as (s' & Vars & HRun & HArgs & HOps & HTys & HNext
                             & HCtx & HNodes & HEntry & HName & HRet & HCur
                             & HId & HDecl & HC)
    end.
    + exact HVoid.
    + exact HIR.
    + simpl. rewrite to_uint32_small by lia. lia.
    + simpl. rewrite to_uint32_small by lia. lia.
    + simpl. rewrite to_uint32_small by lia.
      rewrite length_app. simpl length. lia.
    + exists s', (IceVariable (length (Variables (Func s))) T :: Vars).
      split; [exact HRun|].
      simpl in HArgs, HOps, HNext, HCtx, HNodes, HEntry, HName, HRet, HCur,
        HId, HDecl, HC.
      rewrite to_uint32_small in HNext by lia.
      rewrite HArgs, HOps, <- !app_assoc, !fmap_cons, HTys.
      repeat split; try assumption. simpl length. lia.
Qed.

(** X15.  The constructor of the function parser, with IR generation, for a
    function block whose declaration has no argument of type [void]: the
    parser takes the ID and the declaration of the next function with a
    body, the function has one node, which is the entry node and the
    current node, and the arguments of the function are new variables of
    the types of the signature, which are the first local values; the
    next value index follows them. *)
Theorem FunctionParser_new_installs_arguments
    (C : TopLevelParser) (ID : Z) (Decl : FunctionDeclaration)
    (HIR : DisableIRGeneration (Flags C) = false)
    (HNext : DefiningFunctionDeclarationsList C
               !! Z.to_nat (NumFunctionBlocks C) = Some ID)
    (HID : 0 <= ID < 2^32)
    (HDecl : FunctionDeclarationList C !! Z.to_nat ID = Some Decl)
    (HVoid : IceType_void ∉ SigArgList (FuncSignature Decl))
    (HCount : Z.of_nat (length (FunctionDeclarationList C))
              + Z.of_nat (length (VariableDeclarations C))
              + Z.of_nat (length (SigArgList (FuncSignature Decl)))
              < 2^32) :
  exists s,
    FunctionParser_new C = Returns tt s /\
    FcnId s = ID /\ FuncDecl s = Decl /\
    CachedNumGlobalValueIDs s = getNumGlobalIDs C /\
    LocalOperands s = Some <$> Args (Func s) /\
    getType <$> Args (Func s) = SigArgList (FuncSignature Decl) /\
    NextLocalInstIndex s
    = getNumGlobalIDs C
      + Z.of_nat (length (SigArgList (FuncSignature Decl))) /\
    Nodes (Func s) = [mkCfgNode [] []] /\
    CurrentNode s = 0%nat /\
    EntryNode (Func s) = Some 0%nat /\
    FunctionName (Func s) = FuncName Decl /\
    ReturnType (Func s) = SigReturnType (FuncSignature Decl) /\
    Context s = setNumFunctionBlocks (to_uint32 (NumFunctionBlocks C + 1)) C.
Proof.
  apply lookup_lt_Some in HNext as HNextLt.
  apply lookup_lt_Some in HDecl as HDeclLt.
  assert (HGlobals : getNumGlobalIDs C
                     = Z.of_nat (length (FunctionDeclarationList C))
                       + Z.of_nat (length (VariableDeclarations C))).
  { unfold getNumGlobalIDs. apply to_uint32_small. lia. }
  unfold FunctionParser_new, FunctionParser_new_body.
  set (s0 := mkFunctionParser C emptyCfg 0 0%nat 0
               (mkFunctionDeclaration "" false (mkFuncSigType IceType_void [])
                                      false) 0 [] 0 false []).
  assert (E1 : getNextFunctionBlockValueID s0
               = Returns ID
                   (setFunctionContext
                      (setNumFunctionBlocks
                         (to_uint32 (NumFunctionBlocks C + 1)) C) s0)).
  { unfold getNextFunctionBlockValueID, bind, context, modifyContext, modify,
      ret. cbn [getContext setContext FunctionParser_BlockParser s0 Context].
    assert (E : (Z.of_nat (length (DefiningFunctionDeclarationsList C))
                 <=? NumFunctionBlocks C) = false)
      by (apply Z.leb_gt; lia).
    rewrite E, (list_lookup_total_correct _ _ _ HNext). reflexivity. }
  rewrite (bind_Returns _ _ _ _ _ E1).
  set (s1 := setFunctionContext _ s0).
  assert (E2 : getFunctionByID (to_uint32 ID) s1
               = Returns (Z.to_nat ID) s1).
  { unfold getFunctionByID, bind, context, ret.
    cbn [getContext setContext FunctionParser_BlockParser s1 s0 Context
         setFunctionContext setNumFunctionBlocks FunctionDeclarationList].
    rewrite to_uint32_small by lia.
    assert (E : (ID <? Z.of_nat (length (FunctionDeclarationList C))) = true)
      by (apply Z.ltb_lt; lia).
    rewrite E. reflexivity. }
  rewrite (bind_Returns _ _ _ _ _ E2).
  unfold bind at 1. unfold get at 1.
  cbn [s1 s0 Context setFunctionContext setNumFunctionBlocks
       FunctionDeclarationList].
  rewrite HDecl. cbn [default from_option id].
  unfold InstallNextBasicBlock, useFunc, isIRGenerationDisabled, bind, put,
    get, modify, ret, context, report_fatal_error.
  cbn [getContext setContext FunctionParser_BlockParser Context Flags
       setNumFunctionBlocks setFunc Func].
  rewrite HIR.
  cbn [getContext setContext FunctionParser_BlockParser Context Flags
       setNumFunctionBlocks setFunc Func makeNode setCurrentNode
       s1 s0 setFunctionContext emptyCfg Nodes length CurrentNode
       OperandLookups FcnId FuncDecl CachedNumGlobalValueIDs LocalOperands
       NextLocalInstIndex InstIsTerminating CurrentBbIndex
       FunctionName ReturnType IsInternal EntryNode Args Variables Translated
       app].
  rewrite HIR.
  cbn [getContext setContext FunctionParser_BlockParser Context Flags
       setNumFunctionBlocks setFunc Func makeNode setCurrentNode
       s1 s0 setFunctionContext emptyCfg Nodes length CurrentNode
       OperandLookups FcnId FuncDecl CachedNumGlobalValueIDs LocalOperands
       NextLocalInstIndex InstIsTerminating CurrentBbIndex
       FunctionName ReturnType IsInternal EntryNode Args Variables Translated
       app].
  match goal with
  | |- exists s, _ _ ?sB = _ /\ _ =>
      destruct (constructor_arguments (SigArgList (FuncSignature Decl)) sB)
        as (s' & Vars & HRun & HArgs & HOps & HTys & HNextIndex & HCtx
            & HNodes & HEntry & HName & HRet & HCur & HId & HFuncDecl & HC)
  end.
  - exact HVoid.
  - exact HIR.
  - simpl. change (getNumGlobalIDs (setNumFunctionBlocks _ C))
      with (getNumGlobalIDs C). lia.
  - simpl. change (getNumGlobalIDs (setNumFunctionBlocks _ C))
      with (getNumGlobalIDs C). lia.
  - simpl. lia.
  - exists s'. split; [exact HRun|].
    simpl in HArgs, HOps, HNextIndex, HCtx, HNodes, HEntry, HName, HRet,
      HCur, HId, HFuncDecl, HC.
    change (getNumGlobalIDs (setNumFunctionBlocks _ C))
      with (getNumGlobalIDs C) in HNextIndex, HC.
    rewrite HArgs, HOps. repeat split; assumption.
Qed.


End ConstructorFacts.

Lemma FunctionParser_new_installs_arguments_witness :
  let Decl := PNaCl.mkFunctionDeclaration "f" false
                (Ice.mkFuncSigType Ice.IceType_i32 [Ice.IceType_i32]) false in
  exists s,
    PNaCl.FunctionParser_new Spec.exampleContext = PNaCl.Returns tt s /\
    PNaCl.FcnId s = 0 /\ PNaCl.FuncDecl s = Decl /\
    PNaCl.LocalOperands s = Some <$> Ice.Args (PNaCl.Func s) /\
    Ice.getType <$> Ice.Args (PNaCl.Func s) = [Ice.IceType_i32].
Proof.
  intros Decl.
  assert (HIR : PNaCl.DisableIRGeneration (PNaCl.Flags Spec.exampleContext)
                = false) by (vm_compute; reflexivity).
  assert (HNext :
    PNaCl.DefiningFunctionDeclarationsList Spec.exampleContext
      !! Z.to_nat (PNaCl.NumFunctionBlocks Spec.exampleContext) = Some 0)
    by (vm_compute; reflexivity).
  assert (HID : 0 <= 0 < 2^32) by lia.
  assert (HDecl : PNaCl.FunctionDeclarationList Spec.exampleContext
                    !! Z.to_nat 0 = Some Decl) by (vm_compute; reflexivity).
  assert (HVoid : Ice.IceType_void
                  ∉ Ice.SigArgList (PNaCl.FuncSignature Decl)).
  { simpl. intros H. apply list_elem_of_singleton in H. discriminate H. }
  assert (HCount :
    Z.of_nat (length (PNaCl.FunctionDeclarationList Spec.exampleContext))
    + Z.of_nat (length (PNaCl.VariableDeclarations Spec.exampleContext))
    + Z.of_nat (length (Ice.SigArgList (PNaCl.FuncSignature Decl)))
    < 2^32) by (vm_compute; reflexivity).
  destruct (FunctionParser_new_installs_arguments Spec.exampleContext 0 Decl
              HIR HNext HID HDecl HVoid HCount)
    as (s & HRun & HFcnId & HFuncDecl & _ & HOps & HTys & _).
  exists s. repeat split; assumption.
Defined.

(** ** The value that a binary operator record defines *)

Section BinopFacts.

Context {Collab : PNaCl.Collaborators}.

Import Ice PNaCl.

Lemma convertBinopOpcode_sameFunction Opcode T :
  Spec.keeps Spec.sameFunction (convertBinopOpcode Opcode T).
Proof.
  pose proof (@Error_sameFunction) as HError.
  unfold convertBinopOpcode, isValidIntegerLogicalOp, isValidIntegerArithOp,
    isValidFloatingArithOp, ReportInvalidBinaryOp.
  repeat first [apply HError | keeps_step].
Qed.

(** With error recovery, [convertBinopOpcode] returns. *)
Lemma convertBinopOpcode_run Opcode T (s : FunctionParser) :
  AllowErrorRecovery (Flags (Context s)) = true ->
  exists ok Op s',
    convertBinopOpcode Opcode T s = Returns (ok, Op) s' /\
    Spec.sameFunction s s'.
Proof.
  intros HRec.
  assert (HRet : exists ok Op s',
             convertBinopOpcode Opcode T s = Returns (ok, Op) s').
  { unfold convertBinopOpcode, isValidIntegerLogicalOp,
      isValidIntegerArithOp, isValidFloatingArithOp, ReportInvalidBinaryOp.
    destruct (naclbitc.BinaryOpcodes_of Opcode) as [[]|];
      repeat match goal with
             | |- context [if ?b then _ else _] => destruct b
             end;
      mrun; rewrite ?HRec; eauto. }
  destruct HRet as (ok & Op & s' & E). exists ok, Op, s'.
  split; [exact E|].
  exact (keeps_Returns _ _ _ _ _ (convertBinopOpcode_sameFunction _ _) E).
Qed.


End BinopFacts.


(** ** The values that a compare record defines *)

Section CompareFacts.

Context {Collab : PNaCl.Collaborators}.

Import Ice PNaCl.


End CompareFacts.


(** ** The constants block *)

Section ConstantsFacts.

Context {Globals : PNaCl.GlobalContext}.

Import Ice PNaCl.

(** [setNextConstantID] when the next value is the one after the last
    local value. *)
Lemma setNextConstantID_fresh (C : Operand) (F : FunctionParser) :
  0 <= CachedNumGlobalValueIDs F ->
  0 <= NextLocalInstIndex F < 2^32 - 1 ->
  Z.of_nat (length (LocalOperands F))
  = NextLocalInstIndex F - CachedNumGlobalValueIDs F ->
  setNextConstantID (Some C) F
  = Returns tt
      (setLocalOperands (LocalOperands F ++ [Some C])
         (setNextLocalInstIndexField (NextLocalInstIndex F + 1) F)).
Proof.
  intros HCached HNext HFresh.
  unfold setNextConstantID, setNextLocalInstIndex, setOperand. mrun.
  rewrite (to_uint32_small (NextLocalInstIndex F + 1)) by lia.
  rewrite to_uint32_small by lia. rewrite <- HFresh, Z.eqb_refl.
  reflexivity.
Qed.

Lemma report_run {A} (Msg : Message) (a : A) (s : ConstantsParser) :
  AllowErrorRecovery (Flags (Context (FuncParser s))) = true ->
  (Error Msg ;; ret a)%parser s = Returns a (Spec.withError Msg s).
Proof.
  intros HRec. unfold bind. rewrite Error_recovery by exact HRec.
  reflexivity.
Qed.

Lemma bind_disabled_constants {A} (k : bool -> M ConstantsParser A) s :
  bind isIRGenerationDisabled k s
  = k (DisableIRGeneration (Flags (Context (FuncParser s)))) s.
Proof. reflexivity. Qed.

Lemma bind_get_constants {A} (k : ConstantsParser -> M ConstantsParser A) s :
  bind get k s = k s s.
Proof. reflexivity. Qed.

(** X18.  A record of the constants block that stands for a constant defines
    exactly one value, and any other UNDEF, INTEGER or FLOAT record
    defines none.  In the first case the constant becomes the local value
    with the next index, where [getOperand] finds it, and nothing is
    reported; in the second case, which includes every such record while
    no type or [void] is pending, the record is reported and changes
    nothing else. *)
Theorem constants_record_defines_one_value_or_none
    (Code : ConstantsCode) (Values : list Z) (s : ConstantsParser)
    (HCode : Code ∈ [CST_CODE_UNDEF; CST_CODE_INTEGER; CST_CODE_FLOAT])
    (HIR : DisableIRGeneration (Flags (Context (FuncParser s))) = false)
    (HRec : AllowErrorRecovery (Flags (Context (FuncParser s))) = true)
    (HCached : 0 <= CachedNumGlobalValueIDs (FuncParser s))
    (HNext : 0 <= NextLocalInstIndex (FuncParser s) < 2^32 - 1)
    (HFresh : Z.of_nat (length (LocalOperands (FuncParser s)))
              = NextLocalInstIndex (FuncParser s)
                - CachedNumGlobalValueIDs (FuncParser s)) :
  match Spec.constantOf (NextConstantType s) Code Values with
  | Some C =>
      exists F',
        ConstantsParser_ProcessRecord Code Values s
        = Returns tt (mkConstantsParser F' (NextConstantType s)) /\
        LocalOperands F' = LocalOperands (FuncParser s) ++ [Some C] /\
        NextLocalInstIndex F' = NextLocalInstIndex (FuncParser s) + 1 /\
        Context F' = Context (FuncParser s) /\
        getOperand (NextLocalInstIndex (FuncParser s)) F'
        = Returns (Some C)
            (logOperandLookup (NextLocalInstIndex (FuncParser s)) F')
  | None =>
      exists Msg,
        ConstantsParser_ProcessRecord Code Values s
        = Returns tt (Spec.withError Msg s)
  end.
Proof.
  destruct s as [F T]. cbn [FuncParser NextConstantType] in *.
  assert (HDefines : forall C,
    exists F',
      onFuncParser (setNextConstantID (Some C)) (mkConstantsParser F T)
      = Returns tt (mkConstantsParser F' T) /\
      LocalOperands F' = LocalOperands F ++ [Some C] /\
      NextLocalInstIndex F' = NextLocalInstIndex F + 1 /\
      Context F' = Context F /\
      getOperand (NextLocalInstIndex F) F'
      = Returns (Some C) (logOperandLookup (NextLocalInstIndex F) F')).
  { intros C. eexists. split.
    - unfold onFuncParser. cbn [FuncParser NextConstantType].
      rewrite (setNextConstantID_fresh C F HCached HNext HFresh).
      reflexivity.
    - split; [reflexivity|]. split; [reflexivity|]. split; [reflexivity|].
      apply getOperand_defined; simpl; try lia.
      rewrite <- HFresh, Nat2Z.id. apply list_lookup_middle. reflexivity. }
  assert (HVoid : T = IceType_void ->
    forall k : bool -> M ConstantsParser unit,
    exists Msg,
      (ok ← isValidNextConstantType ; if negb ok then ret tt else k ok)%parser
        (mkConstantsParser F T)
      = Returns tt (Spec.withError Msg (mkConstantsParser F T))).
  { intros -> k. eexists. unfold isValidNextConstantType. mrun.
    rewrite HRec. reflexivity. }
  assert (HValid : T <> IceType_void ->
    forall k : bool -> M ConstantsParser unit,
      (ok ← isValidNextConstantType ; if negb ok then ret tt else k ok)%parser
        (mkConstantsParser F T)
      = k true (mkConstantsParser F T)).
  { intros HT k. unfold isValidNextConstantType. mrun.
    destruct (decide (T = IceType_void)); [contradiction|]. reflexivity. }
  assert (HSize : forall Size Name (k : bool -> M ConstantsParser unit),
    Z.of_nat (length Values) <> Size ->
    exists Msg,
      (ok ← isValidRecordSize Size Name Values ;
       if negb ok then ret tt else k ok)%parser (mkConstantsParser F T)
      = Returns tt (Spec.withError Msg (mkConstantsParser F T))).
  { intros Size Name k HNe. eexists.
    unfold isValidRecordSize, ReportRecordSizeError.
    rewrite (proj2 (Z.eqb_neq _ _) HNe). mrun. rewrite HRec. reflexivity. }
  unfold Spec.constantOf. cbn [NextConstantType].
  repeat (apply elem_of_cons in HCode; destruct HCode as [->|HCode]);
    [| | |apply elem_of_nil in HCode; contradiction].
  - (* UNDEF *)
    destruct Values as [|V Values].
    + unfold ConstantsParser_ProcessRecord.
      change (isValidRecordSize 0 "undef" []) with (@ret ConstantsParser _ true).
      rewrite (bind_Returns (ret true) _ _ true _) by reflexivity.
      cbn [negb].
      destruct (decide (T = IceType_void)) as [HT|HT].
      * apply (HVoid HT).
      * rewrite (HValid HT), bind_disabled_constants.
        cbn [FuncParser]. rewrite HIR, bind_get_constants.
        apply HDefines.
    + destruct (decide (T = IceType_void));
        apply HSize; simpl length; lia.
  - (* INTEGER *)
    destruct Values as [|V [|V' Values]];
      [destruct (decide (T = IceType_void)); apply HSize; simpl length; lia
      | |destruct (decide (T = IceType_void)); apply HSize; simpl length; lia].
    unfold ConstantsParser_ProcessRecord.
    change (isValidRecordSize 1 "integer" [V])
      with (@ret ConstantsParser _ true).
    rewrite (bind_Returns (ret true) _ _ true _) by reflexivity.
    cbn [negb].
    destruct (decide (T = IceType_void)) as [HT|HT]; [apply (HVoid HT)|].
    rewrite (HValid HT), bind_disabled_constants.
    cbn [FuncParser]. rewrite HIR, bind_get_constants.
    cbn [NextConstantType]. change (at_ [V] 0%nat) with V.
    destruct (isScalarIntegerType T).
    + destruct (getConstantInt T _) as [C|]; [apply HDefines|].
      eexists. apply Error_recovery. exact HRec.
    + eexists. apply Error_recovery. exact HRec.
  - (* FLOAT *)
    destruct Values as [|V [|V' Values]];
      [destruct (decide (T = IceType_void)); apply HSize; simpl length; lia
      | |destruct (decide (T = IceType_void)); apply HSize; simpl length; lia].
    unfold ConstantsParser_ProcessRecord.
    change (isValidRecordSize 1 "float" [V])
      with (@ret ConstantsParser _ true).
    rewrite (bind_Returns (ret true) _ _ true _) by reflexivity.
    cbn [negb].
    destruct (decide (T = IceType_void)) as [HT|HT]; [apply (HVoid HT)|].
    rewrite (HValid HT), bind_disabled_constants.
    cbn [FuncParser]. rewrite HIR, bind_get_constants.
    cbn [NextConstantType]. change (at_ [V] 0%nat) with V.
    destruct T; try contradiction; try apply HDefines;
      eexists; apply Error_recovery; exact HRec.
Qed.

(** X19.  A SETTYPE record, with error recovery, makes the simple type with
    the type ID of the record the pending type.  When the ID names no
    simple type, or the simple type [void], the record is reported and the
    pending type is [void], the state in which every constant is rejected;
    otherwise nothing is reported.  The values of the function stay as
    they are. *)
Theorem SETTYPE_sets_pending_type (V : Z) (s : ConstantsParser)
    (HRec : AllowErrorRecovery (Flags (Context (FuncParser s))) = true) :
  let T := Spec.pendingTypeOf (TypeIDValues (Context (FuncParser s))) V in
  exists F',
    ConstantsParser_ProcessRecord CST_CODE_SETTYPE [V] s
    = Returns tt (mkConstantsParser F' T) /\
    Spec.sameValues (FuncParser s) F' /\
    TypeIDValues (Context F') = TypeIDValues (Context (FuncParser s)) /\
    (T <> IceType_void -> F' = FuncParser s) /\
    (T = IceType_void ->
     exists Msgs,
       ErrStream (Context F')
       = ErrStream (Context (FuncParser s)) ++ Msgs ++ [Spec.setTypeVoid]).
Proof.
  intros T. destruct s as [F T0]. cbn [FuncParser] in *.
  set (s := mkConstantsParser F T0).
  assert (HType : exists Msgs : list Message,
    let F1 := fold_left (fun F Msg => setFunctionContext
                                        (recordError Msg (Context F)) F)
                        Msgs F in
    getSimpleTypeByID (to_uint32 V) s
    = Returns T (mkConstantsParser F1 T0) /\
    (T <> IceType_void -> Msgs = [])).
  { unfold getSimpleTypeByID, getTypeByIDAsKind, reportBadTypeIDAs, T,
      Spec.pendingTypeOf.
    pose proof (to_uint32_range V) as HV.
    set (ID := to_uint32 V) in *.
    unfold bind at 1. unfold bind at 1. unfold context at 1.
    cbn [getContext ConstantsParser_BlockParser FuncParser s].
    destruct (Z.ltb_spec ID (Z.of_nat (length (TypeIDValues (Context F)))))
      as [HLt|HGe].
    - destruct (TypeIDValues (Context F) !! Z.to_nat ID) as [E|] eqn:HE;
        [|apply lookup_ge_None in HE; lia].
      destruct (decide (Kind E = Simple)) as [HK|HK].
      + exists []. split; [|reflexivity]. mrun. rewrite HE. reflexivity.
      + eexists [_]. split; [|congruence]. mrun. rewrite HRec. reflexivity.
    - rewrite (lookup_ge_None_2 (TypeIDValues (Context F))) by lia.
      eexists [_]. split; [|congruence]. mrun. rewrite HRec. reflexivity. }
  destruct HType as (Msgs & HRun & HNone).
  assert (HFold : forall (Ms : list Message) (F0 : FunctionParser),
    let F1 := fold_left (fun F Msg => setFunctionContext
                                        (recordError Msg (Context F)) F)
                        Ms F0 in
    Spec.sameValues F0 F1 /\
    TypeIDValues (Context F1) = TypeIDValues (Context F0) /\
    ErrStream (Context F1) = ErrStream (Context F0) ++ Ms).
  { induction Ms as [|M Ms IH]; intros F0; simpl.
    - rewrite app_nil_r. repeat split.
    - destruct (IH (setFunctionContext (recordError M (Context F0)) F0))
        as ((H1 & H2 & H3 & H4 & H5) & HT & HE).
      simpl in *. rewrite <- app_assoc in HE. repeat split; assumption. }
  unfold ConstantsParser_ProcessRecord.
  change (isValidRecordSize 1 "set type" [V])
    with (@ret ConstantsParser _ true).
  rewrite (bind_Returns (ret true) _ _ true _) by reflexivity.
  cbn [negb]. change (at_ [V] 0%nat) with V.
  rewrite (bind_Returns _ _ _ _ _ HRun).
  unfold bind at 1. unfold modify at 1. unfold setNextConstantType.
  cbn [FuncParser NextConstantType].
  destruct (HFold Msgs F) as (HSame & HTbl & HErr).
  cbv zeta in HSame, HTbl, HErr.
  set (F1 := fold_left _ Msgs F) in *.
  case_bool_decide as HT; cbn [when].
  - rewrite Error_recovery
      by (cbn [getContext setContext ConstantsParser_BlockParser FuncParser];
          simpl; destruct HSame as (-> & _); exact HRec).
    eexists. split; [reflexivity|]. cbn [FuncParser].
    split; [|split; [exact HTbl|split; [contradiction|]]].
    + destruct HSame as (H1 & H2 & H3 & H4 & H5). repeat split; assumption.
    + intros _. exists Msgs. simpl. rewrite HErr, <- app_assoc. reflexivity.
  - exists F1. split; [reflexivity|]. split; [exact HSame|].
    split; [exact HTbl|]. split; [|contradiction].
    intros _. unfold F1. rewrite (HNone HT). reflexivity.
Qed.

End ConstantsFacts.

Lemma constants_record_defines_one_value_or_none_witness :
  let s := PNaCl.mkConstantsParser (Spec.exampleFunctionParser [])
                                   Ice.IceType_i32 in
  let C := Ice.ConstantInteger32 Ice.IceType_i32 3 in
  exists F',
    PNaCl.ConstantsParser_ProcessRecord (Globals := Spec.exampleGlobals)
      PNaCl.CST_CODE_INTEGER [6] s
    = PNaCl.Returns tt (PNaCl.mkConstantsParser F' Ice.IceType_i32) /\
    PNaCl.getOperand 2 F'
    = PNaCl.Returns (Some C) (PNaCl.logOperandLookup 2 F').
Proof.
  intros s C.
  assert (HCode : PNaCl.CST_CODE_INTEGER
                  ∈ [PNaCl.CST_CODE_UNDEF; PNaCl.CST_CODE_INTEGER;
                     PNaCl.CST_CODE_FLOAT]) by (right; left).
  assert (HIR : PNaCl.DisableIRGeneration
                  (PNaCl.Flags (PNaCl.Context (PNaCl.FuncParser s))) = false)
    by (vm_compute; reflexivity).
  assert (HRec : PNaCl.AllowErrorRecovery
                   (PNaCl.Flags (PNaCl.Context (PNaCl.FuncParser s))) = true)
    by (vm_compute; reflexivity).
  assert (HCached : 0 <= PNaCl.CachedNumGlobalValueIDs (PNaCl.FuncParser s))
    by (vm_compute; discriminate).
  assert (HNext : 0 <= PNaCl.NextLocalInstIndex (PNaCl.FuncParser s)
                  < 2^32 - 1)
    by (vm_compute; split; [discriminate|reflexivity]).
  assert (HFresh :
    Z.of_nat (length (PNaCl.LocalOperands (PNaCl.FuncParser s)))
    = PNaCl.NextLocalInstIndex (PNaCl.FuncParser s)
      - PNaCl.CachedNumGlobalValueIDs (PNaCl.FuncParser s))
    by (vm_compute; reflexivity).
  pose proof (constants_record_defines_one_value_or_none
                (Globals := Spec.exampleGlobals) PNaCl.CST_CODE_INTEGER [6] s
                HCode HIR HRec HCached HNext HFresh) as H.
  change (Spec.constantOf (Globals := Spec.exampleGlobals)
            (PNaCl.NextConstantType s) PNaCl.CST_CODE_INTEGER [6])
    with (Some C) in H.
  destruct H as (F' & HRun & _ & _ & _ & HGet).
  exists F'. split; [exact HRun|].
  change (PNaCl.NextLocalInstIndex (PNaCl.FuncParser s)) with 2 in HGet.
  exact HGet.
Defined.

Lemma SETTYPE_sets_pending_type_witness :
  let s := PNaCl.newConstantsParser (Spec.exampleFunctionParser []) in
  PNaCl.ConstantsParser_ProcessRecord (Globals := Spec.exampleGlobals)
    PNaCl.CST_CODE_SETTYPE [1] s
  = PNaCl.Returns tt
      (PNaCl.mkConstantsParser (Spec.exampleFunctionParser [])
                               Ice.IceType_i32).
Proof.
  intros s.
  assert (HRec : PNaCl.AllowErrorRecovery
                   (PNaCl.Flags (PNaCl.Context (PNaCl.FuncParser s))) = true)
    by (vm_compute; reflexivity).
  destruct (SETTYPE_sets_pending_type (Globals := Spec.exampleGlobals) 1 s
              HRec) as (F' & HRun & _ & _ & HSame & _).
  rewrite HRun.
  change (Spec.pendingTypeOf _ 1) with Ice.IceType_i32 in *.
  rewrite (HSame ltac:(discriminate)). reflexivity.
Defined.

(** ** The control flow of an optimized branch *)

Section BranchFlowFacts.

Context {Cond : Type} `{EqDecision Cond}.
Variable AL : Cond.
Variable Opposite : Cond -> Cond.

Import ARM32Emit.

(** X20.  [optimizeBranch] keeps the control flow of the branch: when [Next] is
    the node that follows in the layout, the text that [emit] writes for
    the instruction after the call sends the control where the text for
    the instruction before the call sends it, under every valuation of the
    conditions under which the opposite of the predicate of the branch,
    as the table of the conditions gives it, holds exactly when the
    predicate does not.  The unconditional branch has no true target, as
    the source asserts. *)
Theorem optimizeBranch_preserves_control_flow
    (holds : Cond -> bool) (Br : ARM32.InstARM32Br (Cond := Cond))
    (Next : nat) (Items : list (BrEmitItem (Cond := Cond)))
    (HAlways : holds AL = true)
    (HOpposite : ARM32.Predicate Br <> AL ->
                 Opposite (ARM32.Predicate Br) <> AL /\
                 holds (Opposite (ARM32.Predicate Br))
                 = negb (holds (ARM32.Predicate Br)))
    (HUnconditional : ARM32.isUnconditionalBranch AL Br = true ->
                      ARM32.TargetTrue Br = None)
    (HEmit : Spec.emitted AL Br = Some Items) :
  exists Items',
    Spec.emitted AL (snd (ARM32.optimizeBranch AL Opposite Br (Some Next)))
    = Some Items' /\
    Spec.goesTo holds (Spec.jumpsOf AL AL Items') (BrAsmName Next)
    = Spec.goesTo holds (Spec.jumpsOf AL AL Items) (BrAsmName Next).
Proof.
  destruct Br as [TT TF L P D].
  unfold Spec.emitted, InstARM32Br_emit, ARM32.optimizeBranch,
    ARM32.isUnconditionalBranch, ARM32.setDeleted,
    ARM32.getOppositeCondition in *.
  cbn [ARM32.TargetTrue ARM32.TargetFalse ARM32.Label ARM32.Predicate
       ARM32.Deleted negb] in *.
  destruct L as [Lbl|]; [exists Items; split; [exact HEmit|reflexivity]|].
  destruct TF as [F|]; [|exists Items; split; [exact HEmit|reflexivity]].
  destruct D; [exists Items; revert HEmit;
               repeat (case_bool_decide; simpl); intros HEmit;
               (split; [exact HEmit|reflexivity])|].
  destruct (decide (P = AL)) as [->|HP].
  - rewrite bool_decide_eq_true_2 in * by reflexivity.
    specialize (HUnconditional eq_refl). subst TT.
    simpl in HEmit. injection HEmit as <-.
    case_bool_decide as HF; simpl.
    + injection HF as ->. eexists. split; [reflexivity|].
      simpl. rewrite HAlways. reflexivity.
    + rewrite bool_decide_eq_true_2 by reflexivity.
      eexists. split; [reflexivity|]. reflexivity.
  - rewrite (bool_decide_eq_false_2 _ HP) in *. simpl in *.
    destruct TT as [T|]; [|discriminate]. simpl in HEmit.
    injection HEmit as <-.
    case_bool_decide as HF; simpl.
    + injection HF as ->. rewrite (bool_decide_eq_false_2 _ HP). simpl.
      eexists. split; [reflexivity|]. simpl.
      rewrite HAlways. reflexivity.
    + case_bool_decide as HT; simpl.
      * injection HT as ->. destruct (HOpposite HP) as [HNe HNeg].
        rewrite (bool_decide_eq_false_2 _ HNe). simpl.
        eexists. split; [reflexivity|]. simpl.
        rewrite HNeg, HAlways. destruct (holds P); reflexivity.
      * rewrite (bool_decide_eq_false_2 _ HP). simpl.
        eexists. split; [reflexivity|]. reflexivity.
Qed.

End BranchFlowFacts.

Lemma optimizeBranch_preserves_control_flow_witness :
  let Br := ARM32.mkBr (Some 1%nat) (Some 2%nat) None ARM32.EQ false in
  let holds := fun C : ARM32.CondARM32 =>
                 bool_decide (C = ARM32.NE \/ C = ARM32.AL) in
  exists Items Items',
    Spec.emitted ARM32.AL Br = Some Items /\
    Spec.emitted ARM32.AL
      (snd (ARM32.optimizeBranch ARM32.AL ARM32.CondARM32_Opposite Br
              (Some 1%nat)))
    = Some Items' /\
    Spec.goesTo holds (Spec.jumpsOf ARM32.AL ARM32.AL Items')
                (ARM32Emit.BrAsmName 1)
    = Spec.goesTo holds (Spec.jumpsOf ARM32.AL ARM32.AL Items)
                  (ARM32Emit.BrAsmName 1).
Proof.
  intros Br holds.
  assert (HAlways : holds ARM32.AL = true) by (vm_compute; reflexivity).
  assert (HOpposite :
    ARM32.Predicate Br <> ARM32.AL ->
    ARM32.CondARM32_Opposite (ARM32.Predicate Br) <> ARM32.AL /\
    holds (ARM32.CondARM32_Opposite (ARM32.Predicate Br))
    = negb (holds (ARM32.Predicate Br)))
    by (intros _; split; [discriminate|vm_compute; reflexivity]).
  assert (HUnconditional :
    ARM32.isUnconditionalBranch ARM32.AL Br = true ->
    ARM32.TargetTrue Br = None) by (vm_compute; discriminate).
  assert (HEmit : Spec.emitted ARM32.AL Br
                  = Some (default [] (ARM32Emit.InstARM32Br_emit ARM32.AL true Br)))
    by reflexivity.
  destruct (optimizeBranch_preserves_control_flow ARM32.AL
              ARM32.CondARM32_Opposite holds Br 1 _ HAlways HOpposite
              HUnconditional HEmit) as (Items' & HEmit' & HGoes).
  eexists. exists Items'. split; [exact HEmit|]. split; assumption.
Defined.

(** ** The RELOC record of the globals block *)

Section RelocFacts.

Import Ice PNaCl.

(** X21.  A RELOC record with three values or more is taken as it is, without
    a diagnostic for its size, and does what the record with its first
    value alone does: the addend, which is read from a record of two
    values only, is dropped with the other values. *)
Theorem RELOC_record_extra_values (Index Addend Extra : Z) (Rest : list Z)
    (s : GlobalsParser) :
  GlobalsParser_ProcessRecord GLOBALVAR_RELOC
    (Index :: Addend :: Extra :: Rest) s
  = GlobalsParser_ProcessRecord GLOBALVAR_RELOC [Index] s.
Proof.
  unfold GlobalsParser_ProcessRecord, isValidRecordSizeInRange,
    isValidRecordSizeAtLeast.
  assert (E1 : (1 <=? Z.of_nat (length (Index :: Addend :: Extra :: Rest)))
               = true) by (apply Z.leb_le; simpl length; lia).
  rewrite E1.
  assert (E2 : (Z.of_nat (length (Index :: Addend :: Extra :: Rest)) =? 2)
               = false) by (apply Z.eqb_neq; simpl length; lia).
  rewrite E2. reflexivity.
Qed.

End RelocFacts.

(** ** Forward references *)

Section ForwardReferenceFacts.

Context {Collab : PNaCl.Collaborators}.

Import Ice PNaCl.

(** [setOperand] on a slot that holds no value. *)
Lemma setOperand_free (Index : Z) (Op : Operand) (s : FunctionParser) :
  CachedNumGlobalValueIDs s <= Index ->
  Index - CachedNumGlobalValueIDs s < 2^32 - 1 ->
  mjoin (LocalOperands s !! Z.to_nat (Index - CachedNumGlobalValueIDs s))
  = None ->
  exists Ops,
    setOperand Index (Some Op) s = Returns tt (setLocalOperands Ops s) /\
    Ops !! Z.to_nat (Index - CachedNumGlobalValueIDs s) = Some (Some Op).
Proof.
  intros HLocal HRange HFree.
  set (L := Index - CachedNumGlobalValueIDs s) in *.
  assert (HL0 : 0 <= L) by (unfold L; lia).
  unfold setOperand. unfold bind at 1. unfold get at 1.
  fold L. rewrite (to_uint32_small L) by lia.
  destruct (Z.eqb_spec L (Z.of_nat (length (LocalOperands s)))) as [EPush|_].
  - eexists. split; [reflexivity|].
    rewrite EPush, Nat2Z.id. apply list_lookup_middle. reflexivity.
  - set (Resized := if Z.of_nat (length (LocalOperands s)) <=? L
                    then resize (Z.to_nat (to_uint32 (L + 1))) None
                                (LocalOperands s)
                    else LocalOperands s).
    assert (HLen : (Z.to_nat L < length Resized)%nat).
    { unfold Resized.
      destruct (Z.leb_spec (Z.of_nat (length (LocalOperands s))) L).
      - rewrite to_uint32_small by lia. unfold resize.
        rewrite length_app, length_take, length_replicate. lia.
      - lia. }
    assert (HSlot : mjoin (Resized !! Z.to_nat L) = None).
    { unfold Resized.
      destruct (Z.leb_spec (Z.of_nat (length (LocalOperands s))) L);
        [|exact HFree].
      apply resize_lookup_None. lia. }
    unfold bind at 1. unfold modify at 1. rewrite HSlot.
    eexists. split; [reflexivity|].
    apply list_lookup_insert_eq. exact HLen.
Qed.

(** X22.  A FORWARDTYPEREF record, with IR generation, for the ID of a local
    value that is not defined yet and a type other than [void]: the
    record makes a new variable of the type and reserves the ID for it,
    and defines no value.  A reference to the ID finds the variable from
    then on, and the instruction that defines the value with this ID takes
    the same variable when it has the same type: [getNextInstVar] makes
    no other variable and reports nothing. *)
Theorem forward_reference_is_resolved
    (s s1 : FunctionParser) (ID TypeID : Z) (T : IceType)
    (HIR : DisableIRGeneration (Flags (Context s)) = false)
    (HEnter : ProcessRecord_enterBlock s = Returns tt s1)
    (HType : getSimpleTypeByID (to_uint32 TypeID) s1 = Returns T s1)
    (HT : T <> IceType_void)
    (HLocal : CachedNumGlobalValueIDs s <= to_uint32 ID)
    (HRange : to_uint32 ID - CachedNumGlobalValueIDs s < 2^32 - 1)
    (HFree : mjoin (LocalOperands s
                      !! Z.to_nat (to_uint32 ID - CachedNumGlobalValueIDs s))
             = None) :
  let Var := IceVariable (length (Variables (Func s))) T in
  exists s',
    ProcessRecord FUNC_CODE_INST_FORWARDTYPEREF [ID; TypeID] s
    = Returns tt s' /\
    NextLocalInstIndex s' = NextLocalInstIndex s /\
    ErrStream (Context s') = ErrStream (Context s1) /\
    getOperand (to_uint32 ID) s'
    = Returns (Some Var) (logOperandLookup (to_uint32 ID) s') /\
    forall t : FunctionParser,
      LocalOperands t = LocalOperands s' ->
      CachedNumGlobalValueIDs t = CachedNumGlobalValueIDs s' ->
      NextLocalInstIndex t = to_uint32 ID ->
      getNextInstVar T t
      = Returns Var
          (setNextLocalInstIndexField (to_uint32 (to_uint32 ID + 1)) t).
Proof.
  intros Var.
  pose proof (keeps_Returns _ _ _ _ _ ProcessRecord_enterBlock_sameValues
                HEnter) as (HFlags1 & HFunc1 & HCached1 & HOps1 & HNext1).
  pose proof (to_uint32_range ID) as HID.
  set (s2 := setFunc (snd (makeVariable T (Func s1))) s1).
  destruct (setOperand_free (to_uint32 ID) Var s2) as (Ops & HSet & HOps).
  { simpl. rewrite HCached1. exact HLocal. }
  { simpl. rewrite HCached1. exact HRange. }
  { simpl. rewrite HCached1, HOps1. exact HFree. }
  simpl (CachedNumGlobalValueIDs s2) in HOps. rewrite HCached1 in HOps.
  assert (HRun :
    ProcessRecord FUNC_CODE_INST_FORWARDTYPEREF [ID; TypeID] s
    = Returns tt (setLocalOperands Ops s2)).
  { unfold ProcessRecord. rewrite (bind_Returns _ _ _ _ _ HEnter).
    unfold isIRGenerationDisabled at 1. unfold context at 1.
    unfold bind at 1. unfold bind at 1. unfold ret at 1.
    simpl (getContext _). rewrite HFlags1, HIR.
    unfold get at 1. unfold bind at 1. unfold isValidRecordSize. simpl length.
    simpl (Z.of_nat 2 =? 2). cbv iota. unfold ret at 1. unfold bind at 1.
    simpl negb. cbv iota.
    change (at_ [ID; TypeID] 0%nat) with ID.
    change (at_ [ID; TypeID] 1%nat) with TypeID.
    cbn [negb]. cbv iota.
    rewrite (bind_Returns _ _ _ _ _ HType).
    assert (HVar : createInstVar T s1 = Returns Var s2).
    { unfold createInstVar, useFunc.
      destruct (decide (T = IceType_void)); [contradiction|].
      mrun. rewrite HFlags1, HIR. unfold Var, s2. simpl.
      rewrite HFunc1. reflexivity. }
    unfold bind at 1. unfold bind at 1. rewrite HVar.
    unfold ret at 1. exact HSet. }
  exists (setLocalOperands Ops s2). split; [exact HRun|].
  split; [simpl; exact HNext1|]. split; [reflexivity|]. split.
  - apply getOperand_defined; simpl; rewrite HCached1; try lia.
    exact HOps.
  - intros t HOpsT HCachedT HNextT. simpl in HOpsT, HCachedT.
    unfold getNextInstVar. unfold bind at 1. unfold get at 1.
    rewrite HNextT, HCachedT, HCached1, HOpsT.
    rewrite (to_uint32_small (to_uint32 ID - _)) by lia.
    apply lookup_lt_Some in HOps as HLt.
    assert (E : (to_uint32 ID - CachedNumGlobalValueIDs s
                 <? Z.of_nat (length Ops)) = true)
      by (apply Z.ltb_lt; lia).
    rewrite E, HOps. unfold Var.
    change (mjoin (Some (Some (IceVariable (length (Variables (Func s))) T))))
      with (Some (IceVariable (length (Variables (Func s))) T)).
    cbv beta iota. destruct (decide (T = T)); [|contradiction].
    reflexivity.
Qed.

End ForwardReferenceFacts.

Lemma forward_reference_is_resolved_witness :
  let s := Spec.exampleFunctionParser [(PNaCl.FUNC_CODE_DECLAREBLOCKS, [1])] in
  let Var := Ice.IceVariable 1 Ice.IceType_f64 in
  exists s',
    PNaCl.ProcessRecord (Collab := PNaCl.exampleCollaborators)
      PNaCl.FUNC_CODE_INST_FORWARDTYPEREF [3; 3] s = PNaCl.Returns tt s' /\
    PNaCl.getOperand 3 s'
    = PNaCl.Returns (Some Var) (PNaCl.logOperandLookup 3 s').
Proof.
  intros s Var.
  assert (HIR : PNaCl.DisableIRGeneration (PNaCl.Flags (PNaCl.Context s))
                = false) by (vm_compute; reflexivity).
  assert (HEnter : PNaCl.ProcessRecord_enterBlock s = PNaCl.Returns tt s)
    by (vm_compute; reflexivity).
  assert (HType : PNaCl.getSimpleTypeByID (to_uint32 3) s
                  = PNaCl.Returns Ice.IceType_f64 s)
    by (vm_compute; reflexivity).
  assert (HT : Ice.IceType_f64 <> Ice.IceType_void) by discriminate.
  assert (HLocal : PNaCl.CachedNumGlobalValueIDs s <= to_uint32 3)
    by (vm_compute; discriminate).
  assert (HRange : to_uint32 3 - PNaCl.CachedNumGlobalValueIDs s < 2^32 - 1)
    by (vm_compute; reflexivity).
  assert (HFree :
    mjoin (PNaCl.LocalOperands s
             !! Z.to_nat (to_uint32 3 - PNaCl.CachedNumGlobalValueIDs s))
    = None) by (vm_compute; reflexivity).
  destruct (forward_reference_is_resolved
              (Collab := PNaCl.exampleCollaborators) s s 3 3 Ice.IceType_f64
              HIR HEnter HType HT HLocal HRange HFree)
    as (s' & HRun & _ & _ & HGet & _).
  exists s'. split; [exact HRun|]. exact HGet.
Defined.
